(** * Namdhari payment-advice processor: a shallow embedding of [app.py]

    The Python program harvests PDF attachments from a mailbox into a
    blob store, normalises the output of a document-extraction service
    into rows and appends them to a spreadsheet.  This file embeds the
    functions of [app.py] that carry the behaviour described by the
    specification and proves (or refutes) the specification's statements
    about them.

    Conventions.
    - Python values are the inductive [pyval]; a [dict] with string keys
      is an association list in insertion order.
    - A Python [float] is a binary64 number ([PrimFloat.float]).
    - Code that can raise returns a [result]; code that also touches the
      services, the clock or the log buffer lives in the monad [M] over
      the record [world].
    - The external services (mailbox, blob store, spreadsheet, extraction
      agent) are part of [world]; a call to one of them may raise, which
      is scripted by the [faults] lists.
    - What the program leaves to its host is a parameter of the
      development: the grammar of float literals, what the blob store
      reads in a search text that holds an unescaped quote, and whether
      writing or removing a temporary file raises. *)

From Stdlib Require Import ZArith String Ascii List Floats Lia DecimalString.
From stdpp Require Import base list strings gmap.

Set Default Proof Using "Type".
Set Warnings "-register-all".

(** ** Exceptions and results *)

Inductive exn : Type :=
| ValueError
| TypeError
| OverflowError
| KeyError
| ServiceError
| OSError.

Inductive result (A : Type) : Type :=
| Ok (a : A)
| Raise (e : exn).

Arguments Ok {A} a.
Arguments Raise {A} e.

Definition rbind {A B} (r : result A) (k : A -> result B) : result B :=
  match r with
  | Ok a => k a
  | Raise e => Raise e
  end.

(** [try: body / except Exception: handler]. *)
Definition try_except {A} (body : result A) (handler : exn -> result A) : result A :=
  match body with
  | Ok a => Ok a
  | Raise e => handler e
  end.

Definition raises {A} (r : result A) : bool :=
  match r with Ok _ => false | Raise _ => true end.

(** ** Python values *)

Inductive pyval : Type :=
| PNone
| PBool (b : bool)
| PInt (z : Z)
| PFloat (f : float)
| PStr (s : string)
| PList (l : list pyval)
| PDict (d : list (string * pyval)).

Abbreviation pydict := (list (string * pyval)).

(** [key in d] and [d.get(key, default)] on a dict. *)
Fixpoint dict_mem (d : pydict) (key : string) : bool :=
  match d with
  | [] => false
  | (k, _) :: d' => if String.eqb k key then true else dict_mem d' key
  end.

Fixpoint dict_get (d : pydict) (key : string) (default : pyval) : pyval :=
  match d with
  | [] => default
  | (k, v) :: d' => if String.eqb k key then v else dict_get d' key default
  end.

(** [isinstance(v, (int, float))]: [bool] is a subclass of [int]. *)
Definition is_number (v : pyval) : bool :=
  match v with
  | PBool _ | PInt _ | PFloat _ => true
  | _ => false
  end.

Definition is_str (v : pyval) : bool :=
  match v with PStr _ => true | _ => false end.

Definition is_dict (v : pyval) : bool :=
  match v with PDict _ => true | _ => false end.

Definition is_list (v : pyval) : bool :=
  match v with PList _ => true | _ => false end.

(** ** Floats and integers *)

(** [float(n)] for an [int]: the nearest binary64 number, ties to even;
    CPython raises [OverflowError] when that would not be finite. *)
Definition float_of_Z (z : Z) : result float :=
  let f := SF2Prim (binary_normalize prec emax z 0 false) in
  if PrimFloat.is_infinity f then Raise OverflowError else Ok f.

(** [int(f)] for a [float]: truncation towards zero. *)
Definition Z_of_float (f : float) : result Z :=
  match Prim2SF f with
  | S754_nan => Raise ValueError
  | S754_infinity _ => Raise OverflowError
  | S754_zero _ => Ok 0%Z
  | S754_finite s m e =>
      let a := Z.shiftl (Z.pos m) e in
      Ok (if s then (- a)%Z else a)
  end.

(** [str(n)] for a non-negative [int]. *)
Definition str_of_Z (z : Z) : string := NilZero.string_of_int (Z.to_int z).

(** [s1 in s2] for a one-character [s1]. *)
Fixpoint contains_char (c : ascii) (s : string) : bool :=
  match s with
  | EmptyString => false
  | String c' s' => if Ascii.eqb c c' then true else contains_char c s'
  end.

(** ** The calendar of [datetime]

    A [datetime.date] is its proleptic Gregorian ordinal: day 1 is
    0001-01-01 and day 3652059 is 9999-12-31. *)

Module Calendar.
Local Open Scope Z_scope.

Definition is_leap (y : Z) : bool :=
  (y mod 4 =? 0) && (negb (y mod 100 =? 0) || (y mod 400 =? 0)).

Definition days_in_month (y m : Z) : Z :=
  if m =? 2 then (if is_leap y then 29 else 28)
  else if (m =? 4) || (m =? 6) || (m =? 9) || (m =? 11) then 30
  else 31.

Definition days_before_year (y : Z) : Z :=
  let p := y - 1 in p * 365 + p / 4 - p / 100 + p / 400.

(** Days of year [y] that precede the first of month [m]. *)
Definition days_before_month (y m : Z) : Z :=
  fold_right Z.add 0
    (map (days_in_month y) (map Z.of_nat (seq 1 (Z.to_nat (m - 1))))).

Definition ymd2ord (y m d : Z) : Z :=
  days_before_year y + days_before_month y m + d.

Definition max_ordinal : Z := 3652059.

(** The month of day-of-year [n] (counted from 0) and the days before it. *)
Fixpoint month_of (y : Z) (n : Z) (m : Z) (fuel : nat) : Z * Z :=
  match fuel with
  | O => (m, n)
  | S fuel' =>
      let len := days_in_month y m in
      if n <? len then (m, n) else month_of y (n - len) (m + 1) fuel'
  end.

(** Ordinal to (year, month, day), the way [datetime] computes it:
    400-, 100-, 4- and 1-year cycles, then the month. *)
Definition ord2ymd (ordinal : Z) : Z * Z * Z :=
  let n0 := ordinal - 1 in
  let n400 := n0 / 146097 in
  let n1 := n0 mod 146097 in
  let n100 := n1 / 36524 in
  let n2 := n1 mod 36524 in
  let n4 := n2 / 1461 in
  let n3 := n2 mod 1461 in
  let n1y := n3 / 365 in
  let n := n3 mod 365 in
  let year := n400 * 400 + 1 + n100 * 100 + n4 * 4 + n1y in
  if (n1y =? 4) || (n100 =? 4) then (year - 1, 12, 31)
  else
    let '(month, rest) := month_of year n 1 11 in
    (year, month, rest + 1).

Definition month_abbr (m : Z) : string :=
  nth (Z.to_nat (m - 1))
    ["Jan"; "Feb"; "Mar"; "Apr"; "May"; "Jun";
     "Jul"; "Aug"; "Sep"; "Oct"; "Nov"; "Dec"]%string ""%string.

(** Two-digit, zero-padded field of [strftime]. *)
Definition pad2 (z : Z) : string :=
  if z <? 10 then ("0" ++ str_of_Z z)%string else str_of_Z z.

Definition pad4 (z : Z) : string :=
  if z <? 10 then ("000" ++ str_of_Z z)%string
  else if z <? 100 then ("00" ++ str_of_Z z)%string
  else if z <? 1000 then ("0" ++ str_of_Z z)%string
  else str_of_Z z.
End Calendar.

(** A reading of the clock: a date and the second of that day. *)
Record datetime : Type := DateTime {
  dt_ordinal : Z;
  dt_second : Z
}.

(** [timedelta(days=n)]: the constructor refuses more than 999999999 days. *)
Definition timedelta_days (n : Z) : result Z :=
  if (Z.abs n <=? 999999999)%Z then Ok n else Raise OverflowError.

(** [date + timedelta]: the sum must stay within years 1..9999. *)
Definition datetime_add_days (d : datetime) (n : Z) : result datetime :=
  let o := (dt_ordinal d + n)%Z in
  if ((1 <=? o) && (o <=? Calendar.max_ordinal))%Z
  then Ok (DateTime o (dt_second d))
  else Raise OverflowError.

(** [strftime("%-d-%b-%Y")] (and ["%#d-%b-%Y"] on Windows): day without
    padding, abbreviated month, year.  The year is printed as a plain
    decimal; below year 1000 the C library decides about padding. *)
Definition strftime_d_b_Y (d : datetime) : string :=
  let '(y, m, dd) := Calendar.ord2ymd (dt_ordinal d) in
  (str_of_Z dd ++ "-" ++ Calendar.month_abbr m ++ "-" ++ str_of_Z y)%string.

(** [strftime("%Y-%m-%d %H:%M:%S")]. *)
Definition strftime_iso (d : datetime) : string :=
  let '(y, m, dd) := Calendar.ord2ymd (dt_ordinal d) in
  let s := dt_second d in
  (Calendar.pad4 y ++ "-" ++ Calendar.pad2 m ++ "-" ++ Calendar.pad2 dd ++ " "
   ++ Calendar.pad2 (s / 3600) ++ ":" ++ Calendar.pad2 ((s / 60) mod 60) ++ ":"
   ++ Calendar.pad2 (s mod 60))%string.

(** [datetime(1899, 12, 30)]. *)
Definition excel_epoch : datetime := DateTime (Calendar.ymd2ord 1899 12 30) 0.

(** ** Strings *)

(** [str.upper()] on the ASCII letters; other bytes are left as they are. *)
Definition upper_char (c : ascii) : ascii :=
  let n := nat_of_ascii c in
  if (97 <=? n)%nat && (n <=? 122)%nat then ascii_of_nat (n - 32) else c.

Definition lower_char (c : ascii) : ascii :=
  let n := nat_of_ascii c in
  if (65 <=? n)%nat && (n <=? 90)%nat then ascii_of_nat (n + 32) else c.

Fixpoint map_string (f : ascii -> ascii) (s : string) : string :=
  match s with
  | EmptyString => EmptyString
  | String c s' => String (f c) (map_string f s')
  end.

Definition py_upper : string -> string := map_string upper_char.
Definition py_lower : string -> string := map_string lower_char.

Definition non_empty (s : string) : bool :=
  match s with EmptyString => false | _ => true end.

(** [s.endswith(suffix)]. *)
Definition endswith (s suffix : string) : bool :=
  let n := String.length s in
  let k := String.length suffix in
  (k <=? n)%nat && String.eqb (substring (n - k) k s) suffix.

(** [sub in s]. *)
Fixpoint is_substring (sub s : string) : bool :=
  String.prefix sub s ||
  match s with
  | EmptyString => false
  | String _ s' => is_substring sub s'
  end.

(** Position of the last ["."] in [s], if any. *)
Fixpoint last_dot (s : string) : option nat :=
  match s with
  | EmptyString => None
  | String c s' =>
      match last_dot s' with
      | Some i => Some (S i)
      | None => if Ascii.eqb c "." then Some O else None
      end
  end.

(** [l[-n:]] for a positive [n]: the last [n] elements. *)
Definition last_n {A} (n : nat) (l : list A) : list A :=
  drop (length l - n) l.

(** [l[:m]]: a negative bound counts from the end. *)
Definition py_slice_to {A} (m : Z) (l : list A) : list A :=
  if (0 <=? m)%Z then take (Z.to_nat m) l
  else take (length l - Z.to_nat (- m)) l.

(** ** The world: log buffer, clock and services *)

Record log_entry : Type := LogEntry {
  timestamp : string;
  level : string;
  message : string
}.

(** A part of a message: a container of parts (the key ["parts"] is
    present) or a leaf with its file name and, when the body has one,
    its attachment id. *)
Inductive part : Type :=
| Multipart (parts : list part)
| Leaf (filename : string) (attachment_id : option string).

(** What [attachments().get] answers: it raises, or the reply has no
    ["data"], or it has data whose base64 decoding gives [decoded]. *)
Inductive att_reply : Type :=
| AttRaises (e : exn)
| AttNoData
| AttData (decoded : result string).

(** The mailbox.  It is read-only, so it is a table of answers. *)
Record gmail_service : Type := Gmail {
  g_messages : string -> string -> datetime -> Z -> result (list string);
  g_metadata : string -> result (list (string * string));
  g_full : string -> result (option part);
  g_attachment : string -> string -> att_reply
}.

Record drive_file : Type := DriveFile {
  f_id : string;
  f_name : string;
  f_mime : string;
  f_parents : list string;
  f_created : datetime;
  f_trashed : bool;
  f_data : string
}.

(** The search clauses the program sends to [files().list]. *)
Inductive drive_query : Type :=
| QName (name : string)
| QMime (mime : string)
| QNameContains (s : string)
| QInParents (folder : string)
| QNotTrashed
| QCreatedSince (d : datetime)
| QAnd (a b : drive_query)
| QOr (a b : drive_query).

(** The blob store: its files, a supply of fresh ids, and for each
    coming call whether it raises. *)
Record drive_service : Type := Drive {
  d_files : list drive_file;
  d_next : nat;
  d_faults : list bool
}.

(** A call to the spreadsheet service that writes. *)
Inductive sheets_write : Type :=
| UpdateCall (last_column : ascii) (values : list (list pyval))
| AppendCall (values : list (list pyval)).

(** The spreadsheet: the grid a read returns, for each coming call
    whether it raises, and the write calls received so far with their
    outcome ([true]: accepted).  Within one run every read precedes
    every write, so the grid stands for the sheet as the run found it. *)
Record sheets_service : Type := Sheets {
  s_values : list (list string);
  s_faults : list bool;
  s_calls : list (sheets_write * bool)
}.

(** The extraction service: whether the client library is installed,
    what [get_agent] answers ([Ok false]: no such agent), and the
    outcomes of the coming [agent.extract] calls. *)
Record llama_service : Type := Llama {
  l_available : bool;
  l_agent : result bool;
  l_extract : list (result pydict)
}.

(** What the workflows tell [progress_callback]: a literal percentage, or
    [int(base + (i / n) * span)], kept unevaluated. *)
Inductive progress_msg : Type :=
| ProgressAt (percent : Z)
| ProgressScaled (base span i n : Z).

(** What the workflows tell [status_callback]. *)
Inductive status_msg : Type :=
| StatusStep (step total : Z) (text : string)
| StatusEmail (i total : Z)
| StatusPdf (i total : Z) (name : string).

Record world : Type := World {
  logs : list log_entry;
  clock : nat -> datetime;
  ticks : nat;
  slept : list Z;
  gmail : gmail_service;
  drive : drive_service;
  sheets : sheets_service;
  llama : llama_service;
  status : list status_msg;
  progress : list progress_msg
}.

Definition set_logs (l : list log_entry) (w : world) : world :=
  World l (clock w) (ticks w) (slept w) (gmail w) (drive w) (sheets w) (llama w)
        (status w) (progress w).
Definition set_ticks (n : nat) (w : world) : world :=
  World (logs w) (clock w) n (slept w) (gmail w) (drive w) (sheets w) (llama w)
        (status w) (progress w).
Definition set_slept (l : list Z) (w : world) : world :=
  World (logs w) (clock w) (ticks w) l (gmail w) (drive w) (sheets w) (llama w)
        (status w) (progress w).
Definition set_drive (d : drive_service) (w : world) : world :=
  World (logs w) (clock w) (ticks w) (slept w) (gmail w) d (sheets w) (llama w)
        (status w) (progress w).
Definition set_sheets (s : sheets_service) (w : world) : world :=
  World (logs w) (clock w) (ticks w) (slept w) (gmail w) (drive w) s (llama w)
        (status w) (progress w).
Definition set_llama (l : llama_service) (w : world) : world :=
  World (logs w) (clock w) (ticks w) (slept w) (gmail w) (drive w) (sheets w) l
        (status w) (progress w).
Definition set_status (l : list status_msg) (w : world) : world :=
  World (logs w) (clock w) (ticks w) (slept w) (gmail w) (drive w) (sheets w)
        (llama w) l (progress w).
Definition set_progress (l : list progress_msg) (w : world) : world :=
  World (logs w) (clock w) (ticks w) (slept w) (gmail w) (drive w) (sheets w)
        (llama w) (status w) l.

(** ** The monad of effectful code *)

Definition M (A : Type) : Type := world -> result A * world.

Definition ret {A} (a : A) : M A := fun w => (Ok a, w).

Definition bind {A B} (m : M A) (k : A -> M B) : M B :=
  fun w =>
    match m w with
    | (Ok a, w') => k a w'
    | (Raise e, w') => (Raise e, w')
    end.

Definition raise {A} (e : exn) : M A := fun w => (Raise e, w).

Definition lift {A} (r : result A) : M A := fun w => (r, w).

(** [try: body / except Exception as e: handler e]; the effects of the
    body up to the exception stay. *)
Definition try_catch {A} (body : M A) (handler : exn -> M A) : M A :=
  fun w =>
    match body w with
    | (Ok a, w') => (Ok a, w')
    | (Raise e, w') => handler e w'
    end.

Notation "x <- m ;; k" := (bind m (fun x => k))
  (at level 100, m at next level, right associativity).
Notation "m ;; k" := (bind m (fun _ => k))
  (at level 100, right associativity).

(** [datetime.now()]: the next reading of the clock. *)
Definition now : M datetime :=
  fun w => (Ok (clock w (ticks w)), set_ticks (S (ticks w)) w).

(** [time.sleep(seconds)]. *)
Definition sleep (seconds : Z) : M unit :=
  fun w => (Ok tt, set_slept (slept w ++ [seconds]) w).

Definition status_callback (msg : status_msg) : M unit :=
  fun w => (Ok tt, set_status (status w ++ [msg]) w).

Definition progress_callback (value : progress_msg) : M unit :=
  fun w => (Ok tt, set_progress (progress w ++ [value]) w).

Definition exn_str (e : exn) : string :=
  match e with
  | ValueError => "ValueError"
  | TypeError => "TypeError"
  | OverflowError => "OverflowError"
  | KeyError => "KeyError"
  | ServiceError => "ServiceError"
  | OSError => "OSError"
  end.

(** ** The log buffer: [log] *)

Definition log (message : string) (level : string) : M unit :=
  t <- now ;;
  let log_entry := LogEntry (strftime_iso t) (py_upper level) message in
  fun w =>
    let appended := logs w ++ [log_entry] in
    (Ok tt,
     set_logs (if (200 <? length appended)%nat then last_n 200 appended
               else appended) w).

(** ** The mailbox: [search_emails], [get_email_details] *)

(** The text of the query is not built here: the mailbox receives the
    criteria the query is made of. *)
Definition search_emails (sender search_term : string) (days_back max_results : Z)
  : M (list string) :=
  try_catch
    (t <- now ;;
     delta <- lift (timedelta_days days_back) ;;
     start_date <- lift (datetime_add_days t (- delta)) ;;
     log ("Searching Gmail with query: " ++ sender ++ " " ++ search_term) "INFO" ;;
     messages <- (fun w =>
       (g_messages (gmail w) sender search_term start_date max_results, w)) ;;
     log ("Found " ++ str_of_Z (Z.of_nat (length messages))
          ++ " emails matching criteria") "INFO" ;;
     ret messages)
    (fun e => log ("Email search failed: " ++ exn_str e) "ERROR" ;; ret []).

Record email_details : Type := EmailDetails {
  ed_id : string;
  ed_sender : string;
  ed_subject : string;
  ed_date : string
}.

(** [next((h['value'] for h in headers if h['name'] == name), default)]. *)
Fixpoint header_value (headers : list (string * string)) (name default : string)
  : string :=
  match headers with
  | [] => default
  | (n, v) :: rest => if String.eqb n name then v else header_value rest name default
  end.

(** [None] stands for the empty dict the handler returns. *)
Definition get_email_details (message_id : string) : M (option email_details) :=
  try_catch
    (headers <- (fun w => (g_metadata (gmail w) message_id, w)) ;;
     ret (Some (EmailDetails message_id
                  (header_value headers "From" "Unknown")
                  (header_value headers "Subject" "(No Subject)")
                  (header_value headers "Date" ""))))
    (fun e =>
       log ("Failed to get email details for " ++ message_id ++ ": " ++ exn_str e)
           "ERROR" ;;
       ret None).

(** ** File names: [sanitize_filename] *)

(** The characters the regular expression replaces: the angle brackets,
    colon, double quote (code 34), slash, backslash, bar, question
    mark and star. *)
Definition unsafe_char (c : ascii) : bool :=
  existsb (Ascii.eqb c)
    ["<"; ">"; ":"; "034"; "/"; "\"; "|"; "?"; "*"]%char.

Definition sanitize_filename (filename : string) : string :=
  let cleaned := map_string (fun c => if unsafe_char c then "_"%char else c) filename in
  if (100 <? String.length cleaned)%nat then
    match last_dot cleaned with
    | Some i =>
        let extension := substring (S i) (String.length cleaned - S i) cleaned in
        let base_name := substring 0 i cleaned in
        (substring 0 95 base_name ++ "." ++ extension)%string
    | None => substring 0 100 cleaned
    end
  else cleaned.

Section Program.

(** ** The blob store: [create_drive_folder], [upload_to_drive] *)

Definition datetime_leb (a b : datetime) : bool :=
  (dt_ordinal a <? dt_ordinal b)%Z
  || ((dt_ordinal a =? dt_ordinal b)%Z && (dt_second a <=? dt_second b)%Z).

Fixpoint matches (q : drive_query) (f : drive_file) : bool :=
  match q with
  | QName name => String.eqb (f_name f) name
  | QMime mime => String.eqb (f_mime f) mime
  | QNameContains sub => is_substring sub (f_name f)
  | QInParents folder => existsb (String.eqb folder) (f_parents f)
  | QNotTrashed => negb (f_trashed f)
  | QCreatedSince d => datetime_leb d (f_created f)
  | QAnd a b => matches a f && matches b f
  | QOr a b => matches a f || matches b f
  end.

(** Every call to the store first consults the script of faults. *)
Definition drive_call : M unit :=
  fun w =>
    let d := drive w in
    match d_faults d with
    | [] => (Ok tt, w)
    | fault :: rest =>
        (if fault then Raise ServiceError else Ok tt,
         set_drive (Drive (d_files d) (d_next d) rest) w)
    end.

(** [files().list(q=...)]; the store answers in one page. *)
Definition files_list (q : drive_query) : M (list drive_file) :=
  drive_call ;;
  fun w => (Ok (filter (fun f => matches q f = true) (d_files (drive w))), w).

(** [files().create(body=..., media_body=...)]: returns the new id. *)
Definition files_create (name mime : string) (parents : list string) (data : string)
  : M string :=
  drive_call ;;
  fun w =>
    let d := drive w in
    let id := ("file" ++ str_of_Z (Z.of_nat (d_next d)))%string in
    let f := DriveFile id name mime parents (clock w (ticks w)) false data in
    (Ok id, set_drive (Drive (d_files d ++ [f]) (S (d_next d)) (d_faults d)) w).

(** [files().get_media(fileId=...)]. *)
Definition files_get_media (file_id : string) : M string :=
  drive_call ;;
  fun w =>
    match filter (fun f => String.eqb (f_id f) file_id = true) (d_files (drive w)) with
    | f :: _ => (Ok (f_data f), w)
    | [] => (Raise ServiceError, w)
    end.

Definition folder_mime : string := "application/vnd.google-apps.folder".

Definition create_drive_folder (folder_name parent_folder_id : string) : M string :=
  try_catch
    (let query := QAnd (QName folder_name) (QAnd (QMime folder_mime) QNotTrashed) in
     let query := if non_empty parent_folder_id
                  then QAnd query (QInParents parent_folder_id) else query in
     files <- files_list query ;;
     match files with
     | f :: _ =>
         log ("Using existing folder: " ++ folder_name ++ " (ID: " ++ f_id f ++ ")")
             "INFO" ;;
         ret (f_id f)
     | [] =>
         folder_id <- files_create folder_name folder_mime
                        (if non_empty parent_folder_id then [parent_folder_id] else [])
                        "" ;;
         log ("Created Google Drive folder: " ++ folder_name
              ++ " (ID: " ++ folder_id ++ ")") "INFO" ;;
         ret folder_id
     end)
    (fun e =>
       log ("Failed to create folder " ++ folder_name ++ ": " ++ exn_str e) "ERROR" ;;
       ret ""%string).

(** The text of a query puts a name between single quotes as it is.  A
    name without a quote and without a backslash is read back as that
    name.  How the store reads the text built from any other name
    belongs to the query language of the store, not to the program, so
    it is a parameter: what the existence check of [upload_to_drive]
    answers, from the files of the store, the file name and the folder
    id. *)
Definition plain (s : string) : bool :=
  negb (contains_char "'" s) && negb (contains_char "\" s).

Variable quoted_query :
  list drive_file -> string -> string -> result (list drive_file).

(** The existence check of [upload_to_drive], the query
    [name='{filename}' and '{folder_id}' in parents and trashed=false]. *)
Definition files_named (filename folder_id : string) : M (list drive_file) :=
  if plain filename && plain folder_id then
    files_list (QAnd (QName filename) (QAnd (QInParents folder_id) QNotTrashed))
  else
    drive_call ;;
    fun w => (quoted_query (d_files (drive w)) filename folder_id, w).

Definition upload_to_drive (file_data filename folder_id : string) : M bool :=
  try_catch
    (files <- files_named filename folder_id ;;
     match files with
     | _ :: _ =>
         log ("File already exists, skipping: " ++ filename) "INFO" ;;
         ret true
     | [] =>
         files_create filename "application/octet-stream"
           (if non_empty folder_id then [folder_id] else []) file_data ;;
         log ("Uploaded to Drive: " ++ filename) "INFO" ;;
         ret true
     end)
    (fun e =>
       log ("Failed to upload " ++ filename ++ ": " ++ exn_str e) "ERROR" ;;
       ret false).

(** ** The harvester: [process_attachment],
       [extract_attachments_from_email], [process_mail_to_drive_workflow] *)

Record attachment_info : Type := AttachmentInfo {
  ai_message_id : string;
  ai_original_filename : string;
  ai_saved_filename : string;
  ai_drive_folder_id : string
}.

(** [attachments().get(...).execute()] followed by the base64 decoding of
    its data; [None] when the reply carries no data. *)
Definition fetch_attachment (message_id attachment_id : string) : M (option string) :=
  fun w =>
    match g_attachment (gmail w) message_id attachment_id with
    | AttRaises e => (Raise e, w)
    | AttNoData => (Ok None, w)
    | AttData (Ok bytes) => (Ok (Some bytes), w)
    | AttData (Raise e) => (Raise e, w)
    end.

(** [None] stands for [{'success': False}]. *)
Definition process_attachment (message_id : string) (filename : string)
    (attachment_id : option string) (base_folder_id : string)
  : M (option attachment_info) :=
  try_catch
    (if negb (non_empty filename) then ret None
     else if negb (endswith (py_lower filename) ".pdf") then
       log ("Not a PDF file: " ++ filename) "INFO" ;; ret None
     else
       let clean_filename := sanitize_filename filename in
       let original_filename := clean_filename in
       let final_filename := (message_id ++ "_" ++ clean_filename)%string in
       match attachment_id with
       | None => ret None
       | Some aid =>
           if negb (non_empty aid) then ret None
           else
             att <- fetch_attachment message_id aid ;;
             match att with
             | None => ret None
             | Some file_data =>
                 gmail_folder_id <- create_drive_folder "Gmail_Attachments" base_folder_id ;;
                 pdfs_folder_id <- create_drive_folder "PDFs" gmail_folder_id ;;
                 success <- upload_to_drive file_data final_filename pdfs_folder_id ;;
                 if success : bool then
                   log ("Processed PDF attachment: " ++ filename
                        ++ " (saved as " ++ final_filename ++ ")") "SUCCESS" ;;
                   ret (Some (AttachmentInfo message_id original_filename
                                final_filename pdfs_folder_id))
                 else ret None
             end
       end)
    (fun e =>
       log ("Failed to process attachment " ++ filename ++ ": " ++ exn_str e) "ERROR" ;;
       ret None).

Fixpoint extract_attachments_from_email (message_id : string) (payload : part)
    (base_folder_id : string) : M (list attachment_info) :=
  match payload with
  | Multipart parts =>
      (fix each (ps : list part) : M (list attachment_info) :=
         match ps with
         | [] => ret []
         | p :: ps' =>
             found <- extract_attachments_from_email message_id p base_folder_id ;;
             others <- each ps' ;;
             ret (found ++ others)
         end) parts
  | Leaf filename attachment_id =>
      if non_empty filename && bool_decide (is_Some attachment_id) then
        r <- process_attachment message_id filename attachment_id base_folder_id ;;
        match r with
        | Some info => ret [info]
        | None => ret []
        end
      else ret []
  end.

Record mail_config : Type := MailConfig {
  mc_sender : string;
  mc_search_term : string;
  mc_days_back : Z;
  mc_max_results : Z;
  mc_gdrive_folder_id : string
}.

(** The local dict [stats] of the workflow. *)
Record mail_stats : Type := MailStats {
  st_total_emails : Z;
  st_processed_emails : Z;
  st_total_attachments : Z;
  st_successful_uploads : Z;
  st_failed_uploads : Z;
  st_attachments_info : list attachment_info
}.

(** The dict the workflow returns. *)
Record mail_result : Type := MailResult {
  success : bool;
  total_emails : Z;
  processed_emails : Z;
  total_attachments : Z;
  failed : Z;
  attachments_info : list attachment_info
}.

Definition count_failed_upload (st : mail_stats) : mail_stats :=
  MailStats (st_total_emails st) (st_processed_emails st) (st_total_attachments st)
            (st_successful_uploads st) (st_failed_uploads st + 1)
            (st_attachments_info st).

Definition count_attachments (attachments : list attachment_info) (st : mail_stats)
  : mail_stats :=
  let n := Z.of_nat (length attachments) in
  MailStats (st_total_emails st) (st_processed_emails st + 1)
            (st_total_attachments st + n) (st_successful_uploads st + n)
            (st_failed_uploads st) (st_attachments_info st ++ attachments).

(** One turn of the loop over [emails].  A turn that stops at [continue]
    leaves [stats] alone.  The handler finds [stats] as the turn found
    it: the steps that follow the update of [stats] do not raise. *)
Definition process_one_email (base_folder_id : string) (total : Z)
    (st : mail_stats) (i : Z) (email : string) : M mail_stats :=
  try_catch
    (status_callback (StatusEmail i total) ;;
     sender_info <- get_email_details email ;;
     match sender_info with
     | None => ret st
     | Some info =>
         message <- (fun w => (g_full (gmail w) email, w)) ;;
         match message with
         | None => ret st
         | Some payload =>
             attachments <- extract_attachments_from_email email payload base_folder_id ;;
             st' <- match attachments with
                    | _ :: _ =>
                        log ("Found " ++ str_of_Z (Z.of_nat (length attachments))
                             ++ " PDF attachments in email: "
                             ++ substring 0 50 (ed_subject info)) "INFO" ;;
                        ret (count_attachments attachments st)
                    | [] =>
                        log ("No PDF attachments found in email: "
                             ++ substring 0 50 (ed_subject info)) "INFO" ;;
                        ret st
                    end ;;
             progress_callback (ProgressScaled 30 50 i total) ;;
             ret st'
         end
     end)
    (fun e =>
       log ("Failed to process email " ++ email ++ ": " ++ exn_str e) "ERROR" ;;
       ret (count_failed_upload st)).

(** [for i, email in enumerate(emails, 1)]. *)
Fixpoint process_emails (base_folder_id : string) (total : Z) (st : mail_stats)
    (i : Z) (emails : list string) : M mail_stats :=
  match emails with
  | [] => ret st
  | email :: rest =>
      st' <- process_one_email base_folder_id total st i email ;;
      process_emails base_folder_id total st' (i + 1) rest
  end.

Definition process_mail_to_drive_workflow (config : mail_config) : M mail_result :=
  try_catch
    (status_callback (StatusStep 1 3 "Searching for emails...") ;;
     progress_callback (ProgressAt 10) ;;
     emails <- search_emails (mc_sender config) (mc_search_term config)
                 (mc_days_back config) (mc_max_results config) ;;
     let n := Z.of_nat (length emails) in
     match emails with
     | [] =>
         log "No emails found matching criteria" "INFO" ;;
         ret (MailResult true 0 0 0 0 [])
     | _ :: _ =>
         let base_folder_id := mc_gdrive_folder_id config in
         if negb (non_empty base_folder_id) then
           log "No base folder ID provided" "ERROR" ;;
           ret (MailResult false n 0 0 n [])
         else
           let stats := MailStats n 0 0 0 0 [] in
           log ("Processing " ++ str_of_Z n ++ " emails...") "INFO" ;;
           status_callback (StatusStep 2 3 "Processing emails...") ;;
           progress_callback (ProgressAt 30) ;;
           stats <- process_emails base_folder_id n stats 1 emails ;;
           status_callback (StatusStep 3 3 "Finalizing uploads...") ;;
           progress_callback (ProgressAt 90) ;;
           log "Mail to Drive workflow complete!" "SUCCESS" ;;
           progress_callback (ProgressAt 100) ;;
           ret (MailResult true (st_total_emails stats) (st_processed_emails stats)
                  (st_successful_uploads stats) (st_failed_uploads stats)
                  (st_attachments_info stats))
     end)
    (fun e =>
       log ("Mail to Drive workflow failed: " ++ exn_str e) "ERROR" ;;
       ret (MailResult false 0 0 0 0 [])).

(** ** The blob store, read side: [list_drive_files], [download_from_drive] *)

(** Insertion into a list ordered by creation time, newest first. *)
Fixpoint insert_newest (f : drive_file) (l : list drive_file) : list drive_file :=
  match l with
  | [] => [f]
  | g :: l' =>
      if datetime_leb (f_created g) (f_created f) then f :: l
      else g :: insert_newest f l'
  end.

Definition newest_first (l : list drive_file) : list drive_file :=
  fold_right insert_newest [] l.

(** The clock is read once for [datetime.utcnow()]; local time and UTC
    are not told apart. *)
Definition list_drive_files (folder_id : string) (days_back : Z) : M (list drive_file) :=
  try_catch
    (t <- now ;;
     delta <- lift (timedelta_days (days_back - 1)) ;;
     start_datetime <- lift (datetime_add_days t (- delta)) ;;
     let start := DateTime (dt_ordinal start_datetime) 0 in
     let query :=
       QAnd (QInParents folder_id)
         (QAnd (QOr (QMime "application/pdf") (QNameContains ".pdf"))
            (QAnd QNotTrashed (QCreatedSince start))) in
     found <- files_list query ;;
     let files := newest_first found in
     log ("Found " ++ str_of_Z (Z.of_nat (length files)) ++ " PDF files in folder "
          ++ folder_id) "INFO" ;;
     ret files)
    (fun e =>
       log ("Failed to list files in folder " ++ folder_id ++ ": " ++ exn_str e)
           "ERROR" ;;
       ret []).

(** The empty string stands for [b""]. *)
Definition download_from_drive (file_id file_name : string) : M string :=
  try_catch
    (file_data <- files_get_media file_id ;;
     log ("Downloaded: " ++ file_name) "INFO" ;;
     ret file_data)
    (fun e =>
       log ("Failed to download file " ++ file_name ++ ": " ++ exn_str e) "ERROR" ;;
       ret ""%string).

(** ** The spreadsheet: [append_to_google_sheet], [get_sheet_headers],
       [update_headers], [get_existing_source_files] *)

(** A read consults the script of faults. *)
Definition sheets_read : M (list (list string)) :=
  fun w =>
    let s := sheets w in
    match s_faults s with
    | [] => (Ok (s_values s), w)
    | fault :: rest =>
        (if fault then Raise ServiceError else Ok (s_values s),
         set_sheets (Sheets (s_values s) rest (s_calls s)) w)
    end.

(** A write consults the script of faults and is recorded with its outcome. *)
Definition sheets_write_call (c : sheets_write) : M unit :=
  fun w =>
    let s := sheets w in
    match s_faults s with
    | [] => (Ok tt, set_sheets (Sheets (s_values s) [] (s_calls s ++ [(c, true)])) w)
    | fault :: rest =>
        (if fault then Raise ServiceError else Ok tt,
         set_sheets (Sheets (s_values s) rest (s_calls s ++ [(c, negb fault)])) w)
    end.

(** [range(start, stop)] for the attempt counters. *)
Definition py_range (start stop : Z) : list Z :=
  map (fun k => (start + Z.of_nat k)%Z) (seq 0 (Z.to_nat (stop - start))).

(** The loop [for attempt in range(1, max_retries + 1)], from the
    attempts that are still to come. *)
Fixpoint append_attempts (max_retries wait_time : Z) (values : list (list pyval))
    (attempts : list Z) : M bool :=
  match attempts with
  | [] => ret false
  | attempt :: rest =>
      try_catch
        (sheets_write_call (AppendCall values) ;;
         log "Appended cells to Google Sheet" "INFO" ;;
         ret true)
        (fun e =>
           if (attempt <? max_retries)%Z then
             log ("Attempt " ++ str_of_Z attempt ++ " failed: " ++ exn_str e) "WARNING" ;;
             sleep wait_time ;;
             append_attempts max_retries wait_time values rest
           else
             log ("Failed to append to Google Sheet: " ++ exn_str e) "ERROR" ;;
             ret false)
  end.

Definition append_to_google_sheet (values : list (list pyval)) : M bool :=
  let max_retries := 3%Z in
  let wait_time := 2%Z in
  append_attempts max_retries wait_time values (py_range 1 (max_retries + 1)).

(** A read drops the empty cells that end a row. *)
Fixpoint strip_trailing_empty (row : list string) : list string :=
  match row with
  | [] => []
  | c :: row' =>
      match strip_trailing_empty row' with
      | [] => if non_empty c then [c] else []
      | kept => c :: kept
      end
  end.

(** The values of the range [A1:Z1]. *)
Definition range_A1_Z1 (grid : list (list string)) : list (list string) :=
  match grid with
  | [] => []
  | row :: _ =>
      match strip_trailing_empty (take 26 row) with
      | [] => []
      | cells => [cells]
      end
  end.

Definition get_sheet_headers : M (list string) :=
  try_catch
    (grid <- sheets_read ;;
     match range_A1_Z1 grid with
     | row :: _ => ret row
     | [] => ret []
     end)
    (fun e => log ("No existing headers or error: " ++ exn_str e) "INFO" ;; ret []).

(** The range written is [A1:{chr(64 + min(len(new_headers), 26))}1]. *)
Definition update_headers (new_headers : list string) : M bool :=
  try_catch
    (sheets_write_call
       (UpdateCall (ascii_of_nat (64 + Nat.min (length new_headers) 26))
                   [map PStr new_headers]) ;;
     log ("Updated headers with " ++ str_of_Z (Z.of_nat (length new_headers))
          ++ " columns") "INFO" ;;
     ret true)
    (fun e => log ("Failed to update headers: " ++ exn_str e) "ERROR" ;; ret false).

(** [headers.index(column_name)], when [column_name in headers]. *)
Fixpoint index_of (x : string) (l : list string) : option nat :=
  match l with
  | [] => None
  | y :: l' => if String.eqb y x then Some O else option_map S (index_of x l')
  end.

(** The set comprehension over [values[1:]]. *)
Definition column_values (name_index : nat) (rows : list (list string)) : gset string :=
  list_to_set
    (omap (fun row =>
             match row !! name_index with
             | Some cell => if non_empty cell then Some cell else None
             | None => None
             end) rows).

Definition get_existing_source_files (column_name : string) : M (gset string) :=
  try_catch
    (values <- sheets_read ;;
     match values with
     | [] => ret ∅
     | headers :: rows =>
         match index_of column_name headers with
         | None =>
             log ("No '" ++ column_name ++ "' column found in sheet") "WARNING" ;;
             ret ∅
         | Some name_index =>
             let existing_names := column_values name_index rows in
             log ("Found " ++ str_of_Z (Z.of_nat (size existing_names))
                  ++ " existing file names in '" ++ column_name ++ "' column") "INFO" ;;
             ret existing_names
         end
     end)
    (fun e => log ("Failed to get existing file names: " ++ exn_str e) "ERROR" ;; ret ∅).

(** ** The extraction service: [safe_extract] *)

(** [agent.extract(file_path)]: the next outcome of the script. *)
Definition agent_extract : M pydict :=
  fun w =>
    let l := llama w in
    match l_extract l with
    | [] => (Raise ServiceError, w)
    | r :: rest => (r, set_llama (Llama (l_available l) (l_agent l) rest) w)
    end.

Fixpoint extract_attempts (retries wait_time : Z) (file_path : string)
    (attempts : list Z) : M pydict :=
  match attempts with
  | [] => raise ServiceError
  | attempt :: rest =>
      try_catch agent_extract
        (fun e =>
           log ("Attempt " ++ str_of_Z attempt ++ " failed for " ++ file_path
                ++ ": " ++ exn_str e) "WARNING" ;;
           sleep wait_time ;;
           extract_attempts retries wait_time file_path rest)
  end.

Definition safe_extract (file_path : string) : M pydict :=
  let retries := 3%Z in
  let wait_time := 2%Z in
  extract_attempts retries wait_time file_path (py_range 1 (retries + 1)).

(** Python's [float(s)] on a [str]: [Some f] when [s] is a float literal,
    [None] when the conversion raises [ValueError].  The literal grammar
    belongs to the interpreter, not to the program, so it is a parameter. *)
Variable float_of_str : string -> option float.

(** [float(v)]. *)
Definition py_float (v : pyval) : result float :=
  match v with
  | PBool b => Ok (if b then 1%float else 0%float)
  | PInt z => float_of_Z z
  | PFloat f => Ok f
  | PStr s => match float_of_str s with Some f => Ok f | None => Raise ValueError end
  | _ => Raise TypeError
  end.

(** [int(v)] for a number. *)
Definition py_int (v : pyval) : result Z :=
  match v with
  | PBool b => Ok (if b then 1 else 0)%Z
  | PInt z => Ok z
  | PFloat f => Z_of_float f
  | _ => Raise TypeError
  end.

(** ** DateCodec: [excel_date_to_string] *)

(** The body of the [try]; the second component of the pair is the value
    bound to the name [excel_date] when the body stops, which is what
    the handler returns. *)
Definition excel_date_body (excel_date : pyval) : result pyval * pyval :=
  let convert (v : pyval) : result pyval * pyval :=
    if is_number v then
      (rbind (py_int v) (fun n =>
       rbind (timedelta_days n) (fun days =>
       rbind (datetime_add_days excel_epoch days) (fun date_value =>
       Ok (PStr (strftime_d_b_Y date_value))))), v)
    else (Ok v, v) in
  match excel_date with
  | PStr s =>
      if contains_char "-" s || contains_char "/" s then (Ok excel_date, excel_date)
      else
        match py_float excel_date with
        | Ok f => convert (PFloat f)
        | Raise _ => (Ok excel_date, excel_date)
        end
  | _ => convert excel_date
  end.

Definition excel_date_to_string (excel_date : pyval) : result pyval :=
  let '(r, bound) := excel_date_body excel_date in
  try_except r (fun _ => Ok bound).

(** ** The normalizer: [parse_extracted_data] *)

(** The loops [for key in [...]: if key in data and isinstance(data[key], T)]:
    the value under the first key that holds a value of the wanted type. *)
Fixpoint first_of_type (is_type : pyval -> bool) (data : pydict) (keys : list string)
  : option pyval :=
  match keys with
  | [] => None
  | key :: rest =>
      if dict_mem data key && is_type (dict_get data key PNone)
      then Some (dict_get data key PNone)
      else first_of_type is_type data rest
  end.

(** The loop over [payment_mode_details], which breaks at the first
    mapping that has the key ['amount']. *)
Fixpoint payment_loop (payments : list pyval) (total_payment : pyval) : pyval :=
  match payments with
  | [] => total_payment
  | PDict payment :: rest =>
      if dict_mem payment "amount" then dict_get payment "amount" PNone
      else payment_loop rest total_payment
  | _ :: rest => payment_loop rest total_payment
  end.

(** [a + b] on numbers. *)
Definition py_add (a b : pyval) : result pyval :=
  match a, b with
  | PInt x, PInt y => Ok (PInt (x + y))
  | PInt x, PFloat g => rbind (float_of_Z x) (fun f => Ok (PFloat (f + g)))
  | PFloat f, PInt y => rbind (float_of_Z y) (fun g => Ok (PFloat (f + g)))
  | PFloat f, PFloat g => Ok (PFloat (f + g))
  | _, _ => Raise TypeError
  end.

(** [total += float(amount) if isinstance(amount, (int, float)) else 0]. *)
Definition add_amount (total amount : pyval) : result pyval :=
  rbind (if is_number amount
         then rbind (py_float amount) (fun f => Ok (PFloat f))
         else Ok (PInt 0))
        (py_add total).

(** The three running totals: bill amount, net amount, TDS. *)
Definition totals : Type := pyval * pyval * pyval.

(** The loop [for val in [bill_amount, net_amount, tds_amount]].  The
    conversion of [val] is bound to a name nothing reads; the three
    additions are in the body of this loop. *)
Fixpoint val_loop (vals : list pyval) (bill_amount net_amount tds_amount : pyval)
    (t : totals) : result totals :=
  match vals with
  | [] => Ok t
  | val :: rest =>
      let val :=
        if is_str val
        then match py_float val with Ok f => PFloat f | Raise _ => PInt 0 end
        else val in
      let '(total_bill_amount, total_net_amount, total_tds) := t in
      rbind (add_amount total_bill_amount bill_amount) (fun total_bill_amount =>
      rbind (add_amount total_net_amount net_amount) (fun total_net_amount =>
      rbind (add_amount total_tds tds_amount) (fun total_tds =>
      val_loop rest bill_amount net_amount tds_amount
        (total_bill_amount, total_net_amount, total_tds))))
  end.

(** The loop [for bill in bill_details] that builds the totals. *)
Fixpoint bill_loop (bill_details : list pyval) (t : totals) : result totals :=
  match bill_details with
  | [] => Ok t
  | PDict bill :: rest =>
      let bill_amount := dict_get bill "bill_amount" (dict_get bill "amount" (PInt 0)) in
      let net_amount := dict_get bill "net_amount" (dict_get bill "net_amount" (PInt 0)) in
      let tds_amount := dict_get bill "deduction_tds" (dict_get bill "tds" (PInt 0)) in
      rbind (val_loop [bill_amount; net_amount; tds_amount]
                      bill_amount net_amount tds_amount t)
            (bill_loop rest)
  | _ :: rest => bill_loop rest t
  end.

Definition utr_of (document_info : pydict) : pyval :=
  dict_get document_info "utr_number" (dict_get document_info "utr" (PStr "")).

(** The loop [for i, bill in enumerate(bill_details, 1)] that builds the
    line-item rows. *)
Fixpoint bill_rows (document_info : pydict) (doc_date total_payment : pyval)
    (file_info : drive_file) (total_bills : Z) (i : Z) (bill_details : list pyval)
  : M (list pydict) :=
  match bill_details with
  | [] => ret []
  | PDict bill :: rest =>
      bill_doc_date <- lift (excel_date_to_string
        (dict_get bill "bill_document_date" (dict_get bill "date" (PStr "")))) ;;
      t <- now ;;
      let bill_row : pydict :=
        [("document_date", doc_date);
         ("clearing_document_number",
            dict_get document_info "clearing_document_number" (PStr ""));
         ("utr_number", utr_of document_info);
         ("bill_reference_number",
            dict_get bill "bill_reference_number"
              (dict_get bill "reference_number" (PStr "")));
         ("accounting_document_number",
            dict_get bill "accounting_document_number"
              (dict_get bill "accounting_number" (PStr "")));
         ("bill_document_date", bill_doc_date);
         ("bill_amount", dict_get bill "bill_amount" (dict_get bill "amount" (PInt 0)));
         ("deduction_tds", dict_get bill "deduction_tds" (dict_get bill "tds" (PInt 0)));
         ("net_amount", dict_get bill "net_amount" (PInt 0));
         ("bill_sequence", PInt i);
         ("total_bills", PInt total_bills);
         ("total_payment_amount", total_payment);
         ("source_file_name", PStr (f_name file_info));
         ("processed_date", PStr (strftime_iso t));
         ("drive_file_id", PStr (f_id file_info))]%string in
      others <- bill_rows document_info doc_date total_payment file_info
                  total_bills (i + 1) rest ;;
      ret (bill_row :: others)
  | _ :: rest =>
      bill_rows document_info doc_date total_payment file_info total_bills (i + 1) rest
  end.

(** The loop over the candidate keys of the document section. *)
Definition find_document_info (data : pydict) : pydict :=
  match first_of_type is_dict data
          ["document_info"; "data"; "payment_advice"; "document"]%string with
  | Some (PDict d) => d
  | _ => []
  end.

(** The loop over the candidate keys of the line items. *)
Definition find_bill_details (data : pydict) : list pyval :=
  match first_of_type is_list data
          ["bill_details"; "bills"; "items"; "line_items"]%string with
  | Some (PList l) => l
  | _ => []
  end.

(** The loop over the candidate keys of the payment modes. *)
Definition find_payment_mode_details (data : pydict) : list pyval :=
  match first_of_type is_list data
          ["payment_mode_details"; "payment_details"; "payment"]%string with
  | Some (PList l) => l
  | _ => []
  end.

(** [if not document_info: ...]: the root stands in when it has one of
    the direct keys. *)
Definition document_info_or_root (data document_info : pydict) : pydict :=
  match document_info with
  | [] =>
      if existsb (dict_mem data)
           ["date"; "clearing_document_number"; "utr_number"]%string
      then data else document_info
  | _ :: _ => document_info
  end.

(** [data] is the mapping the extraction returned, [file_info] the
    listing entry of the PDF.  The handler returns [rows] as it is when
    the exception arrives; the steps that can raise all come before
    the first [rows.append], so that is the empty list. *)
Definition parse_extracted_data (data : pydict) (file_info : drive_file)
  : M (list pydict) :=
  try_catch
    (let document_info := find_document_info data in
     let bill_details := find_bill_details data in
     let payment_mode_details := find_payment_mode_details data in
     let document_info := document_info_or_root data document_info in
     let total_payment := payment_loop payment_mode_details (PInt 0) in
     sums <- lift (bill_loop bill_details (PInt 0, PInt 0, PInt 0)) ;;
     let '(total_bill_amount, total_net_amount, total_tds) := sums : totals in
     doc_date <- lift (excel_date_to_string (dict_get document_info "date" (PStr ""))) ;;
     t <- now ;;
     let total_bills := Z.of_nat (length bill_details) in
     let document_row : pydict :=
       [("document_date", doc_date);
        ("clearing_document_number",
           dict_get document_info "clearing_document_number" (PStr ""));
        ("utr_number", utr_of document_info);
        ("total_payment_amount", total_payment);
        ("total_bill_amount", total_bill_amount);
        ("total_net_amount", total_net_amount);
        ("total_tds_amount", total_tds);
        ("payment_count", PInt total_bills);
        ("source_file_name", PStr (f_name file_info));
        ("processed_date", PStr (strftime_iso t));
        ("drive_file_id", PStr (f_id file_info))]%string in
     items <- bill_rows document_info doc_date total_payment file_info
                total_bills 1 bill_details ;;
     let rows := document_row :: items in
     log ("Created " ++ str_of_Z (Z.of_nat (length rows)) ++ " rows from "
          ++ str_of_Z total_bills ++ " bills in " ++ f_name file_info) "INFO" ;;
     ret rows)
    (fun e =>
       log ("Failed to parse extracted data: " ++ exn_str e) "ERROR" ;;
       ret []).

(** ** The sink and the orchestrator: [process_payment_advice_workflow] *)

(** The settings the workflow reads; credentials and the addresses of
    the spreadsheet are left out, one sheet is modelled.  [None] stands
    for a key that is absent from [config]. *)
Record pay_config : Type := PayConfig {
  pc_drive_folder_id : string;
  pc_days_back : option Z;
  pc_max_files : option Z
}.

Record pay_stats : Type := PayStats {
  total_pdfs : Z;
  processed_pdfs : Z;
  failed_pdfs : Z;
  skipped_pdfs : Z;
  rows_added : Z;
  bills_processed : Z;
  llama_errors : Z
}.

Definition count_failed (llama_error : bool) (st : pay_stats) : pay_stats :=
  PayStats (total_pdfs st) (processed_pdfs st) (failed_pdfs st + 1) (skipped_pdfs st)
           (rows_added st) (bills_processed st)
           (if llama_error then llama_errors st + 1 else llama_errors st).

Definition count_bills (n : Z) (st : pay_stats) : pay_stats :=
  PayStats (total_pdfs st) (processed_pdfs st) (failed_pdfs st) (skipped_pdfs st)
           (rows_added st) (bills_processed st + n) (llama_errors st).

Definition count_processed (rows : Z) (st : pay_stats) : pay_stats :=
  PayStats (total_pdfs st) (processed_pdfs st + 1) (failed_pdfs st) (skipped_pdfs st)
           (rows_added st + rows) (bills_processed st) (llama_errors st).

Definition default_headers : list string :=
  ["document_date"; "clearing_document_number"; "utr_number";
   "bill_reference_number"; "accounting_document_number"; "bill_document_date";
   "bill_amount"; "deduction_tds"; "net_amount"; "bill_sequence"; "total_bills";
   "total_payment_amount"; "total_bill_amount"; "total_net_amount";
   "total_tds_amount"; "payment_count"; "source_file_name"; "processed_date";
   "drive_file_id"]%string.

(** [x in l] on a list of strings. *)
Definition str_in (x : string) (l : list string) : bool := existsb (String.eqb x) l.

(** The three header steps of the workflow, from the header row it read. *)
Definition reconcile_headers (headers : list string) : M (list string) :=
  headers <- match headers with
             | [] =>
                 update_headers default_headers ;;
                 log "Created new headers for payment advice sheet" "INFO" ;;
                 ret default_headers
             | _ :: _ => ret headers
             end ;;
  headers <- (if negb (str_in "source_file_name" headers) then
                let headers := headers ++ ["source_file_name"%string] in
                update_headers headers ;;
                log "Added 'source_file_name' column to headers" "INFO" ;;
                ret headers
              else ret headers) ;;
  if str_in "source_file" headers && str_in "source_file_name" headers then
    let headers := filter (fun h => negb (String.eqb h "source_file") = true) headers in
    update_headers headers ;;
    log "Removed duplicate 'source_file' column" "INFO" ;;
    ret headers
  else ret headers.

(** [[row_dict.get(h, "") for h in headers]]. *)
Definition row_values (headers : list string) (row_dict : pydict) : list pyval :=
  map (fun h => dict_get row_dict h (PStr "")) headers.

(** The temporary file of a turn: whether writing it raises and whether
    removing it raises, by the number of the turn.  The file system
    belongs to the host, so both are parameters. *)
Variable tmp_write_raises tmp_remove_raises : Z -> bool.

(** [with tempfile.NamedTemporaryFile(...) as tmp_file: tmp_file.write(file_data)]. *)
Definition write_tmp (i : Z) : M unit :=
  lift (if tmp_write_raises i then Raise OSError else Ok tt).

(** [if os.path.exists(tmp_path): os.remove(tmp_path)]. *)
Definition remove_tmp (i : Z) : M unit :=
  lift (if tmp_remove_raises i then Raise OSError else Ok tt).

(** One turn of the loop over [files_to_process].  [stats] is updated in
    place, so a handler finds it as the turn left it.  The handler of
    the inner [try] is reached before the first update only.  The
    handler of the turn is written twice: for a raise before the inner
    [try], with the [stats] the turn found, and for a raise of the
    removal in [finally], with the [stats] the inner [try] left. *)
Definition process_one_pdf (headers : list string) (total : Z) (st : pay_stats)
    (i : Z) (pdf_file : drive_file) : M pay_stats :=
  let failed_turn (st : pay_stats) (e : exn) : M pay_stats :=
    log ("Failed to process " ++ f_name pdf_file ++ ": " ++ exn_str e) "ERROR" ;;
    ret (count_failed false st) in
  try_catch
    (status_callback (StatusPdf i total (f_name pdf_file)) ;;
     progress_callback (ProgressScaled 40 40 i total) ;;
     file_data <- download_from_drive (f_id pdf_file) (f_name pdf_file) ;;
     if negb (non_empty file_data) then
       log ("Failed to download " ++ f_name pdf_file) "ERROR" ;;
       ret (count_failed false st)
     else
       write_tmp i ;;
       st' <- try_catch
         (log ("Sending to LlamaParse: " ++ f_name pdf_file) "INFO" ;;
          extraction_result <- safe_extract "tmp.pdf" ;;
          rows_data <- parse_extracted_data extraction_result pdf_file ;;
          match rows_data with
          | [] =>
              log ("No data extracted from " ++ f_name pdf_file) "WARNING" ;;
              ret (count_failed true st)
          | _ :: _ =>
              let bill_rows :=
                filter (fun r => dict_mem r "bill_reference_number" = true) rows_data in
              let st := count_bills (Z.of_nat (length bill_rows)) st in
              let sheet_rows := map (row_values headers) rows_data in
              ok <- append_to_google_sheet sheet_rows ;;
              if ok : bool then
                log ("Processed " ++ f_name pdf_file ++ ": "
                     ++ str_of_Z (Z.of_nat (length sheet_rows)) ++ " rows added ("
                     ++ str_of_Z (Z.of_nat (length bill_rows)) ++ " bills)") "SUCCESS" ;;
                ret (count_processed (Z.of_nat (length sheet_rows)) st)
              else
                log ("Failed to append data for " ++ f_name pdf_file) "ERROR" ;;
                ret (count_failed false st)
          end)
         (fun e =>
            log ("LlamaParse extraction failed for " ++ f_name pdf_file ++ ": "
                 ++ exn_str e) "ERROR" ;;
            ret (count_failed true st)) ;;
       try_catch (remove_tmp i ;; ret st') (failed_turn st'))
    (failed_turn st).

(** [for i, pdf_file in enumerate(files_to_process, 1)]. *)
Fixpoint process_pdfs (headers : list string) (total : Z) (st : pay_stats) (i : Z)
    (files : list drive_file) : M pay_stats :=
  match files with
  | [] => ret st
  | pdf_file :: rest =>
      st' <- process_one_pdf headers total st i pdf_file ;;
      process_pdfs headers total st' (i + 1) rest
  end.

(** The outer handler returns [stats]; the one step of the outer [try]
    that can raise, the lookup of the agent, comes before any update. *)
Definition process_payment_advice_workflow (config : pay_config) : M pay_stats :=
  let stats := PayStats 0 0 0 0 0 0 0 in
  fun w0 =>
  if negb (l_available (llama w0)) then
    (log "LlamaParse not available. Install with: pip install llama-cloud-services"
         "ERROR" ;;
     ret stats) w0
  else
  try_catch
    (status_callback (StatusStep 1 5 "Initializing LlamaParse...") ;;
     progress_callback (ProgressAt 10) ;;
     agent <- (fun w => (l_agent (llama w), w)) ;;
     if negb agent then
       log "Could not find agent. Check dashboard." "ERROR" ;;
       ret stats
     else
       log "LlamaParse Agent found and ready" "INFO" ;;
       status_callback (StatusStep 2 5 "Setting up Google Drive folders...") ;;
       progress_callback (ProgressAt 20) ;;
       gmail_folder_id <- create_drive_folder "Gmail_Attachments"
                            (pc_drive_folder_id config) ;;
       pdfs_folder_id <- create_drive_folder "PDFs" gmail_folder_id ;;
       existing_names <- get_existing_source_files "source_file_name" ;;
       log ("Found " ++ str_of_Z (Z.of_nat (size existing_names))
            ++ " already processed files in sheet") "INFO" ;;
       status_callback (StatusStep 3 5 "Searching for PDF files...") ;;
       progress_callback (ProgressAt 30) ;;
       pdf_files <- list_drive_files pdfs_folder_id
                      (default 7%Z (pc_days_back config)) ;;
       let files_to_process :=
         filter (fun f => f_name f ∉ existing_names) pdf_files in
       let stats :=
         PayStats (Z.of_nat (length pdf_files)) 0 0
                  (Z.of_nat (length pdf_files) - Z.of_nat (length files_to_process))
                  0 0 0 in
       log ("After filtering: " ++ str_of_Z (Z.of_nat (length files_to_process))
            ++ " PDFs to process, " ++ str_of_Z (skipped_pdfs stats) ++ " skipped")
           "INFO" ;;
       files_to_process <-
         match pc_max_files config with
         | Some max_files =>
             if (max_files <? Z.of_nat (length files_to_process))%Z then
               let limited := py_slice_to max_files files_to_process in
               log ("Limited to " ++ str_of_Z (Z.of_nat (length limited))
                    ++ " files after max_files limit") "INFO" ;;
               ret limited
             else ret files_to_process
         | None => ret files_to_process
         end ;;
       match files_to_process with
       | [] =>
           log "No PDF files to process after filtering" "INFO" ;;
           ret stats
       | _ :: _ =>
           headers <- get_sheet_headers ;;
           headers <- reconcile_headers headers ;;
           let total := Z.of_nat (length files_to_process) in
           status_callback (StatusStep 4 5 "Processing PDF files...") ;;
           stats <- process_pdfs headers total stats 1 files_to_process ;;
           status_callback (StatusStep 5 5 "Finalizing processing...") ;;
           progress_callback (ProgressAt 90) ;;
           log "Payment Advice Processing Complete" "SUCCESS" ;;
           progress_callback (ProgressAt 100) ;;
           ret stats
       end)
    (fun e =>
       log ("Payment Advice workflow failed: " ++ exn_str e) "ERROR" ;;
       ret stats) w0.

(** ** Sample inputs

    The inputs the examples at the end of the file run the program on. *)

(** An instance of the parameter [float_of_str]: it reads unsigned
    decimal integers and nothing else. *)
Fixpoint digits_value (s : string) (acc : Z) : option Z :=
  match s with
  | EmptyString => Some acc
  | String c s' =>
      let n := nat_of_ascii c in
      if (48 <=? n)%nat && (n <=? 57)%nat
      then digits_value s' (10 * acc + Z.of_nat (n - 48))
      else None
  end.

Definition float_of_digits (s : string) : option float :=
  match s with
  | EmptyString => None
  | String _ _ =>
      match digits_value s 0 with
      | Some z => Some (SF2Prim (binary_normalize prec emax z 0 false))
      | None => None
      end
  end.

(** A clock that advances by one second between two readings, from
    midnight of 2024-04-24. *)
Definition ticking_clock (n : nat) : datetime := DateTime 739000 (Z.of_nat n).

Definition quiet_gmail : gmail_service :=
  Gmail (λ _ _ _ _, Ok []) (λ _, Ok []) (λ _, Ok None) (λ _ _, AttNoData).

(** A world with an empty store, an empty sheet and no faults. *)
Definition empty_world : world :=
  World [] ticking_clock 0 [] quiet_gmail (Drive [] 0 []) (Sheets [] [] [])
        (Llama true (Ok true) []) [] [].

Definition sample_pdf : drive_file :=
  DriveFile "f1" "m1_a.pdf" "application/pdf" ["p"]%string (DateTime 739000 0) false "%PDF".

(** A document with one line item, and one whose line item has an
    integer amount beyond the range of a float. *)
Definition one_bill : pydict :=
  [("bill_details", PList [PDict [("bill_amount", PInt 100)]])]%string.

Definition huge_bill : pydict :=
  [("bill_details", PList [PDict [("bill_amount", PInt (10 ^ 400))]])]%string.

Definition two_payments : pydict :=
  [("payment_mode_details",
    PList [PDict [("mode", PStr "NEFT")];
           PDict [("amount", PInt 100)];
           PDict [("amount", PInt 50)]])]%string.

(** The rows a run of the normalizer returned. *)
Definition rows_of (run : result (list pydict) * world) : list pydict :=
  match run.1 with
  | Ok rows => rows
  | Raise _ => []
  end.

(** A store with the two folders of the pipeline and two PDFs, a sheet
    that already lists the first of them, and an extraction agent that
    answers two calls with an empty mapping. *)
Definition pdf_store : list drive_file :=
  [DriveFile "g" "Gmail_Attachments" folder_mime ["root"] (DateTime 738990 0) false "";
   DriveFile "p" "PDFs" folder_mime ["g"] (DateTime 738990 0) false "";
   sample_pdf;
   DriveFile "f2" "m2_b.pdf" "application/pdf" ["p"] (DateTime 739000 60) false "%PDF"]%string.

Definition ledger_grid : list (list string) :=
  [["source_file_name"]; ["m1_a.pdf"]]%string.

Definition ingest_world (sheet_faults : list bool) : world :=
  World [] ticking_clock 0 [] quiet_gmail (Drive pdf_store 2 [])
        (Sheets ledger_grid sheet_faults [])
        (Llama true (Ok true) [Ok []; Ok []]) [] [].

Definition sample_pay_config : pay_config := PayConfig "root" None None.

(** A mailbox with three messages: the details of "m1" cannot be
    fetched, the attachment of "m2" cannot be fetched, and the upload
    for "m3" fails at the fifth call to the store. *)
Definition failing_gmail : gmail_service :=
  Gmail (λ _ _ _ _, Ok ["m1"; "m2"; "m3"]%string)
        (λ id, if String.eqb id "m1" then Raise ServiceError
               else Ok [("Subject", "Payment Advice")]%string)
        (λ _, Ok (Some (Multipart [Leaf "" None; Leaf "a.pdf" (Some "att"%string)])))
        (λ id _, if String.eqb id "m2" then AttRaises ServiceError
                 else AttData (Ok "%PDF"%string)).

Definition failing_world : world :=
  World [] ticking_clock 0 [] failing_gmail
        (Drive [] 0 [false; false; false; false; true]) (Sheets [] [] [])
        (Llama true (Ok true) []) [] [].

Definition sample_mail_config : mail_config :=
  MailConfig "erp@namdharis.in" "Payment Advice" 30 2 "root".

(** A world whose extraction agent fails once and then answers with an
    empty mapping; one whose store raises at the next call; one without
    the client library of the extraction service. *)
Definition flaky_world : world :=
  World [] ticking_clock 0 [] quiet_gmail (Drive [] 0 []) (Sheets [] [] [])
        (Llama true (Ok true) [Raise ServiceError; Ok []]) [] [].

Definition faulty_store_world : world :=
  World [] ticking_clock 0 [] quiet_gmail (Drive [] 0 [true]) (Sheets [] [] [])
        (Llama true (Ok true) []) [] [].

Definition no_llama_world : world :=
  World [] ticking_clock 0 [] quiet_gmail (Drive pdf_store 2 [])
        (Sheets ledger_grid [] []) (Llama false (Ok true) []) [] [].

(** Instances of the parameters of the store and of the file system: a
    store that reads a text with a quote in a name as a search that no
    file meets, one that refuses such a text, a file system that never
    fails and one on which no temporary file can be removed. *)
Definition no_match (files : list drive_file) (filename folder_id : string)
  : result (list drive_file) := Ok [].

Definition refuses (files : list drive_file) (filename folder_id : string)
  : result (list drive_file) := Raise ServiceError.

Definition disk_ok (i : Z) : bool := false.

Definition remove_fails (i : Z) : bool := true.

(** * Properties

    ** The log buffer *)
Lemma upper_char_idem c : upper_char (upper_char c) = upper_char c.
Proof. destruct c as [[] [] [] [] [] [] [] []]; vm_compute; reflexivity. Qed.

Lemma py_upper_idem s : py_upper (py_upper s) = py_upper s.
Proof.
  unfold py_upper. induction s as [|c s IH]; simpl; [done|].
  by rewrite upper_char_idem, IH.
Qed.

Lemma log_eq msg lvl w :
  log msg lvl w =
  (Ok tt,
   set_logs
     (let appended :=
        logs w ++ [LogEntry (strftime_iso (clock w (ticks w))) (py_upper lvl) msg] in
      if (200 <? length appended)%nat then last_n 200 appended else appended)
     (set_ticks (S (ticks w)) w)).
Proof. reflexivity. Qed.

Lemma last_n_all {A} n (l : list A) : (length l ≤ n)%nat → last_n n l = l.
Proof. intros H. unfold last_n. by replace (length l - n)%nat with 0%nat by lia. Qed.

Lemma last_n_length {A} n (l : list A) : (length (last_n n l) ≤ n)%nat.
Proof. unfold last_n. rewrite length_drop. lia. Qed.

Lemma last_n_suffix {A} n (l : list A) : last_n n l `suffix_of` l.
Proof. apply suffix_drop. Qed.

Lemma last_n_snoc {A} n (l : list A) x : (0 < n)%nat → last (last_n n (l ++ [x])) = Some x.
Proof.
  intros Hn. unfold last_n. rewrite length_app. simpl.
  rewrite drop_app_le by lia. apply last_snoc.
Qed.

(** A lower-case letter of the ASCII alphabet. *)
Definition lower_letter (c : ascii) : bool :=
  let n := nat_of_ascii c in (97 <=? n)%nat && (n <=? 122)%nat.

(** [s] holds a lower-case letter. *)
Fixpoint has_lower (s : string) : bool :=
  match s with
  | EmptyString => false
  | String c s' => lower_letter c || has_lower s'
  end.

(** Every character of [s] is an ASCII character. *)
Fixpoint ascii_only (s : string) : bool :=
  match s with
  | EmptyString => true
  | String c s' => (nat_of_ascii c <? 128)%nat && ascii_only s'
  end.

Lemma upper_char_not_lower c : lower_letter (upper_char c) = false.
Proof. destruct c as [[] [] [] [] [] [] [] []]; vm_compute; reflexivity. Qed.

Lemma lower_upper_char c : lower_char (upper_char c) = lower_char c.
Proof. destruct c as [[] [] [] [] [] [] [] []]; vm_compute; reflexivity. Qed.

Lemma py_upper_no_lower s : has_lower (py_upper s) = false.
Proof.
  induction s as [|c s IH]; [done|].
  cbn [py_upper map_string has_lower]. rewrite upper_char_not_lower.
  apply IH.
Qed.

Lemma py_lower_upper s : py_lower (py_upper s) = py_lower s.
Proof.
  induction s as [|c s IH]; [done|].
  cbn [py_upper py_lower map_string] in *. by rewrite lower_upper_char, IH.
Qed.

Lemma py_upper_length s : String.length (py_upper s) = String.length s.
Proof.
  induction s as [|c s IH]; [done|].
  cbn [py_upper map_string String.length] in *. by rewrite IH.
Qed.

(** C10: after every call to [log] the buffer holds at most 200
    entries; it is the last 200 entries of the old buffer followed by
    the new entry, so the oldest entries go first; the new entry carries
    the time stamp of the clock, the upper-cased level and the message.
    The level stored is the level given with its letters in upper case:
    it has no lower-case letter and, for a level of ASCII characters,
    it has as many characters as the level given and is the same word
    when case is ignored.  Entries whose level is upper-cased stay so. *)
Theorem log_buffer_bounded (msg lvl : string) (w : world) :
  let entry := LogEntry (strftime_iso (clock w (ticks w))) (py_upper lvl) msg in
  ∃ w', log msg lvl w = (Ok tt, w')
    ∧ (length (logs w') ≤ 200)%nat
    ∧ logs w' = last_n 200 (logs w ++ [entry])
    ∧ logs w' `suffix_of` (logs w ++ [entry])
    ∧ last (logs w') = Some entry
    ∧ (Forall (λ e, level e = py_upper (level e)) (logs w) →
       Forall (λ e, level e = py_upper (level e)) (logs w'))
    ∧ has_lower (level entry) = false
    ∧ (ascii_only lvl = true →
       String.length (level entry) = String.length lvl
       ∧ py_lower (level entry) = py_lower lvl)
    ∧ (Forall (λ e, has_lower (level e) = false) (logs w) →
       Forall (λ e, has_lower (level e) = false) (logs w')).
Proof.
  intros entry. eexists. split; [apply log_eq|]. simpl. fold entry.
  assert (Heq : (if (200 <? length (logs w ++ [entry]))%nat
                 then last_n 200 (logs w ++ [entry]) else logs w ++ [entry])
                = last_n 200 (logs w ++ [entry])).
  { destruct (200 <? length (logs w ++ [entry]))%nat eqn:E; [done|].
    apply Nat.ltb_ge in E. by rewrite last_n_all. }
  rewrite Heq.
  assert (Hkept : ∀ Q : log_entry → Prop, Q entry →
    Forall Q (logs w) → Forall Q (last_n 200 (logs w ++ [entry]))).
  { intros Q Hentry Hall. eapply Forall_forall. intros e He.
    assert (Hin : e ∈ logs w ++ [entry]).
    { destruct (last_n_suffix 200 (logs w ++ [entry])) as [k Hk].
      rewrite Hk. apply elem_of_app. by right. }
    apply elem_of_app in Hin as [Hin|Hin].
    + eapply Forall_forall in Hall; eauto.
    + apply list_elem_of_singleton in Hin. by subst e. }
  split; [apply last_n_length|]. split; [done|].
  split; [apply last_n_suffix|]. split; [apply last_n_snoc; lia|].
  split; [apply Hkept; simpl; by rewrite py_upper_idem|].
  split; [apply py_upper_no_lower|].
  split; [intros _; split; [apply py_upper_length|apply py_lower_upper]|].
  apply Hkept. apply py_upper_no_lower.
Qed.


(** ** DateCodec *)

Lemma excel_date_to_string_total (v : pyval) : ∃ r, excel_date_to_string v = Ok r.
Proof.
  unfold excel_date_to_string.
  destruct (excel_date_body v) as [[r|e] bound]; simpl; eauto.
Qed.

Lemma excel_date_to_string_separator (s : string) :
  contains_char "-" s || contains_char "/" s = true →
  excel_date_to_string (PStr s) = Ok (PStr s).
Proof.
  intros H. unfold excel_date_to_string, excel_date_body. by rewrite H.
Qed.

Lemma excel_date_to_string_non_numeric (s : string) :
  float_of_str s = None → excel_date_to_string (PStr s) = Ok (PStr s).
Proof.
  intros H. unfold excel_date_to_string, excel_date_body. simpl. rewrite H.
  by destruct (contains_char "-" s || contains_char "/" s).
Qed.

(** C3: serial day 2 is 1-Jan-1900, two days after the epoch
    1899-12-30; a string with a date separator comes back unchanged, and
    so does a string that is not a number; no input makes the function
    raise. *)
Theorem excel_date_to_string_spec :
  excel_date_to_string (PInt 2) = Ok (PStr "1-Jan-1900")
  ∧ Calendar.ord2ymd (Calendar.ymd2ord 1899 12 30 + 2) = (1900, 1, 1)%Z
  ∧ excel_date_to_string (PStr "1-Dec-2025") = Ok (PStr "1-Dec-2025")
  ∧ excel_date_to_string (PStr "not-a-date") = Ok (PStr "not-a-date")
  ∧ (∀ s, contains_char "-" s || contains_char "/" s = true →
          excel_date_to_string (PStr s) = Ok (PStr s))
  ∧ (∀ s, float_of_str s = None → excel_date_to_string (PStr s) = Ok (PStr s))
  ∧ (∀ v, ∃ r, excel_date_to_string v = Ok r).
Proof.
  split_and!.
  - vm_compute. reflexivity.
  - vm_compute. reflexivity.
  - by apply excel_date_to_string_separator.
  - by apply excel_date_to_string_separator.
  - apply excel_date_to_string_separator.
  - apply excel_date_to_string_non_numeric.
  - apply excel_date_to_string_total.
Qed.

(** ** Reasoning in [M] *)

(** [m] never raises. *)
Definition total {A} (m : M A) : Prop := ∀ w, ∃ a w', m w = (Ok a, w').

Lemma total_ret {A} (a : A) : total (ret a).
Proof. intros w. by eexists _, _. Qed.

Lemma total_bind {A B} (m : M A) (k : A → M B) :
  total m → (∀ a, total (k a)) → total (bind m k).
Proof.
  intros Hm Hk w. destruct (Hm w) as (a & w' & E).
  destruct (Hk a w') as (b & w'' & E'). exists b, w''.
  unfold bind. by rewrite E.
Qed.

Lemma total_try_catch {A} (body : M A) (handler : exn → M A) :
  (∀ e, total (handler e)) → total (try_catch body handler).
Proof.
  intros Hh w. unfold try_catch.
  destruct (body w) as [[a|e] w'] eqn:E; [by eexists _, _|apply Hh].
Qed.

Lemma total_log msg lvl : total (log msg lvl).
Proof. intros w. eexists _, _. apply log_eq. Qed.

Lemma total_sleep n : total (sleep n).
Proof. intros w. by eexists _, _. Qed.

Lemma total_now : total now.
Proof. intros w. by eexists _, _. Qed.

Lemma total_status_callback msg : total (status_callback msg).
Proof. intros w. by eexists _, _. Qed.

Lemma total_progress_callback v : total (progress_callback v).
Proof. intros w. by eexists _, _. Qed.

Create HintDb total discriminated.
#[local] Hint Resolve total_ret total_log total_sleep total_now
  total_status_callback total_progress_callback : total.
#[local] Hint Extern 2 (total (bind _ _)) =>
  apply total_bind; [|intros ?] : total.
#[local] Hint Extern 2 (total (try_catch _ _)) =>
  apply total_try_catch; intros ? : total.
#[local] Hint Extern 3 (total (match ?x with _ => _ end)) => destruct x : total.

(** [m] leaves the component [f] of the world as it is. *)
Definition keeps {X A} (f : world → X) (m : M A) : Prop :=
  ∀ w, f (m w).2 = f w.

Lemma keeps_ret {X A} (f : world → X) (a : A) : keeps f (ret a).
Proof. by intros w. Qed.

Lemma keeps_raise {X A} (f : world → X) e : keeps f (raise (A:=A) e).
Proof. by intros w. Qed.

Lemma keeps_lift {X A} (f : world → X) (r : result A) : keeps f (lift r).
Proof. by intros w. Qed.

Lemma keeps_read {X A} (f : world → X) (g : world → result A) :
  keeps f (λ w, (g w, w)).
Proof. by intros w. Qed.

Lemma keeps_bind {X A B} (f : world → X) (m : M A) (k : A → M B) :
  keeps f m → (∀ a, keeps f (k a)) → keeps f (bind m k).
Proof.
  intros Hm Hk w. unfold bind. specialize (Hm w).
  destruct (m w) as [[a|e] w']; simpl in *; [|done].
  by rewrite Hk.
Qed.

Lemma keeps_try_catch {X A} (f : world → X) (body : M A) (handler : exn → M A) :
  keeps f body → (∀ e, keeps f (handler e)) → keeps f (try_catch body handler).
Proof.
  intros Hb Hh w. unfold try_catch. specialize (Hb w).
  destruct (body w) as [[a|e] w']; simpl in *; [done|].
  by rewrite Hh.
Qed.

Ltac keeps_step :=
  match goal with
  | |- keeps _ (bind _ _) => apply keeps_bind; [|intros ?]
  | |- keeps _ (try_catch _ _) => apply keeps_try_catch; [|intros ?]
  | |- keeps _ (ret _) => apply keeps_ret
  | |- keeps _ (raise _) => apply keeps_raise
  | |- keeps _ (lift _) => apply keeps_lift
  | |- keeps _ (λ w, (_, w)) => apply keeps_read
  | |- keeps _ (match ?x with _ => _ end) => destruct x
  | |- keeps _ (let _ := _ in _) => cbv zeta
  end.

Create HintDb keeps discriminated.
Ltac keeps_auto := repeat keeps_step; eauto with keeps.

Lemma keeps_write_tmp {X} (f : world → X) i : keeps f (write_tmp i).
Proof. by intros w. Qed.

Lemma keeps_remove_tmp {X} (f : world → X) i : keeps f (remove_tmp i).
Proof. by intros w. Qed.
#[local] Hint Resolve keeps_write_tmp keeps_remove_tmp : keeps.

(** [Q] holds of the outcome of [m] run in [w]. *)
Definition post {A} (m : M A) (w : world) (Q : result A → world → Prop) : Prop :=
  Q (m w).1 (m w).2.

Lemma post_ret {A} (a : A) w (Q : result A → world → Prop) :
  Q (Ok a) w → post (ret a) w Q.
Proof. done. Qed.

Lemma post_bind {A B} (m : M A) (k : A → M B) w (Q : result B → world → Prop) :
  post m w (λ r w', match r with
                    | Ok a => post (k a) w' Q
                    | Raise e => Q (Raise e) w'
                    end) →
  post (bind m k) w Q.
Proof. unfold post, bind. by destruct (m w) as [[a|e] w']. Qed.

Lemma post_bind_total {A B} (m : M A) (k : A → M B) w (Q : result B → world → Prop) :
  total m → (∀ a w', post (k a) w' Q) → post (bind m k) w Q.
Proof.
  intros Hm Hk. destruct (Hm w) as (a & w' & E).
  unfold post, bind. rewrite E. apply Hk.
Qed.

Lemma post_try_catch {A} (body : M A) (handler : exn → M A) w
    (Q : result A → world → Prop) :
  post body w (λ r w', match r with
                       | Ok a => Q (Ok a) w'
                       | Raise e => post (handler e) w' Q
                       end) →
  post (try_catch body handler) w Q.
Proof. unfold post, try_catch. by destruct (body w) as [[a|e] w']. Qed.

Lemma post_mono {A} (m : M A) w (Q Q' : result A → world → Prop) :
  post m w Q → (∀ r w', Q r w' → Q' r w') → post m w Q'.
Proof. unfold post. auto. Qed.

Lemma post_eq {A} (m : M A) w (Q : result A → world → Prop) r w' :
  m w = (r, w') → Q r w' → post m w Q.
Proof. unfold post. by intros ->. Qed.

Lemma post_elim {A} (m : M A) w (r : result A) w' :
  post m w (λ r0 w0, r0 = r ∧ w0 = w') → m w = (r, w').
Proof. unfold post. destruct (m w) as [r0 w0]. simpl. by intros [-> ->]. Qed.

(** ** Header reconciliation *)

(** The header the three steps compute, without their effects. *)
Definition reconciled (headers : list string) : list string :=
  let h1 := match headers with [] => default_headers | _ :: _ => headers end in
  let h2 := if negb (str_in "source_file_name" h1)
            then h1 ++ ["source_file_name"%string] else h1 in
  if str_in "source_file" h2 && str_in "source_file_name" h2
  then filter (λ h, negb (String.eqb h "source_file") = true) h2 else h2.

Lemma total_update_headers h : total (update_headers h).
Proof. unfold update_headers. eauto with total. Qed.
#[local] Hint Resolve total_update_headers : total.

Lemma reconcile_headers_tail h2 w :
  post (if str_in "source_file" h2 && str_in "source_file_name" h2
        then let headers := filter (λ h, negb (String.eqb h "source_file") = true) h2 in
             update_headers headers ;;
             log "Removed duplicate 'source_file' column" "INFO" ;; ret headers
        else ret h2) w
       (λ r _, r = Ok (if str_in "source_file" h2 && str_in "source_file_name" h2
                       then filter (λ h, negb (String.eqb h "source_file") = true) h2
                       else h2)).
Proof.
  destruct (str_in "source_file" h2 && str_in "source_file_name" h2); [|done].
  cbv zeta. apply post_bind_total; [auto with total|]. intros _ w1.
  apply post_bind_total; [auto with total|]. by intros _ w2.
Qed.

Lemma reconcile_headers_middle h1 w :
  post (headers <- (if negb (str_in "source_file_name" h1)
                    then let headers := h1 ++ ["source_file_name"%string] in
                         update_headers headers ;;
                         log "Added 'source_file_name' column to headers" "INFO" ;;
                         ret headers
                    else ret h1) ;;
        if str_in "source_file" headers && str_in "source_file_name" headers
        then let headers :=
               filter (λ h, negb (String.eqb h "source_file") = true) headers in
             update_headers headers ;;
             log "Removed duplicate 'source_file' column" "INFO" ;; ret headers
        else ret headers) w
       (λ r _, r = Ok (let h2 := if negb (str_in "source_file_name" h1)
                                 then h1 ++ ["source_file_name"%string] else h1 in
                       if str_in "source_file" h2 && str_in "source_file_name" h2
                       then filter (λ h, negb (String.eqb h "source_file") = true) h2
                       else h2)).
Proof.
  apply post_bind.
  destruct (negb (str_in "source_file_name" h1)).
  - cbv zeta. apply post_bind_total; [auto with total|]. intros _ w1.
    apply post_bind_total; [auto with total|]. intros _ w2.
    apply post_ret, reconcile_headers_tail.
  - apply post_ret, reconcile_headers_tail.
Qed.

Lemma reconcile_headers_value headers w :
  ∃ w', reconcile_headers headers w = (Ok (reconciled headers), w').
Proof.
  assert (H : post (reconcile_headers headers) w (λ r _, r = Ok (reconciled headers))).
  { unfold reconcile_headers, reconciled. apply post_bind.
    destruct headers as [|h hs].
    - apply post_bind_total; [auto with total|]. intros _ w1.
      apply post_bind_total; [auto with total|]. intros _ w2.
      apply post_ret, reconcile_headers_middle.
    - apply post_ret, reconcile_headers_middle. }
  unfold post in H. destruct (reconcile_headers headers w) as [r w'].
  simpl in H. subst r. by eexists.
Qed.

Lemma str_in_spec x l : str_in x l = true ↔ x ∈ l.
Proof.
  unfold str_in. rewrite existsb_exists. split.
  - intros (y & Hin & Heq). apply String.eqb_eq in Heq. subst y.
    by apply list_elem_of_In.
  - intros Hin. exists x. split; [by apply list_elem_of_In|apply String.eqb_refl].
Qed.

Lemma str_in_false x l : str_in x l = false ↔ x ∉ l.
Proof.
  rewrite <- str_in_spec. by destruct (str_in x l).
Qed.

Lemma reconciled_has_key headers : str_in "source_file_name" (reconciled headers) = true.
Proof.
  unfold reconciled.
  set (h1 := match headers with [] => default_headers | _ :: _ => headers end).
  set (h2 := if negb (str_in "source_file_name" h1)
             then h1 ++ ["source_file_name"%string] else h1).
  assert (H2 : str_in "source_file_name" h2 = true).
  { subst h2. destruct (str_in "source_file_name" h1) eqn:E; simpl; [done|].
    apply str_in_spec, elem_of_app. right. by apply list_elem_of_singleton. }
  destruct (str_in "source_file" h2 && str_in "source_file_name" h2); [|done].
  apply str_in_spec, list_elem_of_filter. split; [done|by apply str_in_spec].
Qed.

Lemma reconciled_no_old headers : str_in "source_file" (reconciled headers) = false.
Proof.
  unfold reconciled.
  set (h1 := match headers with [] => default_headers | _ :: _ => headers end).
  set (h2 := if negb (str_in "source_file_name" h1)
             then h1 ++ ["source_file_name"%string] else h1).
  assert (H2 : str_in "source_file_name" h2 = true).
  { subst h2. destruct (str_in "source_file_name" h1) eqn:E; simpl; [done|].
    apply str_in_spec, elem_of_app. right. by apply list_elem_of_singleton. }
  rewrite H2, andb_true_r.
  destruct (str_in "source_file" h2) eqn:E; [|done].
  apply str_in_false. intros Hin. apply list_elem_of_filter in Hin as [Hne _].
  by rewrite String.eqb_refl in Hne.
Qed.

Lemma reconcile_headers_stable headers w :
  str_in "source_file_name" headers = true →
  str_in "source_file" headers = false →
  reconcile_headers headers w = (Ok headers, w).
Proof.
  intros Hkey Hold. unfold reconcile_headers.
  apply post_elim. unfold reconcile_headers.
  destruct headers as [|h hs]; [done|].
  apply post_bind, post_ret. cbv beta iota.
  apply post_bind. rewrite Hkey. apply post_ret. cbv beta iota.
  rewrite Hold. by apply post_ret.
Qed.

(** On the list in memory: the three header steps never raise, and
    applied to the list they returned they return it unchanged and do
    nothing at all, no write and no log entry.  The program never does
    that: each run reads the header row from the sheet again, see
    [header_steps] below. *)
Lemma reconcile_headers_fixed (headers : list string) (w : world) :
  ∃ h1 w1, reconcile_headers headers w = (Ok h1, w1)
    ∧ ∀ w', reconcile_headers h1 w' = (Ok h1, w').
Proof.
  destruct (reconcile_headers_value headers w) as (w1 & E).
  exists (reconciled headers), w1. split; [done|].
  intros w'. apply reconcile_headers_stable.
  - apply reconciled_has_key.
  - apply reconciled_no_old.
Qed.

(** ** The header row from one run to the next *)

(** The header steps of a run: the read of the header row and the three
    steps on what was read. *)
Definition header_steps : M (list string) :=
  headers <- get_sheet_headers ;;
  reconcile_headers headers.

(** The text of a cell a string was written to. *)
Definition cell_text (v : pyval) : string :=
  match v with
  | PStr s => s
  | _ => ""%string
  end.

(** The first row of the sheet after an update of the range
    [A1:<last_column>1]: the service writes the cells it is given
    values for and leaves every other cell of the sheet as it is; values
    that do not fit the range are refused. *)
Definition update_row (row : list string) (last_column : ascii)
    (values : list (list pyval)) : list string :=
  match values with
  | [cells] =>
      if (length cells <=? nat_of_ascii last_column - 64)%nat
      then map cell_text cells ++ drop (length cells) row
      else row
  | _ => row
  end.

Definition header_row_after (row : list string) (calls : list (sheets_write * bool))
  : list string :=
  foldl (λ row c, match c with
                  | (UpdateCall last_column values, true) =>
                      update_row row last_column values
                  | _ => row
                  end) row calls.

(** The write calls the spreadsheet received between [w] and [w']. *)
Definition calls_since (w w' : world) : list (sheets_write * bool) :=
  drop (length (s_calls (sheets w))) (s_calls (sheets w')).

(** The sheet after the header steps ran from [w] to [w']: the grid of
    [w] with its first row as the updates left it. *)
Definition grid_after (w w' : world) : list (list string) :=
  match s_values (sheets w) with
  | [] =>
      match header_row_after [] (calls_since w w') with
      | [] => []
      | row => [row]
      end
  | row :: rows => header_row_after row (calls_since w w') :: rows
  end.

(** The world the next run starts in. *)
Definition next_run (w w' : world) : world :=
  set_sheets (Sheets (grid_after w w') (s_faults (sheets w')) (s_calls (sheets w'))) w'.

(** A sheet that holds the header row [row] and nothing else. *)
Definition header_world (row : list string) : world :=
  World [] ticking_clock 0 [] quiet_gmail (Drive [] 0 []) (Sheets [row] [] [])
        (Llama true (Ok true) []) [] [].

Lemma update_row_length row last_column values :
  (length row ≤ length (update_row row last_column values))%nat.
Proof.
  unfold update_row. destruct values as [|cells [|]]; [done| |done].
  destruct (length cells <=? _)%nat; [|done].
  rewrite length_app, length_map, length_drop. lia.
Qed.

(** No update takes a column off the sheet: the header row of the sheet
    has as many cells after a run as before, or more. *)
Lemma header_row_after_length calls : ∀ row,
  (length row ≤ length (header_row_after row calls))%nat.
Proof.
  induction calls as [|[c ok] calls IH]; intros row; [done|].
  cbn [header_row_after foldl]. etrans; [|apply IH].
  destruct c; [|done]. destruct ok; [|done]. apply update_row_length.
Qed.

(** C5: the header steps are not idempotent across runs.  On a sheet
    whose header row is source_file_name, source_file the run returns
    the one-column header, writes the range A1:A1 and leaves the sheet
    as it was, so the next run makes the same write again: the removal
    of the old column is not a no-op once applied.  On a sheet whose
    header row is source_file the first run ends with the one-column
    header source_file_name and leaves two columns on the sheet; the
    second run ends with two columns, both source_file_name, and writes
    nothing. *)
Theorem header_steps_not_idempotent :
  (let w := header_world ["source_file_name"; "source_file"]%string in
   let w1 := (header_steps w).2 in
   let w2 := (header_steps (next_run w w1)).2 in
   (header_steps w).1 = Ok ["source_file_name"%string]
   ∧ calls_since w w1 = [(UpdateCall "A" [[PStr "source_file_name"]], true)]
   ∧ grid_after w w1 = [["source_file_name"; "source_file"]%string]
   ∧ (header_steps (next_run w w1)).1 = Ok ["source_file_name"%string]
   ∧ calls_since w1 w2 = [(UpdateCall "A" [[PStr "source_file_name"]], true)]
   ∧ grid_after (next_run w w1) w2 = [["source_file_name"; "source_file"]%string])
  ∧ (let w := header_world ["source_file"%string] in
     let w1 := (header_steps w).2 in
     let w2 := (header_steps (next_run w w1)).2 in
     (header_steps w).1 = Ok ["source_file_name"%string]
     ∧ calls_since w w1
       = [(UpdateCall "B" [[PStr "source_file"; PStr "source_file_name"]], true);
          (UpdateCall "A" [[PStr "source_file_name"]], true)]
     ∧ grid_after w w1 = [["source_file_name"; "source_file_name"]%string]
     ∧ (header_steps (next_run w w1)).1
       = Ok ["source_file_name"; "source_file_name"]%string
     ∧ calls_since w1 w2 = []
     ∧ (header_steps (next_run w w1)).1 ≠ (header_steps w).1).
Proof.
  split; cbv zeta.
  - repeat split; vm_compute; reflexivity.
  - do 5 (split; [vm_compute; reflexivity|]).
    vm_compute. discriminate.
Qed.

(** ** Appending with retries *)

(** The outcomes of the attempts an append makes when the coming calls
    fail as [faults] says: failures up to the first success, [n] at most. *)
Fixpoint attempt_outcomes (n : nat) (faults : list bool) : list bool :=
  match n with
  | O => []
  | S n' =>
      match faults with
      | true :: rest => false :: attempt_outcomes n' rest
      | _ => [true]
      end
  end.

Lemma attempt_outcomes_shape n faults :
  (0 < n)%nat →
  ∃ b, attempt_outcomes n faults
       = repeat false (length (attempt_outcomes n faults) - 1) ++ [b]
     ∧ (1 ≤ length (attempt_outcomes n faults) ≤ n)%nat
     ∧ (b = false → length (attempt_outcomes n faults) = n).
Proof.
  revert faults. induction n as [|n IH]; intros faults Hn; [lia|].
  destruct faults as [|[] rest].
  - exists true. simpl. split_and!; (done || lia).
  - destruct n as [|n].
    + exists false. simpl. split_and!; (done || lia).
    + destruct (IH rest) as (b & Hshape & Hlen & Hfail); [lia|].
      change (attempt_outcomes (S (S n)) (true :: rest))
        with (false :: attempt_outcomes (S n) rest).
      set (X := attempt_outcomes (S n) rest) in *.
      exists b. rewrite length_cons.
      replace (S (length X) - 1)%nat with (S (length X - 1)) by lia.
      split; [|split; [lia|]].
      * simpl. by rewrite <- Hshape.
      * intros Hb. by rewrite Hfail.
  - exists true. simpl. split_and!; (done || lia).
Qed.

Lemma row_values_aligned headers row_dict :
  length (row_values headers row_dict) = length headers
  ∧ ∀ i h, headers !! i = Some h →
           row_values headers row_dict !! i = Some (dict_get row_dict h (PStr "")).
Proof.
  unfold row_values. split; [apply length_map|].
  intros i h Hi. by rewrite list_lookup_fmap, Hi.
Qed.

Lemma py_range_cons (a b : Z) :
  (a < b)%Z → py_range a b = a :: py_range (a + 1) b.
Proof.
  intros H. unfold py_range.
  replace (Z.to_nat (b - a)) with (S (Z.to_nat (b - (a + 1)))) by lia.
  simpl. f_equal; [lia|].
  rewrite <- seq_shift, map_map. apply map_ext. intros k. lia.
Qed.

Lemma sheets_write_call_fail c w rest :
  s_faults (sheets w) = true :: rest →
  ∃ w', sheets_write_call c w = (Raise ServiceError, w')
    ∧ s_faults (sheets w') = rest
    ∧ s_calls (sheets w') = s_calls (sheets w) ++ [(c, false)]
    ∧ slept w' = slept w.
Proof. intros E. unfold sheets_write_call. rewrite E. by eexists. Qed.

Lemma sheets_write_call_pass c w :
  head (s_faults (sheets w)) ≠ Some true →
  ∃ w', sheets_write_call c w = (Ok tt, w')
    ∧ s_calls (sheets w') = s_calls (sheets w) ++ [(c, true)]
    ∧ slept w' = slept w.
Proof.
  intros E. unfold sheets_write_call.
  destruct (s_faults (sheets w)) as [|[] rest]; [by eexists|done|by eexists].
Qed.

Lemma append_attempts_run values (n : nat) : ∀ w,
  (1 ≤ n ≤ 3)%nat →
  ∃ b w',
    append_attempts 3 2 values (py_range (4 - Z.of_nat n) 4) w = (Ok b, w')
    ∧ s_calls (sheets w') =
        s_calls (sheets w)
        ++ map (λ ok, (AppendCall values, ok)) (attempt_outcomes n (s_faults (sheets w)))
    ∧ last (attempt_outcomes n (s_faults (sheets w))) = Some b
    ∧ slept w' = slept w
        ++ repeat 2%Z (length (attempt_outcomes n (s_faults (sheets w))) - 1).
Proof.
  induction n as [|n IH]; intros w Hn; [lia|].
  rewrite py_range_cons by lia.
  replace (4 - Z.of_nat (S n) + 1)%Z with (4 - Z.of_nat n)%Z by lia.
  cbn [append_attempts]. unfold try_catch. unfold bind at 1.
  destruct (s_faults (sheets w)) as [|[] rest] eqn:Hfaults.
  - destruct (sheets_write_call_pass (AppendCall values) w) as (w1 & -> & Hc & Hs);
      [by rewrite Hfaults|].
    unfold bind. rewrite log_eq. eexists _, _. split; [reflexivity|].
    cbn. rewrite Hc, Hs, app_nil_r. done.
  - destruct (sheets_write_call_fail (AppendCall values) w rest Hfaults)
      as (w1 & -> & Hf & Hc & Hs).
    destruct n as [|n].
    + replace (4 - Z.of_nat 1 <? 3)%Z with false by (symmetry; apply Z.ltb_ge; lia).
      unfold bind. rewrite log_eq. eexists _, _. split; [reflexivity|].
      cbn. rewrite Hc, Hs, app_nil_r. done.
    + replace (4 - Z.of_nat (S (S n)) <? 3)%Z with true by (symmetry; apply Z.ltb_lt; lia).
      unfold bind at 1. rewrite log_eq. unfold bind at 1. unfold sleep at 1.
      set (w2 := set_slept _ _).
      destruct (IH w2) as (b & w3 & E & Hc3 & Hl3 & Hs3); [lia|].
      rewrite E. exists b, w3. split; [done|].
      change (s_faults (sheets w2)) with (s_faults (sheets w1)) in *.
      change (s_calls (sheets w2)) with (s_calls (sheets w1)) in *.
      change (slept w2) with (slept w1 ++ [2%Z]) in *.
      rewrite Hf in *. rewrite Hc3, Hc, Hs3, Hs.
      change (attempt_outcomes (S (S n)) (true :: rest))
        with (false :: attempt_outcomes (S n) rest).
      set (X := attempt_outcomes (S n) rest) in *.
      assert (HX : (1 ≤ length X)%nat).
      { destruct X; [done|simpl; lia]. }
      rewrite <- !app_assoc. split_and!.
      * done.
      * destruct X; [simpl in HX; lia|done].
      * rewrite length_cons.
        replace (S (length X) - 1)%nat with (S (length X - 1)) by lia. done.
  - destruct (sheets_write_call_pass (AppendCall values) w) as (w1 & -> & Hc & Hs);
      [by rewrite Hfaults|].
    unfold bind. rewrite log_eq. eexists _, _. split; [reflexivity|].
    cbn. rewrite Hc, Hs, app_nil_r. done.
Qed.

Lemma append_to_google_sheet_run values w :
  ∃ b w', append_to_google_sheet values w = (Ok b, w')
    ∧ s_calls (sheets w') =
        s_calls (sheets w)
        ++ map (λ ok, (AppendCall values, ok))
               (attempt_outcomes 3 (s_faults (sheets w)))
    ∧ last (attempt_outcomes 3 (s_faults (sheets w))) = Some b
    ∧ slept w' = slept w
        ++ repeat 2%Z (length (attempt_outcomes 3 (s_faults (sheets w))) - 1).
Proof. apply (append_attempts_run values 3 w). lia. Qed.

(** C7: the append is tried at most three times, with a sleep of two
    seconds after each failed attempt that is followed by another; the
    result is [True] exactly when the last attempt made succeeded, and
    [False] only after three failures; the function never raises.  The
    values of a row are the fields of the row under the headers, in the
    order of the headers, the empty string standing for a missing one. *)
Theorem append_to_google_sheet_retries (values : list (list pyval)) (w : world) :
  let outcomes := attempt_outcomes 3 (s_faults (sheets w)) in
  ∃ b w', append_to_google_sheet values w = (Ok b, w')
    ∧ s_calls (sheets w') =
        s_calls (sheets w) ++ map (λ ok, (AppendCall values, ok)) outcomes
    ∧ (1 ≤ length outcomes ≤ 3)%nat
    ∧ outcomes = repeat false (length outcomes - 1) ++ [b]
    ∧ (b = false → length outcomes = 3%nat)
    ∧ slept w' = slept w ++ repeat 2%Z (length outcomes - 1)
    ∧ ∀ headers row_dict,
        length (row_values headers row_dict) = length headers
        ∧ ∀ i h, headers !! i = Some h →
                 row_values headers row_dict !! i
                 = Some (dict_get row_dict h (PStr "")).
Proof.
  intros outcomes.
  destruct (append_to_google_sheet_run values w) as (b & w' & E & Hcalls & Hlast & Hslept).
  destruct (attempt_outcomes_shape 3 (s_faults (sheets w))) as (b' & Hshape & Hlen & Hfail);
    [lia|].
  fold outcomes in Hcalls, Hlast, Hslept, Hshape, Hlen, Hfail.
  assert (b' = b) as ->.
  { rewrite Hshape, last_snoc in Hlast. congruence. }
  destruct Hlen as [Hlo Hhi].
  exists b, w'. split_and!; try done.
  apply row_values_aligned.
Qed.

(** ** Uploading *)

(** The files of the store that carry [filename] in [folder_id]: what
    the existence check of [upload_to_drive] asks for. *)
Definition stored (filename folder_id : string) (w : world) : list drive_file :=
  filter (λ f, matches (QAnd (QName filename)
                          (QAnd (QInParents folder_id) QNotTrashed)) f = true)
         (d_files (drive w)).

(** No coming call to the store raises. *)
Definition drive_reliable (w : world) : Prop :=
  Forall (λ fault, fault = false) (d_faults (drive w)).

Lemma drive_call_reliable w :
  drive_reliable w →
  ∃ w', drive_call w = (Ok tt, w')
    ∧ drive_reliable w'
    ∧ d_files (drive w') = d_files (drive w)
    ∧ d_next (drive w') = d_next (drive w)
    ∧ clock w' = clock w ∧ ticks w' = ticks w.
Proof.
  unfold drive_reliable, drive_call. intros H.
  destruct (d_faults (drive w)) as [|fault rest] eqn:E.
  - exists w. by rewrite E.
  - apply Forall_cons in H as [-> H]. eexists. split; [done|]. by simpl.
Qed.

Lemma log_drive msg lvl w : drive (log msg lvl w).2 = drive w.
Proof. done. Qed.

Lemma upload_to_drive_existing data filename folder_id w :
  plain filename && plain folder_id = true →
  drive_reliable w → stored filename folder_id w ≠ [] →
  ∃ w', upload_to_drive data filename folder_id w = (Ok true, w')
    ∧ drive_reliable w'
    ∧ d_files (drive w') = d_files (drive w).
Proof.
  intros Hplain Hrel Hex.
  destruct (drive_call_reliable w Hrel) as (w1 & E1 & Hrel1 & Hf1 & _).
  unfold upload_to_drive, files_named. rewrite Hplain.
  unfold try_catch, files_list, bind. rewrite E1.
  unfold stored in Hex. rewrite <- Hf1 in Hex.
  destruct (filter _ (d_files (drive w1))) as [|f fs]; [done|].
  rewrite log_eq. eexists. split; [done|]. simpl. split; [done|]. done.
Qed.

Lemma upload_to_drive_fresh data filename folder_id w :
  plain filename && plain folder_id = true →
  drive_reliable w → stored filename folder_id w = [] →
  ∃ w' f, upload_to_drive data filename folder_id w = (Ok true, w')
    ∧ drive_reliable w'
    ∧ d_files (drive w') = d_files (drive w) ++ [f]
    ∧ f_name f = filename
    ∧ f_parents f = (if non_empty folder_id then [folder_id] else [])
    ∧ f_trashed f = false.
Proof.
  intros Hplain Hrel Hex.
  destruct (drive_call_reliable w Hrel) as (w1 & E1 & Hrel1 & Hf1 & _).
  destruct (drive_call_reliable w1 Hrel1) as (w2 & E2 & Hrel2 & Hf2 & _).
  unfold upload_to_drive, files_named. rewrite Hplain.
  unfold try_catch, files_list, files_create, bind. rewrite E1.
  unfold stored in Hex. rewrite <- Hf1 in Hex. rewrite Hex. rewrite E2.
  rewrite log_eq. eexists _, _. split; [done|]. simpl.
  split; [done|]. rewrite Hf2, Hf1. done.
Qed.

(** An upload whose existence check is the reading of a text with a
    quote or a backslash in a name, when that reading finds no file. *)
Lemma upload_to_drive_unmatched data filename folder_id w :
  plain filename && plain folder_id = false →
  (∀ files, quoted_query files filename folder_id = Ok []) →
  drive_reliable w →
  ∃ w' f, upload_to_drive data filename folder_id w = (Ok true, w')
    ∧ drive_reliable w'
    ∧ d_files (drive w') = d_files (drive w) ++ [f]
    ∧ f_name f = filename.
Proof.
  intros Hplain Hnone Hrel.
  destruct (drive_call_reliable w Hrel) as (w1 & E1 & Hrel1 & Hf1 & _).
  destruct (drive_call_reliable w1 Hrel1) as (w2 & E2 & Hrel2 & Hf2 & _).
  unfold upload_to_drive, files_named. rewrite Hplain.
  unfold try_catch, files_create, bind. rewrite E1, Hnone, E2.
  rewrite log_eq. eexists _, _. split; [done|]. simpl.
  split; [done|]. rewrite Hf2, Hf1. done.
Qed.

(** The same, when the store refuses the text. *)
Lemma upload_to_drive_refused data filename folder_id w :
  plain filename && plain folder_id = false →
  (∀ files, raises (quoted_query files filename folder_id) = true) →
  drive_reliable w →
  ∃ w', upload_to_drive data filename folder_id w = (Ok false, w')
    ∧ drive_reliable w'
    ∧ d_files (drive w') = d_files (drive w).
Proof.
  intros Hplain Hraise Hrel.
  destruct (drive_call_reliable w Hrel) as (w1 & E1 & Hrel1 & Hf1 & _).
  unfold upload_to_drive, files_named. rewrite Hplain.
  unfold try_catch, bind. rewrite E1. specialize (Hraise (d_files (drive w1))).
  destruct (quoted_query _ filename folder_id) as [files|e]; [done|].
  rewrite log_eq. eexists. split; [done|]. simpl. split; [done|]. done.
Qed.

(** C6: when no call to the store raises, two uploads of one file name
    into one folder behave as follows.  For a name and a folder id
    without quote and backslash, and a folder id that is not empty, both
    return [True]; the second creates nothing; the first creates nothing
    either when the store already holds the name in the folder, and
    otherwise leaves exactly one file of that name in the folder.  For
    any other name the check is what the store reads in a text with the
    name between quotes, unescaped: when that reading finds no file,
    both uploads return [True] and each stores a file of the name, two
    in all; when the store refuses the text, both uploads return [False]
    and nothing is stored. *)
Theorem upload_to_drive_twice (data1 data2 filename folder_id : string) (w : world) :
  drive_reliable w →
  (plain filename && plain folder_id = true →
   non_empty folder_id = true →
   ∃ w1 w2,
     upload_to_drive data1 filename folder_id w = (Ok true, w1)
     ∧ upload_to_drive data2 filename folder_id w1 = (Ok true, w2)
     ∧ d_files (drive w2) = d_files (drive w1)
     ∧ (stored filename folder_id w ≠ [] → d_files (drive w1) = d_files (drive w))
     ∧ (stored filename folder_id w = [] → length (stored filename folder_id w2) = 1%nat))
  ∧ (plain filename && plain folder_id = false →
     ((∀ files, quoted_query files filename folder_id = Ok []) →
      ∃ w1 w2 f1 f2,
        upload_to_drive data1 filename folder_id w = (Ok true, w1)
        ∧ upload_to_drive data2 filename folder_id w1 = (Ok true, w2)
        ∧ d_files (drive w2) = d_files (drive w) ++ [f1; f2]
        ∧ f_name f1 = filename ∧ f_name f2 = filename)
     ∧ ((∀ files, raises (quoted_query files filename folder_id) = true) →
        ∃ w1 w2,
          upload_to_drive data1 filename folder_id w = (Ok false, w1)
          ∧ upload_to_drive data2 filename folder_id w1 = (Ok false, w2)
          ∧ d_files (drive w2) = d_files (drive w))).
Proof.
  intros Hrel. split.
  - intros Hplain Hfolder.
    destruct (stored filename folder_id w) as [|f0 fs] eqn:Hst.
    + destruct (upload_to_drive_fresh data1 filename folder_id w Hplain Hrel Hst)
        as (w1 & f & E1 & Hrel1 & Hf1 & Hname & Hpar & Htr).
      assert (Hst1 : stored filename folder_id w1 = [f]).
      { unfold stored in *. rewrite Hf1, filter_app, Hst. simpl.
        rewrite filter_cons, decide_True; [done|].
        simpl. rewrite Hname, Hpar, Hfolder, Htr. simpl.
        by rewrite !String.eqb_refl. }
      destruct (upload_to_drive_existing data2 filename folder_id w1 Hplain Hrel1)
        as (w2 & E2 & Hrel2 & Hf2); [by rewrite Hst1|].
      exists w1, w2. split_and!; try done.
      intros _. unfold stored in *. by rewrite Hf2, Hst1.
    + destruct (upload_to_drive_existing data1 filename folder_id w Hplain Hrel)
        as (w1 & E1 & Hrel1 & Hf1); [by rewrite Hst|].
      destruct (upload_to_drive_existing data2 filename folder_id w1 Hplain Hrel1)
        as (w2 & E2 & Hrel2 & Hf2).
      { unfold stored in *. by rewrite Hf1, Hst. }
      exists w1, w2. split_and!; done.
  - intros Hplain. split.
    + intros Hnone.
      destruct (upload_to_drive_unmatched data1 filename folder_id w Hplain Hnone Hrel)
        as (w1 & f1 & E1 & Hrel1 & Hf1 & Hn1).
      destruct (upload_to_drive_unmatched data2 filename folder_id w1 Hplain Hnone Hrel1)
        as (w2 & f2 & E2 & Hrel2 & Hf2 & Hn2).
      exists w1, w2, f1, f2. split_and!; try done.
      by rewrite Hf2, Hf1, <- app_assoc.
    + intros Hraise.
      destruct (upload_to_drive_refused data1 filename folder_id w Hplain Hraise Hrel)
        as (w1 & E1 & Hrel1 & Hf1).
      destruct (upload_to_drive_refused data2 filename folder_id w1 Hplain Hraise Hrel1)
        as (w2 & E2 & Hrel2 & Hf2).
      exists w1, w2. split_and!; try done. by rewrite Hf2.
Qed.

(** ** The normalizer *)

(** The total payment amount in the words of the specification: the
    amount of the first payment entry that is a mapping with an amount,
    and zero when there is none. *)
Definition has_amount (v : pyval) : bool :=
  match v with
  | PDict d => dict_mem d "amount"
  | _ => false
  end.

Definition first_payment_amount (entries : list pyval) : pyval :=
  match List.find has_amount entries with
  | Some (PDict d) => dict_get d "amount" PNone
  | _ => PInt 0
  end.

(** The fields every row of one document shares. *)
Definition shares (doc_date clearing utr : pyval) (name : string) (r : pydict) : Prop :=
  dict_get r "document_date" PNone = doc_date
  ∧ dict_get r "clearing_document_number" PNone = clearing
  ∧ dict_get r "utr_number" PNone = utr
  ∧ dict_get r "source_file_name" PNone = PStr name.

(** The sample of the specification: bill amounts 100, "bad" and 50. *)
Definition bills_100_bad_50 : list pyval :=
  [PDict [("bill_amount", PInt 100)];
   PDict [("bill_amount", PStr "bad")];
   PDict [("bill_amount", PInt 50)]]%string.

Definition extraction_100_bad_50 : pydict :=
  [("bill_details", PList bills_100_bad_50)]%string.

Lemma payment_loop_first entries :
  payment_loop entries (PInt 0) = first_payment_amount entries.
Proof.
  unfold first_payment_amount.
  induction entries as [|[| | | | | |d] rest IH]; simpl; try done.
  by destruct (dict_mem d "amount").
Qed.

Lemma bill_rows_run di dd tp fi total bills : ∀ i w,
  ∃ items w',
    bill_rows di dd tp fi total i bills w = (Ok items, w')
    ∧ clock w' = clock w
    ∧ ticks w' = (ticks w + length items)%nat
    ∧ logs w' = logs w
    ∧ length items = length (filter (λ b, is_dict b = true) bills)
    ∧ Forall (λ r, shares dd (dict_get di "clearing_document_number" (PStr ""))
                     (utr_of di) (f_name fi) r
                   ∧ dict_get r "total_payment_amount" PNone = tp) items
    ∧ ∀ k r, items !! k = Some r →
        dict_get r "processed_date" PNone
        = PStr (strftime_iso (clock w (ticks w + k)%nat)).
Proof.
  induction bills as [|b bills IH]; intros i w.
  - exists [], w. simpl. split_and!; try done; lia.
  - assert (Hskip : is_dict b = false →
      ∃ items w',
        bill_rows di dd tp fi total i (b :: bills) w = (Ok items, w')
        ∧ clock w' = clock w
        ∧ ticks w' = (ticks w + length items)%nat
        ∧ logs w' = logs w
        ∧ length items = length (filter (λ b, is_dict b = true) (b :: bills))
        ∧ Forall (λ r, shares dd (dict_get di "clearing_document_number" (PStr ""))
                         (utr_of di) (f_name fi) r
                       ∧ dict_get r "total_payment_amount" PNone = tp) items
        ∧ ∀ k r, items !! k = Some r →
            dict_get r "processed_date" PNone
            = PStr (strftime_iso (clock w (ticks w + k)%nat))).
    { intros Hb.
      assert (Hstep : bill_rows di dd tp fi total i (b :: bills) w
                      = bill_rows di dd tp fi total (i + 1) bills w)
        by (by destruct b).
      rewrite Hstep, filter_cons, decide_False by (by rewrite Hb). apply IH. }
    destruct b as [| | | | | |bill]; try (by apply Hskip). clear Hskip.
    cbn [bill_rows].
    destruct (excel_date_to_string_total
      (dict_get bill "bill_document_date" (dict_get bill "date" (PStr ""))))
      as (bdd & Hbdd).
    unfold bind at 1. unfold lift. rewrite Hbdd.
    unfold bind at 1. unfold now at 1.
    destruct (IH (i + 1)%Z (set_ticks (S (ticks w)) w))
      as (items & w' & E & Hclock & Hticks & Hlogs & Hlen & Hall & Hts).
    unfold bind at 1. rewrite E. eexists _, w'. split; [reflexivity|].
    rewrite filter_cons, decide_True by done.
    change (clock (set_ticks (S (ticks w)) w)) with (clock w) in *.
    change (ticks (set_ticks (S (ticks w)) w)) with (S (ticks w)) in *.
    change (logs (set_ticks (S (ticks w)) w)) with (logs w) in *.
    rewrite !length_cons.
    split_and!; try done.
    + lia.
    + by rewrite Hlen.
    + constructor; [|done]. by repeat split.
    + intros [|k] r Hk.
      * injection Hk as <-. cbn. by rewrite Nat.add_0_r.
      * cbn in Hk. rewrite (Hts k r Hk). do 3 f_equal. lia.
Qed.

Lemma parse_extracted_data_run data fi w :
  let di := document_info_or_root data (find_document_info data) in
  let bills := find_bill_details data in
  let tp := payment_loop (find_payment_mode_details data) (PInt 0) in
  match bill_loop bills (PInt 0, PInt 0, PInt 0) with
  | Raise e => ∃ w', parse_extracted_data data fi w = (Ok [], w')
  | Ok (tb, tn, td) =>
      ∃ doc_date items w',
        excel_date_to_string (dict_get di "date" (PStr "")) = Ok doc_date
        ∧ parse_extracted_data data fi w =
            (Ok ([("document_date", doc_date);
                  ("clearing_document_number",
                     dict_get di "clearing_document_number" (PStr ""));
                  ("utr_number", utr_of di);
                  ("total_payment_amount", tp);
                  ("total_bill_amount", tb);
                  ("total_net_amount", tn);
                  ("total_tds_amount", td);
                  ("payment_count", PInt (Z.of_nat (length bills)));
                  ("source_file_name", PStr (f_name fi));
                  ("processed_date", PStr (strftime_iso (clock w (ticks w))));
                  ("drive_file_id", PStr (f_id fi))]%string :: items), w')
        ∧ length items = length (filter (λ b, is_dict b = true) bills)
        ∧ Forall (λ r, shares doc_date (dict_get di "clearing_document_number" (PStr ""))
                         (utr_of di) (f_name fi) r
                       ∧ dict_get r "total_payment_amount" PNone = tp) items
        ∧ ∀ k r, items !! k = Some r →
            dict_get r "processed_date" PNone
            = PStr (strftime_iso (clock w (ticks w + S k)%nat))
  end.
Proof.
  intros di bills tp. unfold parse_extracted_data.
  fold di bills tp. cbv zeta. fold di. 
  destruct (bill_loop bills (PInt 0, PInt 0, PInt 0)) as [[[tb tn] td]|e] eqn:Hsum.
  - destruct (excel_date_to_string_total (dict_get di "date" (PStr "")))
      as (doc_date & Hdate).
    destruct (bill_rows_run di doc_date tp fi (Z.of_nat (length bills)) bills 1%Z
                (set_ticks (S (ticks w)) w))
      as (items & w1 & E & Hclock & Hticks & Hlogs & Hlen & Hall & Hts).
    exists doc_date, items. eexists. split; [done|].
    unfold try_catch, bind, lift, now. rewrite Hdate, E.
    rewrite log_eq. split; [reflexivity|]. split_and!; try done.
    intros k r Hk. rewrite (Hts k r Hk). simpl. do 3 f_equal. lia.
  - unfold try_catch, bind, lift. rewrite log_eq. by eexists.
Qed.

Lemma bill_loop_100_bad_50 :
  bill_loop bills_100_bad_50 (PInt 0, PInt 0, PInt 0)
  = Ok (PFloat 450, PFloat 0, PFloat 0).
Proof. vm_compute. reflexivity. Qed.

(** C2: on the line items with bill amounts 100, "bad" and 50 the total
    bill amount the code computes is 450.0, not 150: the additions stand
    inside the loop over the three values of a line item, so every
    numeric amount is added three times. *)
Theorem total_bill_amount_100_bad_50 (file_info : drive_file) (w : world) :
  bill_loop bills_100_bad_50 (PInt 0, PInt 0, PInt 0)
    = Ok (PFloat 450, PFloat 0, PFloat 0)
  ∧ PFloat 450 ≠ PFloat 150
  ∧ ∃ document_row items w',
      parse_extracted_data extraction_100_bad_50 file_info w
        = (Ok (document_row :: items), w')
      ∧ dict_get document_row "total_bill_amount" PNone = PFloat 450.
Proof.
  split; [apply bill_loop_100_bad_50|]. split.
  - intros H.
    apply (f_equal (λ v, match v with
                         | PFloat f => PrimFloat.eqb f 150
                         | _ => false
                         end)) in H.
    vm_compute in H. discriminate.
  - pose proof (parse_extracted_data_run extraction_100_bad_50 file_info w) as H.
    cbv zeta in H.
    change (find_bill_details extraction_100_bad_50) with bills_100_bad_50 in H.
    rewrite bill_loop_100_bad_50 in H.
    destruct H as (doc_date & items & w' & _ & E & _).
    eexists _, items, w'. split; [apply E|]. reflexivity.
Qed.

(** C8: every row of a normalized document carries as total payment
    amount the amount of the first payment entry that is a mapping with
    an amount, zero when no entry has one; it is not a sum: of the
    amounts 100 and 50 it is 100. *)
Theorem total_payment_is_first_amount (data : pydict) (file_info : drive_file)
    (w w' : world) (rows : list pydict) :
  parse_extracted_data data file_info w = (Ok rows, w') →
  Forall (λ r, dict_get r "total_payment_amount" PNone
               = first_payment_amount (find_payment_mode_details data)) rows
  ∧ first_payment_amount [PDict [("amount", PInt 100)]; PDict [("amount", PInt 50)]]%string
    = PInt 100
  ∧ first_payment_amount [PStr "cash"; PDict [("mode", PStr "NEFT")]]%string = PInt 0.
Proof.
  intros E. split; [|done].
  pose proof (parse_extracted_data_run data file_info w) as H. cbv zeta in H.
  destruct (bill_loop (find_bill_details data) (PInt 0, PInt 0, PInt 0))
    as [[[tb tn] td]|e].
  - destruct H as (doc_date & items & w1 & _ & E1 & _ & Hall & _).
    rewrite E1 in E. injection E as <- <-.
    rewrite <- payment_loop_first. constructor; [done|].
    eapply Forall_impl; [apply Hall|]. by intros r [_ Hr].
  - destruct H as (w1 & E1). rewrite E1 in E. by injection E as <- <-.
Qed.

(** C4, as the code has it: the function never raises.  When the
    aggregation of the line items raises (an integer amount beyond the
    range of a float) it emits no row.  Otherwise it emits one document
    row followed by one row per line item that is a mapping, all with
    the same document date, clearing document number, UTR number and
    source file name; the processing time stamp of the row at position
    [k] is the [k]-th reading of the clock from the start of the call,
    a fresh reading for every row. *)
Theorem parse_extracted_data_rows (data : pydict) (file_info : drive_file) (w : world) :
  let bills := find_bill_details data in
  ∃ rows w',
    parse_extracted_data data file_info w = (Ok rows, w')
    ∧ (raises (bill_loop bills (PInt 0, PInt 0, PInt 0)) = true → rows = [])
    ∧ (raises (bill_loop bills (PInt 0, PInt 0, PInt 0)) = false →
         length rows = S (length (filter (λ b, is_dict b = true) bills))
         ∧ (∃ doc_date clearing utr,
              Forall (shares doc_date clearing utr (f_name file_info)) rows)
         ∧ ∀ k r, rows !! k = Some r →
             dict_get r "processed_date" PNone
             = PStr (strftime_iso (clock w (ticks w + k)%nat))).
Proof.
  intros bills.
  pose proof (parse_extracted_data_run data file_info w) as H. cbv zeta in H.
  fold bills in H.
  destruct (bill_loop bills (PInt 0, PInt 0, PInt 0)) as [[[tb tn] td]|e].
  - destruct H as (doc_date & items & w1 & _ & E1 & Hlen & Hall & Hts).
    eexists _, w1. split; [apply E1|]. split; [done|]. intros _. split_and!.
    + simpl. by rewrite Hlen.
    + eexists doc_date, _, _. constructor; [by repeat split|].
      eapply Forall_impl; [apply Hall|]. by intros r [Hr _].
    + intros [|k] r Hk.
      * injection Hk as <-. simpl. by rewrite Nat.add_0_r.
      * simpl in Hk. apply (Hts k r Hk).
  - destruct H as (w1 & E1). exists [], w1. by split_and!.
Qed.


(** ** The harvester *)

(** The full-message fetch of [email] raises after its details were
    fetched: the one failure of a message that reaches the handler of
    the loop. *)
Definition body_raises (g : gmail_service) (email : string) : bool :=
  match g_metadata g email with
  | Ok _ => raises (g_full g email)
  | Raise _ => false
  end.

(** The messages the search of a run returns, from the world in which
    the run starts. *)
Definition found_emails (config : mail_config) (w : world) : list string :=
  match timedelta_days (mc_days_back config) with
  | Ok delta =>
      match datetime_add_days (clock w (ticks w)) (- delta) with
      | Ok start_date =>
          match g_messages (gmail w) (mc_sender config) (mc_search_term config)
                  start_date (mc_max_results config) with
          | Ok messages => messages
          | Raise _ => []
          end
      | Raise _ => []
      end
  | Raise _ => []
  end.

Lemma post_bind_run {A B} (m : M A) (k : A → M B) w (Q : result B → world → Prop) :
  total m → (∀ a w', m w = (Ok a, w') → post (k a) w' Q) → post (bind m k) w Q.
Proof.
  intros Hm Hk. destruct (Hm w) as (a & w' & E).
  unfold post, bind. rewrite E. by apply Hk.
Qed.

Lemma keeps_at {X A} (f : world → X) (m : M A) w r w' :
  keeps f m → m w = (r, w') → f w' = f w.
Proof. intros H E. specialize (H w). by rewrite E in H. Qed.

(** The primitive steps and the projections they leave alone. *)
Ltac keeps_prim :=
  intros ?w;
  first [ reflexivity
        | unfold drive_call, sheets_read, sheets_write_call, agent_extract,
            fetch_attachment;
          repeat match goal with
                 | |- context [match ?x with _ => _ end] => destruct x
                 end; reflexivity ].

Lemma keeps_gmail_log msg lvl : keeps gmail (log msg lvl).
Proof. keeps_prim. Qed.
Lemma keeps_status_log msg lvl : keeps status (log msg lvl).
Proof. keeps_prim. Qed.
Lemma keeps_sheets_log msg lvl : keeps sheets (log msg lvl).
Proof. keeps_prim. Qed.
Lemma keeps_gmail_now : keeps gmail now.
Proof. keeps_prim. Qed.
Lemma keeps_status_now : keeps status now.
Proof. keeps_prim. Qed.
Lemma keeps_sheets_now : keeps sheets now.
Proof. keeps_prim. Qed.
Lemma keeps_sheets_sleep n : keeps sheets (sleep n).
Proof. keeps_prim. Qed.
Lemma keeps_gmail_drive_call : keeps gmail drive_call.
Proof. keeps_prim. Qed.
Lemma keeps_status_drive_call : keeps status drive_call.
Proof. keeps_prim. Qed.
Lemma keeps_sheets_drive_call : keeps sheets drive_call.
Proof. keeps_prim. Qed.
Lemma keeps_gmail_fetch_attachment m a : keeps gmail (fetch_attachment m a).
Proof. keeps_prim. Qed.
Lemma keeps_status_fetch_attachment m a : keeps status (fetch_attachment m a).
Proof. keeps_prim. Qed.
Lemma keeps_sheets_agent_extract : keeps sheets agent_extract.
Proof. keeps_prim. Qed.
Lemma keeps_sheets_status_callback msg : keeps sheets (status_callback msg).
Proof. keeps_prim. Qed.
Lemma keeps_sheets_progress_callback v : keeps sheets (progress_callback v).
Proof. keeps_prim. Qed.
Lemma keeps_gmail_progress_callback v : keeps gmail (progress_callback v).
Proof. keeps_prim. Qed.
Lemma keeps_status_progress_callback v : keeps status (progress_callback v).
Proof. keeps_prim. Qed.

#[local] Hint Resolve keeps_gmail_log keeps_status_log keeps_sheets_log
  keeps_gmail_now keeps_status_now keeps_sheets_now keeps_sheets_sleep
  keeps_gmail_drive_call keeps_status_drive_call keeps_sheets_drive_call
  keeps_gmail_fetch_attachment keeps_status_fetch_attachment
  keeps_sheets_agent_extract keeps_sheets_status_callback
  keeps_sheets_progress_callback keeps_gmail_progress_callback
  keeps_status_progress_callback : keeps.

Lemma keeps_files_list {X} (f : world → X) q :
  keeps f drive_call → keeps f (files_list q).
Proof. intros H. unfold files_list. keeps_auto. Qed.

Lemma keeps_gmail_files_create n m p d : keeps gmail (files_create n m p d).
Proof. unfold files_create. apply keeps_bind; [auto with keeps|]. by intros _ w. Qed.
Lemma keeps_status_files_create n m p d : keeps status (files_create n m p d).
Proof. unfold files_create. apply keeps_bind; [auto with keeps|]. by intros _ w. Qed.
Lemma keeps_sheets_files_create n m p d : keeps sheets (files_create n m p d).
Proof. unfold files_create. apply keeps_bind; [auto with keeps|]. by intros _ w. Qed.
#[local] Hint Resolve keeps_files_list keeps_gmail_files_create
  keeps_status_files_create keeps_sheets_files_create : keeps.

Lemma keeps_files_named {X} (f : world → X) name folder :
  keeps f drive_call → keeps f (files_named name folder).
Proof.
  intros H. unfold files_named. destruct (_ && _); [by apply keeps_files_list|].
  apply keeps_bind; [done|]. by intros _ w.
Qed.
#[local] Hint Resolve keeps_files_named : keeps.

Lemma keeps_create_drive_folder {X} (f : world → X) name parent :
  keeps f drive_call → (∀ n m p d, keeps f (files_create n m p d)) →
  (∀ msg lvl, keeps f (log msg lvl)) →
  keeps f (create_drive_folder name parent).
Proof. intros H1 H2 H3. unfold create_drive_folder. keeps_auto. Qed.

Lemma keeps_upload_to_drive {X} (f : world → X) data name folder :
  keeps f drive_call → (∀ n m p d, keeps f (files_create n m p d)) →
  (∀ msg lvl, keeps f (log msg lvl)) →
  keeps f (upload_to_drive data name folder).
Proof. intros H1 H2 H3. unfold upload_to_drive. keeps_auto. Qed.

Lemma total_create_drive_folder name parent : total (create_drive_folder name parent).
Proof. unfold create_drive_folder. eauto with total. Qed.

Lemma total_upload_to_drive data name folder : total (upload_to_drive data name folder).
Proof. unfold upload_to_drive. eauto with total. Qed.

Lemma total_process_attachment m f a b : total (process_attachment m f a b).
Proof. unfold process_attachment. eauto with total. Qed.

#[local] Hint Resolve total_create_drive_folder total_upload_to_drive
  total_process_attachment : total.

Lemma keeps_process_attachment {X} (f : world → X) m fn a b :
  keeps f drive_call → (∀ n m p d, keeps f (files_create n m p d)) →
  (∀ msg lvl, keeps f (log msg lvl)) → (∀ m a, keeps f (fetch_attachment m a)) →
  keeps f (process_attachment m fn a b).
Proof.
  intros H1 H2 H3 H4. unfold process_attachment.
  repeat keeps_step; eauto using keeps_create_drive_folder, keeps_upload_to_drive.
Qed.

(** Induction on the tree of parts. *)
Lemma part_tree_ind (P : part → Prop) :
  (∀ ps, Forall P ps → P (Multipart ps)) →
  (∀ f a, P (Leaf f a)) →
  ∀ p, P p.
Proof.
  intros Hm Hl. fix IH 1. intros [ps|f a]; [|apply Hl].
  apply Hm. induction ps as [|p ps IHps]; constructor; [apply IH|apply IHps].
Qed.

Lemma total_extract_attachments m b p : total (extract_attachments_from_email m p b).
Proof.
  induction p as [ps IH|f a] using part_tree_ind; simpl.
  - induction IH as [|p ps Hp _ IHps]; eauto with total.
  - eauto with total.
Qed.

Lemma keeps_extract_attachments {X} (f : world → X) m b p :
  keeps f drive_call → (∀ n m p d, keeps f (files_create n m p d)) →
  (∀ msg lvl, keeps f (log msg lvl)) → (∀ m a, keeps f (fetch_attachment m a)) →
  keeps f (extract_attachments_from_email m p b).
Proof.
  intros H1 H2 H3 H4.
  induction p as [ps IH|fn a] using part_tree_ind; simpl.
  - induction IH as [|p ps Hp _ IHps]; keeps_auto.
  - repeat keeps_step; eauto using keeps_process_attachment.
Qed.

Lemma get_email_details_run email w :
  ∃ info w', get_email_details email w = (Ok info, w')
    ∧ gmail w' = gmail w ∧ status w' = status w
    ∧ (is_Some info ↔ raises (g_metadata (gmail w) email) = false).
Proof.
  unfold get_email_details, try_catch, bind.
  destruct (g_metadata (gmail w) email) as [headers|e]; simpl.
  - eexists _, _. split; [done|]. split; [done|]. split; [done|].
    split; [done|]. intros _. eauto.
  - eexists _, _. split; [done|]. split; [done|]. split; [done|].
    split; [by intros [? ?]|done].
Qed.

Lemma post_bind_frame {A B} (m : M A) (k : A → M B) w (Q : result B → world → Prop) :
  total m → keeps gmail m → keeps status m →
  (∀ a w', gmail w' = gmail w → status w' = status w → post (k a) w' Q) →
  post (bind m k) w Q.
Proof.
  intros Hm Hg Hs Hk. apply post_bind_run; [done|]. intros a w' E.
  apply Hk; eapply keeps_at; eauto.
Qed.

Lemma process_one_email_run base total_n st i email w :
  ∃ st' w',
    process_one_email base total_n st i email w = (Ok st', w')
    ∧ gmail w' = gmail w
    ∧ status w' = status w ++ [StatusEmail i total_n]
    ∧ st_total_emails st' = st_total_emails st
    ∧ st_failed_uploads st' =
        (st_failed_uploads st + (if body_raises (gmail w) email then 1 else 0))%Z.
Proof.
  assert (H : post (process_one_email base total_n st i email) w (λ r w',
    ∃ st', r = Ok st'
      ∧ gmail w' = gmail w
      ∧ status w' = status w ++ [StatusEmail i total_n]
      ∧ st_total_emails st' = st_total_emails st
      ∧ st_failed_uploads st' =
          (st_failed_uploads st + (if body_raises (gmail w) email then 1 else 0))%Z)).
  { unfold process_one_email, body_raises.
    apply post_try_catch, post_bind.
    eapply post_eq; [reflexivity|].
    set (w1 := set_status _ w).
    destruct (get_email_details_run email w1) as (info & w2 & E2 & Hg2 & Hs2 & Hinfo).
    apply post_bind. eapply post_eq; [apply E2|].
    change (gmail w1) with (gmail w) in *.
    change (status w1) with (status w ++ [StatusEmail i total_n]) in *.
    destruct info as [info|].
    - assert (Hm : raises (g_metadata (gmail w) email) = false) by (apply Hinfo; eauto).
      destruct (g_metadata (gmail w) email) as [hs|]; [clear Hm Hinfo|done].
      apply post_bind. unfold post at 1. cbn [fst snd]. rewrite Hg2.
      destruct (g_full (gmail w) email) as [[payload|]|e]; cbn [raises].
      + apply post_bind_frame;
          [apply total_extract_attachments
          |apply keeps_extract_attachments; eauto with keeps
          |apply keeps_extract_attachments; eauto with keeps|].
        intros attachments w3 Hg3 Hs3. apply post_bind.
        assert (Hend : ∀ st1 w4,
          gmail w4 = gmail w2 → status w4 = status w2 →
          st_total_emails st1 = st_total_emails st →
          st_failed_uploads st1 = st_failed_uploads st →
          post (progress_callback (ProgressScaled 30 50 i total_n) ;; ret st1) w4
            (λ (r : result mail_stats) (w' : world),
               match r with
               | Ok a =>
                   ∃ st' : mail_stats,
                     Ok a = Ok st'
                     ∧ gmail w' = gmail w
                     ∧ status w' = status w ++ [StatusEmail i total_n]
                     ∧ st_total_emails st' = st_total_emails st
                     ∧ st_failed_uploads st' = (st_failed_uploads st + 0)%Z
               | Raise e =>
                   post
                     (log ("Failed to process email " +:+ email +:+ ": "
                           +:+ exn_str e) "ERROR";;
                      ret (count_failed_upload st)) w'
                     (λ (r0 : result mail_stats) (w'0 : world),
                        ∃ st' : mail_stats,
                          r0 = Ok st'
                          ∧ gmail w'0 = gmail w
                          ∧ status w'0 = status w ++ [StatusEmail i total_n]
                          ∧ st_total_emails st' = st_total_emails st
                          ∧ st_failed_uploads st' = (st_failed_uploads st + 0)%Z)
               end)).
        { intros st1 w4 Hg4 Hs4 Ht Hf.
          apply post_bind_frame; [auto with total|auto with keeps..|].
          intros _ w5 Hg5 Hs5. apply post_ret. exists st1.
          rewrite Hg5, Hs5, Hg4, Hs4, Hg2, Hs2, Ht, Hf. split_and!; try done. lia. }
        destruct attachments as [|a atts].
        * apply post_bind_frame; [auto with total|auto with keeps..|].
          intros _ w4 Hg4 Hs4. apply post_ret.
          apply Hend; [congruence|congruence|done|done].
        * apply post_bind_frame; [auto with total|auto with keeps..|].
          intros _ w4 Hg4 Hs4. apply post_ret.
          apply Hend; [congruence|congruence|done|done].
      + apply post_ret. exists st. rewrite Z.add_0_r. by split_and!.
      + apply post_bind_frame; [auto with total|auto with keeps..|].
        intros _ w3 Hg3 Hs3. apply post_ret. eexists. split; [done|].
        rewrite Hg3, Hs3, Hg2, Hs2. by split_and!.
    - assert (Hm : raises (g_metadata (gmail w) email) ≠ false).
      { intros Hm. apply Hinfo in Hm. by destruct Hm. }
      destruct (g_metadata (gmail w) email) as [hs|]; [done|].
      apply post_ret. exists st. rewrite Z.add_0_r. by split_and!. }
  unfold post in H. destruct (process_one_email base total_n st i email w) as [r w'].
  simpl in H. destruct H as (st' & -> & H). by exists st', w'.
Qed.

Lemma process_emails_run base total_n emails : ∀ st i w,
  ∃ st' w',
    process_emails base total_n st i emails w = (Ok st', w')
    ∧ gmail w' = gmail w
    ∧ status w' = status w
        ++ map (λ k, StatusEmail (i + Z.of_nat k) total_n) (seq 0 (length emails))
    ∧ st_total_emails st' = st_total_emails st
    ∧ st_failed_uploads st' =
        (st_failed_uploads st
         + Z.of_nat (length (filter (λ e, body_raises (gmail w) e = true) emails)))%Z.
Proof.
  induction emails as [|email emails IH]; intros st i w.
  - exists st, w. simpl. rewrite app_nil_r. split_and!; try done. lia.
  - destruct (process_one_email_run base total_n st i email w)
      as (st1 & w1 & E1 & Hg1 & Hs1 & Ht1 & Hf1).
    destruct (IH st1 (i + 1)%Z w1) as (st2 & w2 & E2 & Hg2 & Hs2 & Ht2 & Hf2).
    exists st2, w2. simpl process_emails. unfold bind. rewrite E1, E2.
    split; [done|]. rewrite Hg2, Hg1, Hs2, Hs1, Ht2, Ht1, Hf2, Hf1, Hg1.
    split_and!; try done.
    + rewrite <- app_assoc. f_equal. simpl. rewrite Z.add_0_r. f_equal.
      rewrite <- seq_shift, map_map. apply map_ext. intros k. f_equal. lia.
    + rewrite filter_cons. destruct (body_raises (gmail w) email).
      * rewrite decide_True by done. simpl length. lia.
      * rewrite decide_False by done. lia.
Qed.

Lemma search_emails_run config w :
  ∃ w', search_emails (mc_sender config) (mc_search_term config)
          (mc_days_back config) (mc_max_results config) w
        = (Ok (found_emails config w), w')
    ∧ gmail w' = gmail w ∧ status w' = status w.
Proof.
  unfold search_emails, found_emails, try_catch, bind, lift, now.
  destruct (timedelta_days (mc_days_back config)) as [delta|e]; simpl;
    [|by eexists].
  destruct (datetime_add_days (clock w (ticks w)) (- delta)) as [start|e]; simpl;
    [|by eexists].
  destruct (g_messages (gmail w) _ _ start _) as [messages|e]; simpl; by eexists.
Qed.

(** C9: the workflow never raises and no failure aborts the batch: when
    the search finds messages and a base folder is configured, it visits
    every message in turn and reports success with the number of
    messages found.  The failure counter falls short of the failures:
    it counts exactly the messages whose full fetch raised after their
    details had been fetched, so a failed detail fetch, a failed
    attachment fetch and a failed upload, which are absorbed where they
    happen, are not counted. *)
Theorem mail_workflow_failures (config : mail_config) (w : world) :
  let emails := found_emails config w in
  ∃ r w',
    process_mail_to_drive_workflow config w = (Ok r, w')
    ∧ (emails ≠ [] → non_empty (mc_gdrive_folder_id config) = true →
         success r = true
         ∧ total_emails r = Z.of_nat (length emails)
         ∧ failed r =
             Z.of_nat (length (filter (λ e, body_raises (gmail w) e = true) emails))
         ∧ ∀ k, (k < length emails)%nat →
             StatusEmail (Z.of_nat (S k)) (Z.of_nat (length emails)) ∈ status w').
Proof.
  intros emails.
  assert (H : post (process_mail_to_drive_workflow config) w (λ r0 w',
    ∃ r, r0 = Ok r
      ∧ (emails ≠ [] → non_empty (mc_gdrive_folder_id config) = true →
         success r = true
         ∧ total_emails r = Z.of_nat (length emails)
         ∧ failed r =
             Z.of_nat (length (filter (λ e, body_raises (gmail w) e = true) emails))
         ∧ ∀ k, (k < length emails)%nat →
             StatusEmail (Z.of_nat (S k)) (Z.of_nat (length emails)) ∈ status w'))).
  { unfold process_mail_to_drive_workflow.
    apply post_try_catch, post_bind. eapply post_eq; [reflexivity|].
    apply post_bind. eapply post_eq; [reflexivity|].
    set (w1 := set_progress _ _).
    destruct (search_emails_run config w1) as (w2 & E2 & Hg2 & Hs2).
    change (found_emails config w1) with emails in E2.
    change (gmail w1) with (gmail w) in Hg2.
    apply post_bind. eapply post_eq; [apply E2|].
    destruct emails as [|e0 es] eqn:Hemails.
    { apply post_bind_run; [auto with total|]. intros _ w3 _.
      apply post_ret. by eexists. }
    rewrite <- Hemails.
    destruct (non_empty (mc_gdrive_folder_id config)) eqn:Hbase; cbn [negb].
    2:{ apply post_bind_run; [auto with total|]. intros _ w3 _.
        apply post_ret. by eexists. }
    apply post_bind_frame; [auto with total|auto with keeps..|].
    intros _ w3 Hg3 Hs3.
    apply post_bind. eapply post_eq; [reflexivity|].
    apply post_bind. eapply post_eq; [reflexivity|].
    set (w4 := set_progress _ _).
    destruct (process_emails_run (mc_gdrive_folder_id config)
                (Z.of_nat (length emails)) emails
                (MailStats (Z.of_nat (length emails)) 0 0 0 0 []) 1%Z w4)
      as (st & w5 & E5 & Hg5 & Hs5 & Ht5 & Hf5).
    apply post_bind. eapply post_eq; [apply E5|].
    apply post_bind. eapply post_eq; [reflexivity|].
    apply post_bind. eapply post_eq; [reflexivity|].
    apply post_bind_run; [auto with total|]. intros [] w6 E6.
    pose proof (keeps_at status _ _ _ _ (keeps_status_log _ _) E6) as Hs6.
    apply post_bind. eapply post_eq; [reflexivity|].
    apply post_ret. eexists. split; [done|]. intros _ _.
    cbn [success total_emails failed].
    change (gmail w4) with (gmail w3) in *. rewrite Hg3, Hg2 in Hf5.
    split; [done|]. split; [done|]. split.
    - rewrite Hf5. cbn [st_failed_uploads]. lia.
    - intros k Hk. cbn [status set_progress]. rewrite Hs6.
      cbn [status set_progress set_status]. rewrite Hs5.
      apply elem_of_app. left. apply elem_of_app. right.
      apply list_elem_of_fmap. exists k. split; [f_equal; lia|].
      apply list_elem_of_In, in_seq. lia. }
  unfold post in H. destruct (process_mail_to_drive_workflow config w) as [r0 w'].
  simpl in H. destruct H as (r & -> & H). by exists r, w'.
Qed.

(** ** At-most-once ingestion *)

(** The key [k] stands in the column [column_name] of the grid: a row
    below the header row holds it, not empty, under the first header
    cell that reads [column_name]. *)
Definition key_present (column_name k : string) (grid : list (list string)) : Prop :=
  ∃ headers rows i row,
    grid = headers :: rows
    ∧ index_of column_name headers = Some i
    ∧ row ∈ rows
    ∧ row !! i = Some k
    ∧ non_empty k = true.

(** The first call of the run to the spreadsheet, the read of the
    existing keys, does not raise. *)
Definition key_read_succeeds (w : world) : Prop :=
  head (s_faults (sheets w)) ≠ Some true.

(** The rows of the appends the spreadsheet accepted between [w] and [w']. *)
Definition appended_since (w w' : world) : list (list pyval) :=
  concat (omap (λ c, match c with
                     | (AppendCall rows, true) => Some rows
                     | _ => None
                     end)
               (drop (length (s_calls (sheets w))) (s_calls (sheets w')))).

(** The keys the read of the existing keys looks for: the non-empty
    cells of the column, below the header row. *)
Definition keys_in_column (column_name : string) (grid : list (list string))
  : gset string :=
  match grid with
  | [] => ∅
  | headers :: rows =>
      match index_of column_name headers with
      | Some i => column_values i rows
      | None => ∅
      end
  end.

(** The values [row] are those of a row whose source file name is
    outside [existing], laid out along [headers]. *)
Definition fresh_row (existing : gset string) (headers : list string)
    (row : list pyval) : Prop :=
  ∃ row_dict name,
    row = row_values headers row_dict
    ∧ dict_get row_dict "source_file_name" (PStr "") = PStr name
    ∧ name ∉ existing.

(** A write call that appends fresh rows only. *)
Definition good_call (existing : gset string) (headers : list string)
    (c : sheets_write * bool) : Prop :=
  match c with
  | (AppendCall rows, _) => Forall (fresh_row existing headers) rows
  | (UpdateCall _ _, _) => True
  end.

(** From [w] to [w'] the grid is the same and the spreadsheet received
    only calls that satisfy [P]. *)
Definition extends (P : sheets_write * bool → Prop) (w w' : world) : Prop :=
  s_values (sheets w') = s_values (sheets w)
  ∧ ∃ new, s_calls (sheets w') = s_calls (sheets w) ++ new ∧ Forall P new.

(** [m] relates the worlds before and after it by [R], and what it
    returns satisfies [V]. *)
Definition spec {A} (R : world → world → Prop) (V : A → Prop) (m : M A) : Prop :=
  ∀ w, R w (m w).2 ∧ match (m w).1 with Ok a => V a | Raise _ => True end.

Lemma extends_refl P w w' : sheets w' = sheets w → extends P w w'.
Proof. intros H. unfold extends. rewrite H. split; [done|]. exists []. by rewrite app_nil_r. Qed.

Lemma extends_trans P w1 w2 w3 : extends P w1 w2 → extends P w2 w3 → extends P w1 w3.
Proof.
  intros [Hv1 (n1 & Hc1 & Hp1)] [Hv2 (n2 & Hc2 & Hp2)]. split; [congruence|].
  exists (n1 ++ n2). rewrite Hc2, Hc1, app_assoc. split; [done|].
  by apply Forall_app.
Qed.

Section Spec.
Context (P : sheets_write * bool → Prop).

Lemma spec_ret {A} (V : A → Prop) a : V a → spec (extends P) V (ret a).
Proof. intros Ha w. split; [by apply extends_refl|done]. Qed.

Lemma spec_bind {A B} (V : A → Prop) (V' : B → Prop) (m : M A) (k : A → M B) :
  spec (extends P) V m → (∀ a, V a → spec (extends P) V' (k a)) →
  spec (extends P) V' (bind m k).
Proof.
  intros Hm Hk w. unfold bind. destruct (Hm w) as [HR HV].
  destruct (m w) as [[a|e] w1]; simpl in *; [|done].
  destruct (Hk a HV w1) as [HR' HV']. split; [|done].
  eapply extends_trans; eauto.
Qed.

Lemma spec_try_catch {A} (V : A → Prop) (body : M A) (handler : exn → M A) :
  spec (extends P) V body → (∀ e, spec (extends P) V (handler e)) →
  spec (extends P) V (try_catch body handler).
Proof.
  intros Hb Hh w. unfold try_catch. destruct (Hb w) as [HR HV].
  destruct (body w) as [[a|e] w1]; simpl in *; [done|].
  destruct (Hh e w1) as [HR' HV']. split; [|done].
  eapply extends_trans; eauto.
Qed.

Lemma spec_keeps {A} (m : M A) : keeps sheets m → spec (extends P) (λ _, True) m.
Proof.
  intros H w. split; [apply extends_refl, H|]. by destruct (m w).1.
Qed.

Lemma spec_weaken {A} (V V' : A → Prop) (m : M A) :
  spec (extends P) V m → (∀ a, V a → V' a) → spec (extends P) V' m.
Proof.
  intros H HV w. destruct (H w) as [HR Hv]. split; [done|].
  destruct (m w).1; auto.
Qed.

Lemma spec_conj {A} (V V' : A → Prop) (m : M A) :
  spec (extends P) V m → (∀ w, match (m w).1 with Ok a => V' a | Raise _ => True end) →
  spec (extends P) (λ a, V a ∧ V' a) m.
Proof.
  intros H H' w. destruct (H w) as [HR Hv]. split; [done|].
  specialize (H' w). by destruct (m w).1.
Qed.
End Spec.

Ltac spec_step :=
  match goal with
  | |- spec _ _ (bind _ _) => eapply spec_bind; [|intros ? ?]
  | |- spec _ _ (try_catch _ _) => apply spec_try_catch; [|intros ?]
  | |- spec _ _ (ret _) =>
      first [by apply spec_ret | by apply (spec_ret _ (λ _, True))]
  | |- spec _ _ (match ?x with _ => _ end) => destruct x eqn:?
  | |- spec _ _ (let _ := _ in _) => cbv zeta
  end.


Lemma keeps_sheets_files_get_media id : keeps sheets (files_get_media id).
Proof.
  unfold files_get_media. apply keeps_bind; [auto with keeps|]. intros _ w.
  by destruct (filter _ _).
Qed.

Lemma keeps_sheets_download id name : keeps sheets (download_from_drive id name).
Proof. unfold download_from_drive. keeps_auto. apply keeps_sheets_files_get_media. Qed.

Lemma keeps_sheets_safe_extract path : keeps sheets (safe_extract path).
Proof. unfold safe_extract. simpl. keeps_auto. Qed.

Lemma keeps_sheets_bill_rows di dd tp fi total bills : ∀ i,
  keeps sheets (bill_rows di dd tp fi total i bills).
Proof.
  induction bills as [|b bills IH]; intros i; simpl; [keeps_auto|].
  destruct b; try apply IH. keeps_auto.
Qed.

Lemma keeps_sheets_parse data fi : keeps sheets (parse_extracted_data data fi).
Proof.
  unfold parse_extracted_data. repeat keeps_step; eauto with keeps.
  apply keeps_sheets_bill_rows.
Qed.

Lemma keeps_sheets_list_drive_files folder days : keeps sheets (list_drive_files folder days).
Proof. unfold list_drive_files. keeps_auto. Qed.

Lemma keeps_sheets_create_drive_folder name parent :
  keeps sheets (create_drive_folder name parent).
Proof. apply keeps_create_drive_folder; eauto with keeps. Qed.

#[local] Hint Resolve keeps_sheets_download keeps_sheets_safe_extract
  keeps_sheets_parse keeps_sheets_list_drive_files
  keeps_sheets_create_drive_folder : keeps.

Section Ingestion.
Context (P : sheets_write * bool → Prop).

Lemma spec_sheets_write_call c :
  (∀ ok, P (c, ok)) → spec (extends P) (λ _, True) (sheets_write_call c).
Proof.
  intros Hc w. unfold sheets_write_call, extends.
  destruct (s_faults (sheets w)) as [|[] rest]; simpl;
    (split; [|done]); (split; [done|]); eexists [_]; split; try done;
    by constructor.
Qed.

Lemma spec_sheets_read : spec (extends P) (λ _, True) sheets_read.
Proof.
  intros w. unfold sheets_read, extends.
  destruct (s_faults (sheets w)) as [|[] rest]; simpl;
    (split; [|done]); (split; [done|]); exists []; by rewrite app_nil_r.
Qed.

Ltac spec_leaf :=
  first [ apply spec_keeps; solve [eauto with keeps]
        | apply spec_sheets_read
        | apply spec_sheets_write_call; solve [eauto] ].

Lemma spec_update_headers h :
  (∀ col vals ok, P (UpdateCall col vals, ok)) →
  spec (extends P) (λ _, True) (update_headers h).
Proof. intros HP. unfold update_headers. repeat spec_step; spec_leaf. Qed.

Lemma spec_get_sheet_headers : spec (extends P) (λ _, True) get_sheet_headers.
Proof. unfold get_sheet_headers. repeat spec_step; spec_leaf. Qed.

Lemma spec_append_to_google_sheet values :
  (∀ ok, P (AppendCall values, ok)) →
  spec (extends P) (λ _, True) (append_to_google_sheet values).
Proof.
  intros HP. unfold append_to_google_sheet. simpl.
  repeat spec_step; spec_leaf.
Qed.

Lemma spec_reconcile_headers h :
  (∀ col vals ok, P (UpdateCall col vals, ok)) →
  spec (extends P) (λ h', h' = reconciled h) (reconcile_headers h).
Proof.
  intros HP. eapply spec_weaken.
  - apply (spec_conj P (λ _, True) (λ h', h' = reconciled h)).
    + unfold reconcile_headers.
      repeat spec_step; first [spec_leaf | by apply spec_update_headers].
    + intros w. destruct (reconcile_headers_value h w) as (w' & ->). done.
  - by intros h' [_ ->].
Qed.
End Ingestion.

Ltac spec_leaf :=
  first [ apply spec_keeps; solve [eauto with keeps]
        | apply spec_sheets_read
        | apply spec_sheets_write_call; solve [eauto]
        | apply spec_update_headers; solve [eauto]
        | apply spec_get_sheet_headers ].

Lemma index_of_lookup x l i : index_of x l = Some i → l !! i = Some x.
Proof.
  revert i. induction l as [|y l IH]; intros i; simpl; [done|].
  destruct (String.eqb y x) eqn:E.
  - intros [= <-]. apply String.eqb_eq in E. by subst.
  - destruct (index_of x l) as [j|]; simpl; [|done].
    intros [= <-]. by apply IH.
Qed.

Lemma index_of_str_in x l : str_in x l = true → is_Some (index_of x l).
Proof.
  rewrite str_in_spec. induction l as [|y l IH]; intros Hin.
  - by apply elem_of_nil in Hin.
  - simpl. destruct (String.eqb y x) eqn:E; [eauto|].
    apply elem_of_cons in Hin as [->|Hin].
    + by rewrite String.eqb_refl in E.
    + destruct (IH Hin) as [j ->]. simpl. eauto.
Qed.

Lemma dict_get_default d k v a b :
  dict_get d k a = v → v ≠ a → dict_get d k b = v.
Proof.
  induction d as [|[k' v'] d IH]; simpl; [congruence|].
  destruct (String.eqb k' k); auto.
Qed.

Lemma parse_rows_source data fi w :
  match (parse_extracted_data data fi w).1 with
  | Ok rows =>
      Forall (λ r, dict_get r "source_file_name" (PStr "") = PStr (f_name fi)) rows
  | Raise _ => True
  end.
Proof.
  pose proof (parse_extracted_data_run data fi w) as H. cbv zeta in H.
  destruct (bill_loop (find_bill_details data) (PInt 0, PInt 0, PInt 0))
    as [[[tb tn] td]|e].
  - destruct H as (doc_date & items & w1 & _ & -> & _ & Hall & _). cbn [fst].
    constructor; [done|]. eapply Forall_impl; [apply Hall|].
    intros r [(_ & _ & _ & Hr) _]. by apply (dict_get_default _ _ _ PNone).
  - destruct H as (w1 & ->). by cbn.
Qed.

Section Files.
Context (existing : gset string) (headers : list string).
#[local] Abbreviation R := (extends (good_call existing headers)).

Lemma spec_process_one_pdf total_n st i pdf_file :
  f_name pdf_file ∉ existing →
  spec R (λ _, True) (process_one_pdf headers total_n st i pdf_file).
Proof.
  intros Hnew. unfold process_one_pdf. cbv beta zeta.
  apply spec_try_catch; [|intros e; repeat spec_step; spec_leaf].
  eapply spec_bind; [spec_leaf|intros _ _].
  eapply spec_bind; [spec_leaf|intros _ _].
  eapply spec_bind; [spec_leaf|intros file_data _].
  destruct (negb (non_empty file_data)); [repeat spec_step; spec_leaf|].
  eapply spec_bind; [spec_leaf|intros _ _].
  eapply spec_bind; [|intros st' _; repeat spec_step; spec_leaf].
  apply spec_try_catch; [|intros e; repeat spec_step; spec_leaf].
  eapply spec_bind; [spec_leaf|intros _ _].
  eapply spec_bind; [spec_leaf|intros extraction_result _].
  eapply (spec_bind _ (λ rows,
    Forall (λ r, dict_get r "source_file_name" (PStr "") = PStr (f_name pdf_file))
           rows)).
  { eapply spec_weaken.
    - apply (spec_conj _ (λ _, True)); [spec_leaf|].
      apply parse_rows_source.
    - by intros rows [_ H]. }
  intros rows Hrows. destruct rows as [|r rows]; [repeat spec_step; spec_leaf|].
  cbv zeta. eapply spec_bind.
  - apply spec_append_to_google_sheet. intros ok. cbn [good_call].
    apply Forall_fmap. eapply Forall_impl; [apply Hrows|].
    intros r' Hr'. cbn. by exists r', (f_name pdf_file).
  - intros ok _. destruct ok; repeat spec_step; spec_leaf.
Qed.

Lemma spec_process_pdfs total_n files : ∀ st i,
  Forall (λ f, f_name f ∉ existing) files →
  spec R (λ _, True) (process_pdfs headers total_n st i files).
Proof.
  induction files as [|f files IH]; intros st i Hall; cbn [process_pdfs].
  - by apply spec_ret.
  - apply Forall_cons in Hall as [Hf Hall].
    eapply spec_bind; [by apply spec_process_one_pdf|].
    intros st' _. by apply IH.
Qed.
End Files.
Lemma elem_of_column_values i rows k :
  k ∈ column_values i rows
  ↔ ∃ row, row ∈ rows ∧ row !! i = Some k ∧ non_empty k = true.
Proof.
  unfold column_values. rewrite elem_of_list_to_set, list_elem_of_omap. split.
  - intros (row & Hin & Hrow). exists row. split; [done|].
    destruct (row !! i) as [cell|]; [|done].
    destruct (non_empty cell) eqn:E; [|done]. by injection Hrow as ->.
  - intros (row & Hin & Hrow & Hk). exists row. split; [done|].
    by rewrite Hrow, Hk.
Qed.

Lemma keys_in_column_spec column_name k grid :
  k ∈ keys_in_column column_name grid ↔ key_present column_name k grid.
Proof.
  unfold keys_in_column, key_present. destruct grid as [|headers rows].
  - split; [by intros H%elem_of_empty|by intros (? & ? & ? & ? & ? & _)].
  - destruct (index_of column_name headers) as [i|] eqn:Hi.
    + rewrite elem_of_column_values. split.
      * intros (row & Hin & Hrow & Hk). by exists headers, rows, i, row.
      * intros (h & rs & j & row & [= <- <-] & Hj & Hin & Hrow & Hk).
        rewrite Hi in Hj. injection Hj as <-. by exists row.
    + split; [by intros H%elem_of_empty|].
      intros (h & rs & j & row & [= <- <-] & Hj & _). by rewrite Hi in Hj.
Qed.

Lemma get_existing_source_files_run P column_name w :
  key_read_succeeds w →
  ∃ w', get_existing_source_files column_name w
        = (Ok (keys_in_column column_name (s_values (sheets w))), w')
    ∧ extends P w w'.
Proof.
  intros Hread. unfold key_read_succeeds in Hread.
  assert (Hr : ∃ w1, sheets_read w = (Ok (s_values (sheets w)), w1)
                     ∧ s_values (sheets w1) = s_values (sheets w)
                     ∧ s_calls (sheets w1) = s_calls (sheets w)).
  { unfold sheets_read. destruct (s_faults (sheets w)) as [|[] rest];
      [by eexists|done|by eexists]. }
  destruct Hr as (w1 & E1 & Hv1 & Hc1).
  assert (Hext : ∀ w2, sheets w2 = sheets w1 → extends P w w2).
  { intros w2 H2. split; [by rewrite H2|]. exists []. by rewrite H2, app_nil_r. }
  unfold get_existing_source_files, try_catch, bind, keys_in_column. rewrite E1.
  destruct (s_values (sheets w)) as [|headers rows]; [eexists; split; [done|auto]|].
  destruct (index_of column_name headers) as [i|].
  - rewrite log_eq. eexists. split; [done|]. by apply Hext.
  - rewrite log_eq. eexists. split; [done|]. by apply Hext.
Qed.

Lemma get_existing_source_files_faults column_name w :
  key_read_succeeds w →
  sheets (get_existing_source_files column_name w).2
  = Sheets (s_values (sheets w)) (tail (s_faults (sheets w))) (s_calls (sheets w)).
Proof.
  intros Hread. unfold key_read_succeeds in Hread.
  unfold get_existing_source_files, try_catch, bind, sheets_read.
  destruct (sheets w) as [grid faults calls] eqn:Hs.
  cbn [s_faults s_values s_calls] in *.
  destruct faults as [|[] rest]; [|done|];
    (destruct grid as [|headers rows]; [|destruct (index_of column_name headers)]);
    rewrite ?log_eq; cbn [snd sheets set_logs set_ticks set_sheets tail ret];
    rewrite ?Hs; done.
Qed.

(** What [get_sheet_headers] returns in [w]: nothing when the read
    raises, else the cells of the range [A1:Z1]. *)
Definition header_read (w : world) : list string :=
  match s_faults (sheets w) with
  | true :: _ => []
  | _ => match range_A1_Z1 (s_values (sheets w)) with
         | row :: _ => row
         | [] => []
         end
  end.

Lemma get_sheet_headers_run P w :
  ∃ w', get_sheet_headers w = (Ok (header_read w), w') ∧ extends P w w'.
Proof.
  unfold get_sheet_headers, header_read, try_catch, bind, sheets_read.
  assert (Hext : ∀ w2, s_values (sheets w2) = s_values (sheets w) →
                       s_calls (sheets w2) = s_calls (sheets w) → extends P w w2).
  { intros w2 Hv Hc. split; [done|]. exists []. by rewrite app_nil_r. }
  destruct (s_faults (sheets w)) as [|[] rest].
  - destruct (range_A1_Z1 _); eexists; (split; [done|]); by apply Hext.
  - rewrite log_eq. eexists. split; [done|]. by apply Hext.
  - destruct (range_A1_Z1 _); eexists; (split; [done|]); by apply Hext.
Qed.

(** The header of the run that starts in [w]: the reconciliation of the
    header row as the run reads it.  The read of the header row is the
    second call of the run to the spreadsheet, after the read of the
    existing keys. *)
Definition run_headers (w : world) : list string :=
  reconciled
    (header_read
       (set_sheets (Sheets (s_values (sheets w)) (tail (s_faults (sheets w)))
                      (s_calls (sheets w))) w)).

Lemma extends_bind_keeps {A B} P (m : M A) (k : A → M B) w :
  keeps sheets m →
  (∀ a w1, sheets w1 = sheets w → extends P w1 (k a w1).2) →
  extends P w (bind m k w).2.
Proof.
  intros Hm Hk. unfold bind. pose proof (Hm w) as Hs.
  destruct (m w) as [[a|e] w1]; cbn [snd] in *.
  - eapply extends_trans; [by apply extends_refl|by apply Hk].
  - by apply extends_refl.
Qed.

Lemma extends_bind_value {A B} P (V : A → Prop) (m : M A) (k : A → M B) w :
  keeps sheets m →
  (∀ w0, match (m w0).1 with Ok a => V a | Raise _ => True end) →
  (∀ a w1, V a → sheets w1 = sheets w → extends P w1 (k a w1).2) →
  extends P w (bind m k w).2.
Proof.
  intros Hm HV Hk. unfold bind. pose proof (Hm w) as Hs. specialize (HV w).
  destruct (m w) as [[a|e] w1]; cbn [fst snd] in *.
  - eapply extends_trans; [by apply extends_refl|by apply Hk].
  - by apply extends_refl.
Qed.

Lemma extends_try_catch_keeps {A} P (body : M A) (handler : exn → M A) w :
  extends P w (body w).2 → (∀ e, keeps sheets (handler e)) →
  extends P w (try_catch body handler w).2.
Proof.
  intros Hb Hh. unfold try_catch. destruct (body w) as [[a|e] w1]; cbn [snd] in *;
    [done|].
  eapply extends_trans; [done|]. apply extends_refl, Hh.
Qed.

Lemma Forall_py_slice_to {A} (Q : A → Prop) m (l : list A) :
  Forall Q l → Forall Q (py_slice_to m l).
Proof. intros H. unfold py_slice_to. destruct (0 <=? m)%Z; by apply Forall_take. Qed.

Lemma total_process_payment_advice_workflow config :
  total (process_payment_advice_workflow config).
Proof.
  intros w. unfold process_payment_advice_workflow.
  destruct (negb (l_available (llama w))).
  - apply total_bind; [auto with total|]. intros _. auto with total.
  - apply total_try_catch. intros e. auto with total.
Qed.

Lemma process_payment_advice_workflow_extends config w :
  key_read_succeeds w →
  extends (good_call (keys_in_column "source_file_name" (s_values (sheets w)))
                     (run_headers w))
          w (process_payment_advice_workflow config w).2.
Proof.
  intros Hread. set (K := keys_in_column _ _). set (P := good_call K (run_headers w)).
  unfold process_payment_advice_workflow.
  destruct (negb (l_available (llama w))).
  { apply extends_refl.
    apply (keeps_bind sheets); [auto with keeps|intros _; apply keeps_ret]. }
  apply extends_try_catch_keeps; [|intros e; keeps_auto].
  apply extends_bind_keeps; [auto with keeps|]. intros _ w1 H1.
  apply extends_bind_keeps; [auto with keeps|]. intros _ w2 H2.
  apply extends_bind_keeps; [apply keeps_read|]. intros agent w3 H3.
  destruct (negb agent).
  { apply extends_refl.
    apply (keeps_bind sheets); [auto with keeps|intros _; apply keeps_ret]. }
  apply extends_bind_keeps; [auto with keeps|]. intros _ w4 H4.
  apply extends_bind_keeps; [auto with keeps|]. intros _ w5 H5.
  apply extends_bind_keeps; [auto with keeps|]. intros _ w6 H6.
  apply extends_bind_keeps; [auto with keeps|]. intros gmail_folder_id w7 H7.
  apply extends_bind_keeps; [auto with keeps|]. intros pdfs_folder_id w8 H8.
  assert (Hs8 : sheets w8 = sheets w) by congruence.
  destruct (get_existing_source_files_run P "source_file_name" w8)
    as (w9 & E9 & Hext9).
  { unfold key_read_succeeds. by rewrite Hs8. }
  pose proof (get_existing_source_files_faults "source_file_name" w8) as Hs9.
  rewrite E9, Hs8 in Hs9. cbn [snd] in Hs9.
  specialize (Hs9 ltac:(unfold key_read_succeeds; by rewrite Hs8)).
  rewrite Hs8 in E9. fold K in E9.
  unfold bind at 1. rewrite E9.
  eapply extends_trans; [apply Hext9|].
  apply extends_bind_keeps; [auto with keeps|]. intros _ w10 H10.
  apply extends_bind_keeps; [auto with keeps|]. intros _ w11 H11.
  apply extends_bind_keeps; [auto with keeps|]. intros _ w12 H12.
  apply extends_bind_keeps; [auto with keeps|]. intros pdf_files w13 H13.
  cbv zeta.
  apply extends_bind_keeps; [auto with keeps|]. intros _ w14 H14.
  apply (extends_bind_value P (λ files, Forall (λ f, f_name f ∉ K) files)).
  { destruct (pc_max_files config) as [max_files|]; [|apply keeps_ret].
    destruct (max_files <? _)%Z; [|apply keeps_ret]. keeps_auto. }
  { intros w0.
    assert (Hfil : Forall (λ f, f_name f ∉ K)
                          (filter (λ f, f_name f ∉ K) pdf_files)).
    { apply Forall_forall. by intros f [Hf _]%list_elem_of_filter. }
    destruct (pc_max_files config) as [max_files|]; [|done].
    destruct (max_files <? _)%Z; [|done].
    cbv zeta. unfold bind. rewrite log_eq. cbn [fst ret].
    by apply Forall_py_slice_to. }
  intros files w15 Hfiles H15. destruct files as [|f files].
  { apply extends_refl.
    apply (keeps_bind sheets); [auto with keeps|intros _; apply keeps_ret]. }
  assert (Hs15 : sheets w15 = sheets w9) by congruence.
  destruct (get_sheet_headers_run P w15) as (w16 & E16 & Hext16).
  assert (Hhead : reconciled (header_read w15) = run_headers w).
  { unfold run_headers, header_read. rewrite Hs15, Hs9. done. }
  unfold bind at 1. rewrite E16.
  eapply extends_trans; [apply Hext16|].
  match goal with |- extends _ _ (?m _).2 =>
    assert (Hspec : spec (extends P) (λ _, True) m); [|apply Hspec] end.
  eapply spec_bind; [by apply spec_reconcile_headers|]. intros headers ->.
  rewrite Hhead.
  eapply spec_bind; [spec_leaf|intros _ _].
  eapply spec_bind; [by apply spec_process_pdfs|].
  intros stats _. repeat spec_step; spec_leaf.
Qed.

(** C1, as the code has it: the workflow never raises, and when the
    read of the existing keys does not raise, every row the spreadsheet
    accepts during the run is laid out along the header of the run,
    which includes "source_file_name", and the cell of the row under
    that header holds the source file name of the row, the name of a
    file that is not among the non-empty values of that column as the
    run found it. *)
Theorem ingestion_skips_existing_keys (config : pay_config) (w : world) :
  ∃ stats w',
    process_payment_advice_workflow config w = (Ok stats, w')
    ∧ (key_read_succeeds w →
       ∃ idx,
         index_of "source_file_name" (run_headers w) = Some idx
         ∧ ∀ row, row ∈ appended_since w w' →
             ∃ row_dict name,
               row = row_values (run_headers w) row_dict
               ∧ dict_get row_dict "source_file_name" (PStr "") = PStr name
               ∧ row !! idx = Some (PStr name)
               ∧ ¬ key_present "source_file_name" name (s_values (sheets w))).
Proof.
  destruct (total_process_payment_advice_workflow config w) as (stats & w' & E).
  exists stats, w'. split; [done|]. intros Hread.
  destruct (index_of_str_in "source_file_name" (run_headers w)) as [idx Hidx];
    [apply reconciled_has_key|].
  exists idx. split; [done|]. intros row Hrow.
  pose proof (process_payment_advice_workflow_extends config w Hread) as Hext.
  rewrite E in Hext. cbn [snd] in Hext. destruct Hext as [_ (new & Hcalls & Hnew)].
  unfold appended_since in Hrow. rewrite Hcalls, drop_app_length in Hrow.
  apply list_elem_of_In, in_concat in Hrow as (rows & Hrows & Hin).
  apply list_elem_of_In in Hrows, Hin.
  apply list_elem_of_omap in Hrows as ([c ok] & Hc & Hsome).
  destruct c as [col vals|rows']; [done|]. destruct ok; [|done].
  injection Hsome as <-.
  eapply Forall_forall in Hnew; [|apply Hc]. cbn [good_call] in Hnew.
  eapply Forall_forall in Hnew; [|apply Hin].
  destruct Hnew as (row_dict & name & -> & Hname & Hfresh).
  exists row_dict, name. split; [done|]. split; [done|].
  destruct (row_values_aligned (run_headers w) row_dict) as [Hlen Hcell].
  split.
  - rewrite (Hcell idx _ (index_of_lookup _ _ _ Hidx)). by rewrite Hname.
  - intros Hpresent. apply Hfresh. by apply keys_in_column_spec.
Qed.

(** * Further properties of the code

    ** File names *)

(** Every character of [s] satisfies [ok]. *)
Fixpoint all_chars (ok : ascii → bool) (s : string) : bool :=
  match s with
  | EmptyString => true
  | String c s' => ok c && all_chars ok s'
  end.

Lemma all_chars_app ok s1 s2 :
  all_chars ok s1 = true → all_chars ok s2 = true →
  all_chars ok (s1 ++ s2)%string = true.
Proof.
  induction s1 as [|c s1 IH]; simpl; [done|].
  intros [Hc H1]%andb_true_iff H2. by rewrite Hc, IH.
Qed.

Lemma all_chars_substring ok s : ∀ n m,
  all_chars ok s = true → all_chars ok (substring n m s) = true.
Proof.
  induction s as [|c s IH]; intros n m; simpl.
  - by destruct n, m.
  - intros [Hc Hs]%andb_true_iff. destruct n as [|n].
    + destruct m as [|m]; simpl; [done|]. by rewrite Hc, IH.
    + by apply IH.
Qed.

Lemma all_chars_replaced s :
  all_chars (λ c, negb (unsafe_char c))
            (map_string (λ c, if unsafe_char c then "_"%char else c) s) = true.
Proof.
  induction s as [|c s IH]; simpl; [done|]. rewrite IH, andb_true_r.
  by destruct (unsafe_char c) eqn:E; [|rewrite E].
Qed.

Lemma all_chars_contains ok s c :
  all_chars ok s = true → ok c = false → contains_char c s = false.
Proof.
  induction s as [|c' s IH]; simpl; [done|].
  intros [Hc Hs]%andb_true_iff Hno. destruct (Ascii.eqb c c') eqn:E; [|auto].
  apply Ascii.eqb_eq in E. subst. congruence.
Qed.

Lemma length_map_string f s : String.length (map_string f s) = String.length s.
Proof. induction s as [|c s IH]; simpl; [done|]. by rewrite IH. Qed.

Lemma length_substring_0 s : ∀ n,
  String.length (substring 0 n s) = Nat.min n (String.length s).
Proof.
  induction s as [|c s IH]; intros [|n]; simpl; try done. by rewrite IH.
Qed.

Lemma last_dot_replaced s :
  contains_char "." s = false →
  last_dot (map_string (λ c, if unsafe_char c then "_"%char else c) s) = None.
Proof.
  induction s as [|c s IH]; cbn [contains_char last_dot map_string]; [done|].
  destruct (Ascii.eqb "." c) eqn:E; [done|]. intros Hs. rewrite (IH Hs).
  destruct (unsafe_char c); [done|].
  destruct (Ascii.eqb c ".") eqn:E'; [|done].
  apply Ascii.eqb_eq in E'. subst c. by rewrite Ascii.eqb_refl in E.
Qed.

(** X1: a sanitized file name holds none of the characters the
    regular expression replaces; a name of at most 100 characters keeps
    its length; a longer name without a dot is cut to 100 characters. *)
Theorem sanitize_filename_safe (filename : string) :
  (∀ c, unsafe_char c = true →
        contains_char c (sanitize_filename filename) = false)
  ∧ ((String.length filename ≤ 100)%nat →
     String.length (sanitize_filename filename) = String.length filename)
  ∧ ((100 < String.length filename)%nat → contains_char "." filename = false →
     String.length (sanitize_filename filename) = 100%nat).
Proof.
  unfold sanitize_filename.
  set (cleaned := map_string _ filename).
  assert (Hlen : String.length cleaned = String.length filename)
    by apply length_map_string.
  assert (Hsafe : all_chars (λ c, negb (unsafe_char c)) cleaned = true)
    by apply all_chars_replaced.
  split_and!.
  - intros c Hc.
    apply (all_chars_contains (λ c, negb (unsafe_char c))); [|by rewrite Hc].
    destruct (100 <? String.length cleaned)%nat; [|done].
    destruct (last_dot cleaned) as [i|].
    + apply all_chars_app; [by do 2 apply all_chars_substring|].
      apply (all_chars_app _ "."); [done|]. by apply all_chars_substring.
    + by apply all_chars_substring.
  - intros Hshort. rewrite Hlen.
    by destruct (Nat.ltb_spec 100 (String.length filename)); [lia|].
  - intros Hlong Hdot. rewrite Hlen.
    destruct (Nat.ltb_spec 100 (String.length filename)); [|lia].
    assert (Hnone : last_dot cleaned = None)
      by (subst cleaned; by apply last_dot_replaced).
    rewrite Hnone, length_substring_0. lia.
Qed.

(** ** Alias resolution *)

(** The key [k] does not hold a value of the wanted type in [data]. *)
Definition misses (is_type : pyval → bool) (data : pydict) (k : string) : Prop :=
  dict_mem data k && is_type (dict_get data k PNone) = false.

(** X2: the lookup over candidate keys returns the value under the
    first key, in the order of the list, that is present with a value
    of the wanted type, whatever the later keys hold; it returns
    nothing exactly when every candidate misses. *)
Theorem first_of_type_priority (is_type : pyval → bool) (data : pydict)
    (keys : list string) :
  match first_of_type is_type data keys with
  | Some v =>
      ∃ before key after,
        keys = before ++ key :: after
        ∧ Forall (misses is_type data) before
        ∧ dict_mem data key = true
        ∧ is_type v = true
        ∧ v = dict_get data key PNone
  | None => Forall (misses is_type data) keys
  end.
Proof.
  induction keys as [|key keys IH]; cbn [first_of_type]; [constructor|].
  destruct (dict_mem data key && is_type (dict_get data key PNone)) eqn:E.
  - apply andb_true_iff in E as [Hmem Htype].
    exists [], key, keys. by split_and!.
  - destruct (first_of_type is_type data keys) as [v|].
    + destruct IH as (before & k & after & -> & Hbefore & Hmem & Htype & ->).
      exists (key :: before), k, after. split_and!; try done. by constructor.
    + by constructor.
Qed.

(** ** Dates *)

(** X3: for an integer serial the conversion gives the date that many
    days after 1899-12-30 when the day count fits a [timedelta] and the
    date lies in the years 1 to 9999, and returns the integer unchanged
    otherwise. *)
Theorem excel_date_to_string_int (n : Z) :
  excel_date_to_string (PInt n) =
  Ok (if (Z.abs n <=? 999999999)%Z && (1 <=? 693594 + n)%Z
         && (693594 + n <=? 3652059)%Z
      then PStr (strftime_d_b_Y (DateTime (693594 + n) 0))
      else PInt n).
Proof.
  unfold excel_date_to_string, excel_date_body. cbn [is_number py_int rbind].
  unfold timedelta_days.
  destruct (Z.abs n <=? 999999999)%Z; cbn [rbind try_except andb]; [|done].
  unfold datetime_add_days.
  change (dt_ordinal excel_epoch) with 693594%Z.
  change Calendar.max_ordinal with 3652059%Z.
  change (dt_second excel_epoch) with 0%Z.
  by destruct ((1 <=? 693594 + n)%Z && (693594 + n <=? 3652059)%Z).
Qed.

(** X4: a string without a date separator that reads as a float is
    converted like that float; when the float cannot become a day count
    (not a number, or infinite) the function returns the float, not the
    string it was given. *)
Theorem excel_date_to_string_numeric_string (s : string) (f : float) :
  contains_char "-" s || contains_char "/" s = false →
  float_of_str s = Some f →
  excel_date_to_string (PStr s) = excel_date_to_string (PFloat f)
  ∧ (raises (Z_of_float f) = true → excel_date_to_string (PStr s) = Ok (PFloat f)).
Proof.
  intros Hsep Hf.
  assert (E : excel_date_to_string (PStr s) = excel_date_to_string (PFloat f)).
  { unfold excel_date_to_string, excel_date_body. rewrite Hsep.
    cbn [py_float]. by rewrite Hf. }
  split; [done|]. intros Hr. rewrite E.
  unfold excel_date_to_string, excel_date_body. cbn [is_number py_int].
  by destruct (Z_of_float f).
Qed.

(** ** Line-item numbering *)

(** The numbers [enumerate(bill_details, i)] gives to the entries that
    are mappings. *)
Fixpoint mapping_positions (i : Z) (bill_details : list pyval) : list Z :=
  match bill_details with
  | [] => []
  | b :: rest =>
      if is_dict b then i :: mapping_positions (i + 1) rest
      else mapping_positions (i + 1) rest
  end.

Lemma bill_rows_sequence di dd tp fi total_n bills : ∀ i w items w',
  bill_rows di dd tp fi total_n i bills w = (Ok items, w') →
  map (λ r, dict_get r "bill_sequence" PNone) items
    = map PInt (mapping_positions i bills)
  ∧ Forall (λ r, dict_get r "total_bills" PNone = PInt total_n) items.
Proof.
  induction bills as [|b bills IH]; intros i w items w'.
  - cbn. by intros [= <- <-].
  - assert (Hskip : is_dict b = false →
      bill_rows di dd tp fi total_n i (b :: bills) w
      = bill_rows di dd tp fi total_n (i + 1) bills w) by (by destruct b).
    destruct (is_dict b) eqn:Hb.
    + destruct b as [| | | | | |bill]; try done. clear Hskip.
      cbn [bill_rows mapping_positions is_dict].
      destruct (excel_date_to_string_total
        (dict_get bill "bill_document_date" (dict_get bill "date" (PStr ""))))
        as (bdd & Hbdd).
      unfold bind at 1. unfold lift. rewrite Hbdd.
      unfold bind at 1. unfold now at 1. unfold bind at 1.
      destruct (bill_rows di dd tp fi total_n (i + 1) bills _)
        as [[others|e] w1] eqn:E; [|done].
      intros [= <- <-]. destruct (IH _ _ _ _ E) as [Hseq Htot].
      split; [cbn; by rewrite Hseq|]. by constructor.
    + rewrite Hskip by done. cbn [mapping_positions]. rewrite Hb. apply IH.
Qed.

(** X5: when the normalizer emits rows, the document row reports as
    payment count the length of the list of line items, entries that are
    not mappings included; every line-item row reports the same number
    as total, and its sequence number is the 1-based position of its
    entry in that list, so the numbers skip the entries that are not
    mappings. *)
Theorem parse_extracted_data_numbering (data : pydict) (file_info : drive_file)
    (w w' : world) (document_row : pydict) (items : list pydict) :
  parse_extracted_data data file_info w = (Ok (document_row :: items), w') →
  let bills := find_bill_details data in
  dict_get document_row "payment_count" PNone = PInt (Z.of_nat (length bills))
  ∧ map (λ r, dict_get r "bill_sequence" PNone) items
      = map PInt (mapping_positions 1 bills)
  ∧ Forall (λ r, dict_get r "total_bills" PNone = PInt (Z.of_nat (length bills))) items.
Proof.
  intros E bills. unfold parse_extracted_data in E. cbv zeta in E.
  fold bills in E.
  destruct (bill_loop bills (PInt 0, PInt 0, PInt 0)) as [[[tb tn] td]|e] eqn:Hsum.
  - destruct (excel_date_to_string_total
      (dict_get (document_info_or_root data (find_document_info data)) "date" (PStr "")))
      as (doc_date & Hdate).
    destruct (bill_rows_run (document_info_or_root data (find_document_info data))
                doc_date (payment_loop (find_payment_mode_details data) (PInt 0))
                file_info (Z.of_nat (length bills)) bills 1%Z
                (set_ticks (S (ticks w)) w))
      as (items' & w1 & E' & _).
    unfold try_catch, bind, lift, now in E. rewrite Hdate, E' in E.
    rewrite log_eq in E. injection E as <- <- _.
    destruct (bill_rows_sequence _ _ _ _ _ _ _ _ _ _ E') as [Hseq Htot].
    by split_and!.
  - unfold try_catch, bind, lift in E. rewrite log_eq in E. by injection E.
Qed.

(** ** Extraction with retries *)

Lemma extract_attempts_fail path : ∀ attempts w,
  Forall (λ r, raises r = true) (take (length attempts) (l_extract (llama w))) →
  ∃ w', extract_attempts 3 2 path attempts w = (Raise ServiceError, w')
    ∧ slept w' = slept w ++ repeat 2%Z (length attempts)
    ∧ l_extract (llama w') = drop (length attempts) (l_extract (llama w)).
Proof.
  induction attempts as [|a attempts IH]; intros w Hall.
  - cbn. exists w. by rewrite app_nil_r.
  - cbn [extract_attempts]. unfold try_catch, agent_extract.
    destruct (l_extract (llama w)) as [|r tail] eqn:Hscript.
    + unfold bind at 1. rewrite log_eq. unfold bind at 1, sleep at 1.
      set (w1 := set_slept _ _).
      destruct (IH w1) as (w' & E & Hs & Hl).
      { change (l_extract (llama w1)) with (l_extract (llama w)).
        rewrite Hscript. by rewrite take_nil. }
      exists w'. rewrite E. split; [done|]. rewrite Hs, Hl.
      change (l_extract (llama w1)) with (l_extract (llama w)). rewrite Hscript.
      rewrite !drop_nil. split; [|done]. subst w1. cbn. by rewrite <- app_assoc.
    + cbn in Hall. apply Forall_cons in Hall as [Hr Hall].
      destruct r as [d|e]; [done|].
      unfold bind at 1. rewrite log_eq. unfold bind at 1, sleep at 1.
      set (w1 := set_slept _ _).
      destruct (IH w1) as (w' & E & Hs & Hl); [done|].
      exists w'. rewrite E. split; [done|]. rewrite Hs, Hl.
      split; [|done]. subst w1. cbn. by rewrite <- app_assoc.
Qed.

Lemma extract_attempts_ok path (failing : list (result pydict)) d rest :
  ∀ attempts w,
  l_extract (llama w) = failing ++ Ok d :: rest →
  Forall (λ r, raises r = true) failing →
  (length failing < length attempts)%nat →
  ∃ w', extract_attempts 3 2 path attempts w = (Ok d, w')
    ∧ slept w' = slept w ++ repeat 2%Z (length failing)
    ∧ l_extract (llama w') = rest.
Proof.
  induction failing as [|r failing IH]; intros attempts w Hscript Hall Hlt;
    (destruct attempts as [|a attempts]; [simpl in Hlt; lia|]);
    cbn [extract_attempts]; unfold try_catch, agent_extract; rewrite Hscript.
  - cbn. eexists. split; [done|]. by rewrite app_nil_r.
  - apply Forall_cons in Hall as [Hr Hall]. destruct r as [d0|e]; [done|].
    cbn [app]. unfold bind at 1. rewrite log_eq. unfold bind at 1, sleep at 1.
    set (w1 := set_slept _ _).
    destruct (IH attempts w1) as (w' & E & Hs & Hl); [done|done|simpl in Hlt; lia|].
    exists w'. rewrite E. split; [done|]. split; [|done].
    rewrite Hs. subst w1. cbn. by rewrite <- app_assoc.
Qed.

(** X6: the extraction is tried at most three times.  When one of the
    first three calls to the agent succeeds, the result of the first
    success is returned and nothing is asked of the agent after it; when
    the first three calls all fail, the function raises.  Every failed
    call, the third included, is followed by a sleep of two seconds. *)
Theorem safe_extract_retries (file_path : string) (w : world) :
  let script := l_extract (llama w) in
  (∀ failing d rest,
     script = failing ++ Ok d :: rest →
     Forall (λ r, raises r = true) failing →
     (length failing < 3)%nat →
     ∃ w', safe_extract file_path w = (Ok d, w')
       ∧ slept w' = slept w ++ repeat 2%Z (length failing)
       ∧ l_extract (llama w') = rest)
  ∧ (Forall (λ r, raises r = true) (take 3 script) →
     ∃ w', safe_extract file_path w = (Raise ServiceError, w')
       ∧ slept w' = slept w ++ [2; 2; 2]%Z
       ∧ l_extract (llama w') = drop 3 script).
Proof.
  intros script. unfold safe_extract. cbv zeta.
  change (py_range 1 (3 + 1)) with [1; 2; 3]%Z. split.
  - intros failing d rest Hscript Hall Hlt.
    by apply (extract_attempts_ok file_path failing d rest).
  - intros Hall. by apply (extract_attempts_fail file_path [1; 2; 3]%Z).
Qed.

(** ** Folders and uploads under faults *)

(** The existence check of [create_drive_folder]. *)
Definition folder_query (folder_name parent_folder_id : string) : drive_query :=
  let query := QAnd (QName folder_name) (QAnd (QMime folder_mime) QNotTrashed) in
  if non_empty parent_folder_id then QAnd query (QInParents parent_folder_id)
  else query.

Definition folders (folder_name parent_folder_id : string) (w : world)
  : list drive_file :=
  filter (λ f, matches (folder_query folder_name parent_folder_id) f = true)
         (d_files (drive w)).

Lemma create_drive_folder_existing name parent w f fs :
  drive_reliable w → folders name parent w = f :: fs →
  ∃ w', create_drive_folder name parent w = (Ok (f_id f), w')
    ∧ drive_reliable w'
    ∧ d_files (drive w') = d_files (drive w).
Proof.
  intros Hrel Hex. destruct (drive_call_reliable w Hrel) as (w1 & E1 & Hrel1 & Hf1 & _).
  unfold create_drive_folder, try_catch, files_list, bind. cbv zeta. rewrite E1.
  unfold folders, folder_query in Hex. cbv zeta in Hex. rewrite <- Hf1 in Hex.
  rewrite Hex. rewrite log_eq. eexists. split; [done|]. by simpl.
Qed.

Lemma create_drive_folder_fresh name parent w :
  drive_reliable w → folders name parent w = [] →
  ∃ w' f, create_drive_folder name parent w = (Ok (f_id f), w')
    ∧ drive_reliable w'
    ∧ d_files (drive w') = d_files (drive w) ++ [f]
    ∧ folders name parent w' = [f].
Proof.
  intros Hrel Hex. destruct (drive_call_reliable w Hrel) as (w1 & E1 & Hrel1 & Hf1 & _).
  destruct (drive_call_reliable w1 Hrel1) as (w2 & E2 & Hrel2 & Hf2 & _).
  unfold create_drive_folder, try_catch, files_list, files_create, bind. cbv zeta.
  rewrite E1.
  unfold folders, folder_query in *. cbv zeta in *. rewrite <- Hf1 in Hex.
  rewrite Hex. rewrite E2. rewrite log_eq.
  eexists _, (DriveFile ("file" ++ str_of_Z (Z.of_nat (d_next (drive w2)))) name
                folder_mime (if non_empty parent then [parent] else [])
                (clock w2 (ticks w2)) false "").
  split; [reflexivity|]. unfold drive_reliable in *.
  cbn [snd drive set_logs set_ticks set_drive d_files d_faults].
  split; [done|]. split; [by rewrite Hf2, Hf1|].
  unfold folders, folder_query. cbv zeta.
  cbn [snd drive set_logs set_ticks set_drive d_files d_faults].
  rewrite Hf2, filter_app, Hex. cbn [app]. rewrite filter_cons, decide_True; [done|].
  destruct (non_empty parent); cbn; rewrite ?String.eqb_refl; done.
Qed.

(** X7: when no call to the store raises, [create_drive_folder] finds or
    creates: two calls in a row for one name and parent return the same
    id, the second call creates nothing, and the first creates at most
    one file, and none when a folder of that name is there already. *)
Theorem create_drive_folder_twice (folder_name parent_folder_id : string) (w : world) :
  drive_reliable w →
  ∃ id w1 w2,
    create_drive_folder folder_name parent_folder_id w = (Ok id, w1)
    ∧ create_drive_folder folder_name parent_folder_id w1 = (Ok id, w2)
    ∧ d_files (drive w2) = d_files (drive w1)
    ∧ (folders folder_name parent_folder_id w ≠ [] →
       d_files (drive w1) = d_files (drive w))
    ∧ (folders folder_name parent_folder_id w = [] →
       ∃ f, d_files (drive w1) = d_files (drive w) ++ [f]
            ∧ f_id f = id ∧ f_name f = folder_name ∧ f_mime f = folder_mime).
Proof.
  intros Hrel. destruct (folders folder_name parent_folder_id w) as [|f fs] eqn:Hfs.
  - destruct (create_drive_folder_fresh _ _ w Hrel Hfs)
      as (w1 & f & E1 & Hrel1 & Hf1 & Hfs1).
    destruct (create_drive_folder_existing _ _ w1 f [] Hrel1 Hfs1)
      as (w2 & E2 & Hrel2 & Hf2).
    exists (f_id f), w1, w2. split_and!; try done.
    intros _. exists f. split; [done|]. split; [done|].
    assert (Hin : f ∈ folders folder_name parent_folder_id w1)
      by (rewrite Hfs1; apply list_elem_of_singleton; done).
    apply list_elem_of_filter in Hin as [Hm _].
    unfold folder_query in Hm. cbv zeta in Hm.
    destruct (non_empty parent_folder_id); cbn [matches] in Hm;
      rewrite !andb_true_iff in Hm; destruct_and!;
      split; by apply String.eqb_eq.
  - destruct (create_drive_folder_existing _ _ w f fs Hrel Hfs)
      as (w1 & E1 & Hrel1 & Hf1).
    destruct (create_drive_folder_existing folder_name parent_folder_id w1 f fs Hrel1)
      as (w2 & E2 & Hrel2 & Hf2).
    { unfold folders in *. by rewrite Hf1. }
    exists (f_id f), w1, w2. split_and!; done.
Qed.

Lemma drive_call_files w : d_files (drive (drive_call w).2) = d_files (drive w).
Proof. unfold drive_call. by destruct (d_faults (drive w)) as [|[] rest]. Qed.

(** X8: whatever the faults of the store and whatever the name,
    [upload_to_drive] does not raise; it leaves the files of the store
    as they are or adds one file, and that file carries the name and
    the data of the upload.  After [False] the files are as they were.
    For a name and a folder id without quote and backslash, a file is
    added only when the name was not in the folder, and after [True],
    with a folder id that is not empty, the store holds the name in the
    folder. *)
Theorem upload_to_drive_safe (file_data filename folder_id : string) (w : world) :
  ∃ b w',
    upload_to_drive file_data filename folder_id w = (Ok b, w')
    ∧ (d_files (drive w') = d_files (drive w)
       ∨ ∃ f, d_files (drive w') = d_files (drive w) ++ [f]
              ∧ b = true
              ∧ f_name f = filename ∧ f_data f = file_data
              ∧ (plain filename && plain folder_id = true →
                 stored filename folder_id w = []))
    ∧ (b = false → d_files (drive w') = d_files (drive w))
    ∧ (b = true → plain filename && plain folder_id = true →
       non_empty folder_id = true → stored filename folder_id w' ≠ []).
Proof.
  unfold upload_to_drive, files_named.
  destruct (plain filename && plain folder_id) eqn:Hplain.
  - unfold try_catch, files_list, files_create, bind.
    pose proof (drive_call_files w) as Hf1.
    destruct (drive_call w) as [[[]|e] w1]; cbn [snd] in Hf1.
    2:{ rewrite log_eq. eexists _, _. split; [done|].
        cbn [snd drive set_logs set_ticks]. rewrite Hf1. split_and!; auto. }
    destruct (filter _ (d_files (drive w1))) as [|f0 fs] eqn:Hst.
    + pose proof (drive_call_files w1) as Hf2.
      destruct (drive_call w1) as [[[]|e] w2]; cbn [snd] in Hf2.
      2:{ rewrite log_eq. eexists _, _. split; [done|].
          cbn [snd drive set_logs set_ticks]. rewrite Hf2, Hf1. split_and!; auto. }
      rewrite log_eq. eexists _, _. split; [reflexivity|].
      unfold stored.
      cbn [snd drive set_logs set_ticks set_drive d_files].
      rewrite Hf2, Hf1. split_and!.
      * right. eexists. split; [done|]. split_and!; try done.
        intros _. rewrite <- Hf1, Hst. done.
      * done.
      * intros _ _ Hfolder. rewrite filter_app.
        rewrite (filter_cons _ _ []), decide_True.
        -- by destruct (filter _ (d_files (drive w))).
        -- cbn [matches f_name f_parents f_trashed]. rewrite Hfolder.
           cbn [existsb negb]. by rewrite !String.eqb_refl.
    + rewrite log_eq. eexists _, _. split; [done|]. unfold stored.
      cbn [snd drive set_logs set_ticks]. rewrite Hf1.
      split; [by left|]. split; [done|]. intros _ _ _. rewrite <- Hf1, Hst. done.
  - unfold try_catch, files_create, bind.
    pose proof (drive_call_files w) as Hf1.
    destruct (drive_call w) as [[[]|e] w1]; cbn [snd] in Hf1.
    2:{ rewrite log_eq. eexists _, _. split; [done|].
        cbn [snd drive set_logs set_ticks]. rewrite Hf1. split_and!; auto. }
    destruct (quoted_query (d_files (drive w1)) filename folder_id) as [[|f0 fs]|e].
    + pose proof (drive_call_files w1) as Hf2.
      destruct (drive_call w1) as [[[]|e] w2]; cbn [snd] in Hf2.
      2:{ rewrite log_eq. eexists _, _. split; [done|].
          cbn [snd drive set_logs set_ticks]. rewrite Hf2, Hf1. split_and!; auto. }
      rewrite log_eq. eexists _, _. split; [reflexivity|].
      cbn [snd drive set_logs set_ticks set_drive d_files].
      rewrite Hf2, Hf1. split_and!; try done.
      right. eexists. split; [done|]. by split_and!.
    + rewrite log_eq. eexists _, _. split; [done|].
      cbn [snd drive set_logs set_ticks]. rewrite Hf1. split_and!; auto.
    + rewrite log_eq. eexists _, _. split; [done|].
      cbn [snd drive set_logs set_ticks]. rewrite Hf1. split_and!; auto.
Qed.

(** ** The totals of a document *)

(** One addition of the three amounts of a line item to the totals. *)
Definition add_amounts (bill_amount net_amount tds_amount : pyval) (t : totals)
  : result totals :=
  let '(total_bill_amount, total_net_amount, total_tds) := t in
  rbind (add_amount total_bill_amount bill_amount) (λ total_bill_amount,
  rbind (add_amount total_net_amount net_amount) (λ total_net_amount,
  rbind (add_amount total_tds tds_amount) (λ total_tds,
  Ok (total_bill_amount, total_net_amount, total_tds)))).

(** A pass over the line items that adds the amounts of each mapping
    once. *)
Fixpoint sum_bills (bill_details : list pyval) (t : totals) : result totals :=
  match bill_details with
  | [] => Ok t
  | PDict bill :: rest =>
      rbind (add_amounts
               (dict_get bill "bill_amount" (dict_get bill "amount" (PInt 0)))
               (dict_get bill "net_amount" (dict_get bill "net_amount" (PInt 0)))
               (dict_get bill "deduction_tds" (dict_get bill "tds" (PInt 0))) t)
            (sum_bills rest)
  | _ :: rest => sum_bills rest t
  end.

Lemma rbind_assoc {A B C} (r : result A) (k : A → result B) (k' : B → result C) :
  rbind (rbind r k) k' = rbind r (λ a, rbind (k a) k').
Proof. by destruct r. Qed.

Lemma val_loop_three a n d t :
  val_loop [a; n; d] a n d t
  = rbind (add_amounts a n d t) (λ t1,
    rbind (add_amounts a n d t1) (add_amounts a n d)).
Proof.
  destruct t as [[tb tn] td]. cbn [val_loop add_amounts rbind].
  repeat match goal with
         | |- context [add_amount ?x ?y] =>
             destruct (add_amount x y); cbn [val_loop add_amounts rbind]; try done
         end.
Qed.

(** X9: the totals the loop over the line items computes are those of
    a pass that adds every amount once, run over the line items with
    each of them repeated three times: every amount enters its total
    three times. *)
Theorem bill_loop_adds_three_times (bill_details : list pyval) (t : totals) :
  bill_loop bill_details t
  = sum_bills (flat_map (λ bill, [bill; bill; bill]) bill_details) t.
Proof.
  revert t. induction bill_details as [|b bills IH]; intros t; [done|].
  assert (Hskip : is_dict b = false →
    bill_loop (b :: bills) t = bill_loop bills t
    ∧ sum_bills (b :: b :: b :: flat_map (λ bill, [bill; bill; bill]) bills) t
      = sum_bills (flat_map (λ bill, [bill; bill; bill]) bills) t)
    by (by destruct b).
  destruct (is_dict b) eqn:Hb.
  - destruct b as [| | | | | |bill]; try done. clear Hskip.
    cbn [flat_map app bill_loop sum_bills].
    rewrite val_loop_three, !rbind_assoc.
    destruct (add_amounts _ _ _ t) as [t1|]; cbn [rbind]; [|done].
    rewrite !rbind_assoc.
    destruct (add_amounts _ _ _ t1) as [t2|]; cbn [rbind]; [|done].
    destruct (add_amounts _ _ _ t2) as [t3|]; cbn [rbind]; [|done].
    apply IH.
  - destruct (Hskip eq_refl) as [-> Hs]. cbn [flat_map app]. rewrite Hs. apply IH.
Qed.

(** An integer amount that [float] converts without overflow; any other
    value. *)
Definition fits (v : pyval) : Prop :=
  match v with
  | PInt z => raises (float_of_Z z) = false
  | _ => True
  end.

(** The three amounts of a line item that is a mapping fit. *)
Definition amounts_fit (bill : pyval) : Prop :=
  match bill with
  | PDict bill =>
      fits (dict_get bill "bill_amount" (dict_get bill "amount" (PInt 0)))
      ∧ fits (dict_get bill "net_amount" (dict_get bill "net_amount" (PInt 0)))
      ∧ fits (dict_get bill "deduction_tds" (dict_get bill "tds" (PInt 0)))
  | _ => True
  end.

(** A running total: the integer zero it starts from, or a float. *)
Definition running (t : pyval) : Prop := t = PInt 0 ∨ ∃ f, t = PFloat f.

Lemma float_of_Z_0 : float_of_Z 0 = Ok 0%float.
Proof. vm_compute. reflexivity. Qed.

Lemma add_amount_fits total amount :
  running total → fits amount →
  ∃ total', add_amount total amount = Ok total' ∧ running total'.
Proof.
  intros Ht Ha. unfold add_amount.
  assert (Hzero : ∃ total', py_add total (PInt 0) = Ok total' ∧ running total').
  { destruct Ht as [->|[f ->]]; cbn [py_add].
    - eexists. split; [done|]. by left.
    - rewrite float_of_Z_0. cbn [rbind]. eexists. split; [done|]. right. eauto. }
  assert (Hfloat : ∀ f, ∃ total', py_add total (PFloat f) = Ok total' ∧ running total').
  { intros f. destruct Ht as [->|[g ->]]; cbn [py_add].
    - rewrite float_of_Z_0. cbn [rbind]. eexists. split; [done|]. right. eauto.
    - eexists. split; [done|]. right. eauto. }
  destruct amount as [|b|z|f|s|l|d]; cbn [is_number py_float rbind]; try apply Hzero.
  - apply Hfloat.
  - cbn [fits] in Ha. destruct (float_of_Z z) as [f|]; [|done]. apply Hfloat.
  - apply Hfloat.
Qed.

Lemma val_loop_fits vals a n d : ∀ tb tn td,
  fits a → fits n → fits d → running tb → running tn → running td →
  ∃ tb' tn' td', val_loop vals a n d (tb, tn, td) = Ok (tb', tn', td')
    ∧ running tb' ∧ running tn' ∧ running td'.
Proof.
  induction vals as [|v vals IH]; intros tb tn td Ha Hn Hd Hb Hnn Htd.
  - by exists tb, tn, td.
  - cbn [val_loop].
    destruct (add_amount_fits tb a Hb Ha) as (tb1 & -> & Hb1).
    destruct (add_amount_fits tn n Hnn Hn) as (tn1 & -> & Hn1).
    destruct (add_amount_fits td d Htd Hd) as (td1 & -> & Hd1).
    cbn [rbind]. by apply IH.
Qed.

Lemma bill_loop_fits bills : ∀ tb tn td,
  Forall amounts_fit bills → running tb → running tn → running td →
  ∃ t, bill_loop bills (tb, tn, td) = Ok t.
Proof.
  induction bills as [|b bills IH]; intros tb tn td Hall Hb Hn Hd.
  - by eexists.
  - apply Forall_cons in Hall as [Hfit Hall].
    destruct b as [| | | | | |bill]; cbn [bill_loop]; try by apply IH.
    destruct Hfit as (Ha & Hnn & Hdd).
    destruct (val_loop_fits
      [dict_get bill "bill_amount" (dict_get bill "amount" (PInt 0));
       dict_get bill "net_amount" (dict_get bill "net_amount" (PInt 0));
       dict_get bill "deduction_tds" (dict_get bill "tds" (PInt 0))]
      _ _ _ tb tn td Ha Hnn Hdd Hb Hn Hd) as (tb' & tn' & td' & -> & Hb' & Hn' & Hd').
    cbn [rbind]. by apply IH.
Qed.

(** X10: the normalizer emits its rows whenever no amount of a line item
    is an integer beyond the range of a float: an amount that is text, is
    missing or is not a number at all does not stop it. *)
Theorem parse_extracted_data_emits (data : pydict) (file_info : drive_file)
    (w : world) :
  Forall amounts_fit (find_bill_details data) →
  ∃ document_row items w',
    parse_extracted_data data file_info w = (Ok (document_row :: items), w')
    ∧ length items
      = length (filter (λ b, is_dict b = true) (find_bill_details data)).
Proof.
  intros Hall.
  destruct (bill_loop_fits (find_bill_details data) (PInt 0) (PInt 0) (PInt 0) Hall)
    as (t & Ht); [by left..|].
  pose proof (parse_extracted_data_run data file_info w) as H. cbv zeta in H.
  rewrite Ht in H. destruct t as [[tb tn] td].
  destruct H as (doc_date & items & w' & _ & E & Hlen & _).
  by eexists _, items, w'.
Qed.

(** ** Listing the PDFs of a folder *)

Lemma insert_newest_perm f l : insert_newest f l ≡ₚ f :: l.
Proof.
  induction l as [|g l IH]; cbn [insert_newest]; [done|].
  destruct (datetime_leb _ _); [done|]. rewrite IH. apply Permutation_swap.
Qed.

Lemma newest_first_perm l : newest_first l ≡ₚ l.
Proof.
  unfold newest_first. induction l as [|f l IH]; cbn [fold_right]; [done|].
  by rewrite insert_newest_perm, IH.
Qed.

(** X11: [list_drive_files] never raises and leaves the files of the
    store alone.  Every file it returns is a file of the store that
    lies in the folder, is not in the bin, and is a PDF by its type or
    has ".pdf" in its name.  When the call to the store raises, the
    listing is empty. *)
Theorem list_drive_files_sound (folder_id : string) (days_back : Z) (w : world) :
  ∃ files w',
    list_drive_files folder_id days_back w = (Ok files, w')
    ∧ d_files (drive w') = d_files (drive w)
    ∧ (∀ f, f ∈ files →
         f ∈ d_files (drive w)
         ∧ folder_id ∈ f_parents f
         ∧ f_trashed f = false
         ∧ (f_mime f = "application/pdf"%string
            ∨ is_substring ".pdf" (f_name f) = true))
    ∧ (head (d_faults (drive w)) = Some true → files = []).
Proof.
  unfold list_drive_files, files_list, try_catch, bind, lift, now.
  destruct (timedelta_days (days_back - 1)) as [delta|e].
  2:{ rewrite log_eq. eexists _, _. split; [done|]. split; [done|].
      split; [|done]. by intros f Hf%elem_of_nil. }
  destruct (datetime_add_days _ (- delta)) as [start|e].
  2:{ rewrite log_eq. eexists _, _. split; [done|]. split; [done|].
      split; [|done]. by intros f Hf%elem_of_nil. }
  set (w1 := set_ticks _ w).
  pose proof (drive_call_files w1) as Hf1.
  assert (Hfault : head (d_faults (drive w)) = Some true →
                   (drive_call w1).1 = Raise ServiceError).
  { unfold drive_call. change (drive w1) with (drive w).
    by destruct (d_faults (drive w)) as [|[] rest]. }
  destruct (drive_call w1) as [[[]|e] w2]; cbn [fst snd] in *.
  2:{ rewrite log_eq. eexists _, _. split; [done|]. split; [done|].
      split; [|done]. by intros f Hf%elem_of_nil. }
  rewrite log_eq. eexists _, _. split; [done|].
  cbn [snd drive set_logs set_ticks]. split; [done|]. split.
  - intros f Hf. rewrite newest_first_perm in Hf.
    apply list_elem_of_filter in Hf as [Hm Hin]. rewrite Hf1 in Hin.
    split; [done|]. cbn [matches] in Hm.
    rewrite !andb_true_iff, orb_true_iff in Hm.
    destruct Hm as (Hpar & Hpdf & Htr & _). split_and!.
    + apply existsb_exists in Hpar as (p & Hp & ->%String.eqb_eq).
      by apply list_elem_of_In.
    + by destruct (f_trashed f).
    + destruct Hpdf as [Hmime%String.eqb_eq|Hname]; auto.
  - intros Hhead. by specialize (Hfault Hhead).
Qed.

(** ** The keys of the ledger *)

(** X12: [get_existing_source_files] never raises and writes nothing.
    When its read succeeds, the set it returns holds exactly the keys
    that stand in the column; when the read raises, it returns the empty
    set. *)
Theorem get_existing_source_files_exact (column_name : string) (w : world) :
  ∃ keys w',
    get_existing_source_files column_name w = (Ok keys, w')
    ∧ s_calls (sheets w') = s_calls (sheets w)
    ∧ (key_read_succeeds w →
       ∀ k, k ∈ keys ↔ key_present column_name k (s_values (sheets w)))
    ∧ (¬ key_read_succeeds w → keys = ∅).
Proof.
  destruct (decide (head (s_faults (sheets w)) = Some true)) as [Hfail|Hread].
  - unfold get_existing_source_files, try_catch, bind, sheets_read.
    destruct (s_faults (sheets w)) as [|[] rest] eqn:Hs; try done.
    rewrite log_eq. eexists _, _. split; [done|]. split; [done|].
    split; [|done]. intros Hread. unfold key_read_succeeds in Hread.
    by rewrite Hs in Hread.
  - destruct (get_existing_source_files_run (λ _, False) column_name w Hread)
      as (w' & E & _ & new & Hcalls & Hnew).
    eexists _, w'. split; [done|]. split.
    + destruct new as [|c new]; [by rewrite app_nil_r in Hcalls|].
      by apply Forall_cons in Hnew as [[] _].
    + split; [|done]. intros _ k. apply keys_in_column_spec.
Qed.

(** ** The columns of the header *)

Lemma filter_filter_weaker (F G : string → bool) (l : list string) :
  (∀ x, G x = true → F x = true) →
  filter (λ x, G x = true) (filter (λ x, F x = true) l) = filter (λ x, G x = true) l.
Proof.
  intros HFG. induction l as [|x l IH]; [done|].
  rewrite !filter_cons. destruct (decide (F x = true)) as [HF|HF].
  - rewrite filter_cons. destruct (decide (G x = true)); by rewrite IH.
  - rewrite IH. destruct (decide (G x = true)) as [HG|HG]; [|done].
    by apply HFG in HG.
Qed.

(** The columns other than the key column and the one it replaced. *)
Definition other_columns (headers : list string) : list string :=
  filter (λ h, negb (String.eqb h "source_file_name")
               && negb (String.eqb h "source_file") = true) headers.

(** X13: the header the three steps return has the column
    "source_file_name" and no column "source_file"; an empty header
    becomes the default header; the other columns of a header that is
    not empty are kept, in their order. *)
Theorem reconcile_headers_columns (headers : list string) (w : world) :
  ∃ h w',
    reconcile_headers headers w = (Ok h, w')
    ∧ str_in "source_file_name" h = true
    ∧ str_in "source_file" h = false
    ∧ (headers = [] → h = default_headers)
    ∧ (headers ≠ [] → other_columns h = other_columns headers).
Proof.
  destruct (reconcile_headers_value headers w) as (w' & E).
  exists (reconciled headers), w'. split; [done|].
  split; [apply reconciled_has_key|].
  split; [apply reconciled_no_old|].
  split; [by intros ->|].
  intros Hne. unfold reconciled. destruct headers as [|h0 hs]; [done|]. cbv zeta.
  set (h1 := h0 :: hs).
  assert (H2 : ∀ h2, other_columns h2 = other_columns h1 →
    other_columns
      (if str_in "source_file" h2 && str_in "source_file_name" h2
       then filter (λ h, negb (String.eqb h "source_file") = true) h2 else h2)
    = other_columns h1).
  { intros h2 Hh2. destruct (_ && _); [|done]. rewrite <- Hh2. unfold other_columns.
    apply (filter_filter_weaker (λ h, negb (String.eqb h "source_file"))
             (λ h, negb (String.eqb h "source_file_name")
                   && negb (String.eqb h "source_file"))).
    by intros x [_ Hx]%andb_true_iff. }
  apply H2. destruct (negb (str_in "source_file_name" h1)); [|done].
  unfold other_columns. rewrite filter_app.
  rewrite (filter_cons _ _ []), decide_False; [by rewrite app_nil_r|].
  by rewrite String.eqb_refl.
Qed.

(** ** What the harvester reports *)

(** Whatever [m] returns satisfies [V]. *)
Definition returns {A} (V : A → Prop) (m : M A) : Prop :=
  ∀ w, match (m w).1 with Ok a => V a | Raise _ => True end.

Lemma returns_ret {A} (V : A → Prop) a : V a → returns V (ret a).
Proof. by intros Ha w. Qed.

Lemma returns_any {A} (m : M A) : returns (λ _, True) m.
Proof. intros w. by destruct (m w).1. Qed.

Lemma returns_bind {A B} (U : A → Prop) (V : B → Prop) (m : M A) (k : A → M B) :
  returns U m → (∀ a, U a → returns V (k a)) → returns V (bind m k).
Proof.
  intros Hm Hk w. unfold bind. specialize (Hm w).
  destruct (m w) as [[a|e] w1]; cbn [fst] in *; [|done]. by apply Hk.
Qed.

Lemma returns_try_catch {A} (V : A → Prop) (body : M A) (handler : exn → M A) :
  returns V body → (∀ e, returns V (handler e)) → returns V (try_catch body handler).
Proof.
  intros Hb Hh w. unfold try_catch. specialize (Hb w).
  destruct (body w) as [[a|e] w1]; cbn [fst] in *; [done|]. apply Hh.
Qed.

Lemma returns_weaken {A} (U V : A → Prop) (m : M A) :
  returns U m → (∀ a, U a → V a) → returns V m.
Proof. intros Hm HUV w. specialize (Hm w). destruct (m w).1; auto. Qed.

Ltac returns_step :=
  match goal with
  | |- returns _ (bind _ _) => eapply returns_bind; [apply returns_any|intros ? _]
  | |- returns _ (try_catch _ _) => apply returns_try_catch; [|intros ?]
  | |- returns _ (ret _) => apply returns_ret
  | |- returns _ (match ?x with _ => _ end) => destruct x
  | |- returns _ (let _ := _ in _) => cbv zeta
  end.

(** The file names of the leaves of a message. *)
Fixpoint leaf_names (payload : part) : list string :=
  match payload with
  | Multipart parts => flat_map leaf_names parts
  | Leaf filename _ => [filename]
  end.

(** [info] reports the attachment [filename] of the message
    [message_id]. *)
Definition reports (message_id filename : string) (info : attachment_info) : Prop :=
  endswith (py_lower filename) ".pdf" = true
  ∧ ai_message_id info = message_id
  ∧ ai_original_filename info = sanitize_filename filename
  ∧ ai_saved_filename info = (message_id ++ "_" ++ sanitize_filename filename)%string.

Lemma returns_process_attachment message_id filename attachment_id base :
  returns (λ r, match r with
                | Some info => reports message_id filename info
                | None => True
                end)
          (process_attachment message_id filename attachment_id base).
Proof.
  unfold process_attachment. apply returns_try_catch; [|intros e; by repeat returns_step].
  destruct (negb (non_empty filename)); [by apply returns_ret|].
  destruct (negb (endswith (py_lower filename) ".pdf")) eqn:Hpdf;
    [by repeat returns_step|].
  apply negb_false_iff in Hpdf. by repeat returns_step.
Qed.

Lemma returns_extract_attachments message_id base payload :
  returns (λ infos,
             (length infos ≤ length (leaf_names payload))%nat
             ∧ Forall (λ info, ∃ filename, filename ∈ leaf_names payload
                                 ∧ reports message_id filename info) infos)
          (extract_attachments_from_email message_id payload base).
Proof.
  induction payload as [ps IH|filename attachment_id] using part_tree_ind;
    cbn [extract_attachments_from_email leaf_names].
  - induction IH as [|p ps Hp _ IHps]; cbn [flat_map]; [by apply returns_ret|].
    eapply returns_bind; [apply Hp|]. intros found [Hlen Hfound].
    eapply returns_bind; [apply IHps|]. intros others [Hlen' Hothers].
    apply returns_ret. rewrite !length_app. split; [lia|].
    apply Forall_app. split.
    + eapply Forall_impl; [apply Hfound|]. intros info (fn & Hin & Hrep).
      exists fn. split; [|done]. apply elem_of_app. by left.
    + eapply Forall_impl; [apply Hothers|]. intros info (fn & Hin & Hrep).
      exists fn. split; [|done]. apply elem_of_app. by right.
  - destruct (_ && _); [|apply returns_ret; split; [cbn [length]; lia|done]].
    eapply returns_bind; [apply returns_process_attachment|].
    intros [info|] Hinfo; apply returns_ret; cbn [length]; (split; [lia|]);
      [|done].
    constructor; [|done]. exists filename. split; [|done].
    by apply list_elem_of_singleton.
Qed.

(** X14: [extract_attachments_from_email] never raises.  It reports at
    most one attachment per leaf of the message; every attachment it
    reports belongs to a leaf whose file name ends in ".pdf", whatever
    the case of the letters, carries the id of the message, and is saved
    under that id, an underscore and the sanitized file name. *)
Theorem extract_attachments_named (message_id base_folder_id : string)
    (payload : part) (w : world) :
  ∃ infos w',
    extract_attachments_from_email message_id payload base_folder_id w = (Ok infos, w')
    ∧ (length infos ≤ length (leaf_names payload))%nat
    ∧ Forall (λ info, ∃ filename,
                filename ∈ leaf_names payload
                ∧ endswith (py_lower filename) ".pdf" = true
                ∧ ai_message_id info = message_id
                ∧ ai_original_filename info = sanitize_filename filename
                ∧ ai_saved_filename info
                  = (message_id ++ "_" ++ sanitize_filename filename)%string) infos.
Proof.
  destruct (total_extract_attachments message_id base_folder_id payload w)
    as (infos & w' & E).
  pose proof (returns_extract_attachments message_id base_folder_id payload w) as H.
  rewrite E in H. cbn [fst] in H. destruct H as [Hlen Hall].
  exists infos, w'. split; [done|]. split; [done|].
  eapply Forall_impl; [apply Hall|].
  intros info (fn & Hin & Hpdf & Hid & Horig & Hsaved). by exists fn.
Qed.

(** The counters of the harvester after [n] messages: the attachments
    reported are those counted, each from one of the messages [ids]. *)
Definition counts_ok (ids : list string) (n : Z) (st : mail_stats) : Prop :=
  (0 ≤ st_processed_emails st)%Z
  ∧ (0 ≤ st_failed_uploads st)%Z
  ∧ (st_processed_emails st + st_failed_uploads st ≤ n)%Z
  ∧ (st_processed_emails st ≤ st_successful_uploads st)%Z
  ∧ st_successful_uploads st = Z.of_nat (length (st_attachments_info st))
  ∧ st_total_attachments st = st_successful_uploads st
  ∧ Forall (λ info, ai_message_id info ∈ ids
                    ∧ ai_saved_filename info
                      = (ai_message_id info ++ "_" ++ ai_original_filename info)%string)
           (st_attachments_info st).

Lemma counts_ok_next ids n st : counts_ok ids n st → counts_ok ids (n + 1) st.
Proof. unfold counts_ok. intros H. destruct_and!. split_and!; try done. lia. Qed.

Lemma returns_process_one_email ids n base total_n st i email :
  counts_ok ids n st → email ∈ ids →
  returns (counts_ok ids (n + 1)) (process_one_email base total_n st i email).
Proof.
  intros Hst Hin. unfold process_one_email. apply returns_try_catch.
  2:{ intros e. eapply returns_bind; [apply returns_any|intros _ _].
      apply returns_ret. unfold counts_ok in *. destruct_and!.
      cbn [count_failed_upload st_processed_emails st_failed_uploads
           st_successful_uploads st_total_attachments st_attachments_info].
      split_and!; try done; lia. }
  eapply returns_bind; [apply returns_any|intros _ _].
  eapply returns_bind; [apply returns_any|intros sender_info _].
  destruct sender_info as [info|]; [|by apply returns_ret, counts_ok_next].
  eapply returns_bind; [apply returns_any|intros message _].
  destruct message as [payload|]; [|by apply returns_ret, counts_ok_next].
  eapply returns_bind; [apply (returns_extract_attachments email base payload)|].
  intros attachments [_ Hatts].
  eapply (returns_bind (counts_ok ids (n + 1))).
  2:{ intros st' Hst'. eapply returns_bind; [apply returns_any|intros _ _].
      by apply returns_ret. }
  destruct attachments as [|a atts].
  { eapply returns_bind; [apply returns_any|intros _ _].
    by apply returns_ret, counts_ok_next. }
  eapply returns_bind; [apply returns_any|intros _ _].
  apply returns_ret. unfold counts_ok in *. destruct_and!.
  cbn [count_attachments st_processed_emails st_failed_uploads
       st_successful_uploads st_total_attachments st_attachments_info].
  rewrite length_app. split_and!; try lia.
  - cbn [length]. lia.
  - apply Forall_app. split; [done|].
    eapply Forall_impl; [apply Hatts|].
    intros info' (fn & _ & _ & Hid & Horig & Hsaved).
    rewrite Hid, Horig, Hsaved. by split.
Qed.

Lemma returns_process_emails ids base total_n emails : ∀ n st i,
  counts_ok ids n st → emails ⊆ ids →
  returns (counts_ok ids (n + Z.of_nat (length emails)))
          (process_emails base total_n st i emails).
Proof.
  induction emails as [|email emails IH]; intros n st i Hst Hsub; cbn [process_emails].
  - apply returns_ret. cbn [length]. by rewrite Z.add_0_r.
  - eapply returns_bind.
    + apply (returns_process_one_email ids n); [done|]. apply Hsub. by left.
    + intros st' Hst'. eapply returns_weaken.
      * apply (IH (n + 1)%Z); [done|]. intros x Hx. apply Hsub. by right.
      * intros st2. cbn [length]. by replace (n + 1 + Z.of_nat (length emails))%Z
          with (n + Z.of_nat (S (length emails)))%Z by lia.
Qed.

(** X15: the numbers the harvester reports fit together: the number
    of attachments is the length of the list of attachments; a message
    counted as processed contributed at least one attachment; no
    message is counted both as processed and as failed; and every
    attachment reported comes from a message the search found and is
    saved under the id of that message, an underscore and its sanitized
    name. *)
Theorem mail_workflow_counts (config : mail_config) (w : world) :
  ∃ r w',
    process_mail_to_drive_workflow config w = (Ok r, w')
    ∧ total_attachments r = Z.of_nat (length (attachments_info r))
    ∧ (0 ≤ processed_emails r ≤ total_attachments r)%Z
    ∧ (0 ≤ failed r)%Z
    ∧ (processed_emails r + failed r ≤ total_emails r)%Z
    ∧ (total_emails r ≤ Z.of_nat (length (found_emails config w)))%Z
    ∧ Forall (λ info,
                ai_message_id info ∈ found_emails config w
                ∧ ai_saved_filename info
                  = (ai_message_id info ++ "_" ++ ai_original_filename info)%string)
             (attachments_info r).
Proof.
  set (emails := found_emails config w).
  assert (Hzero : ∀ b, let r := MailResult b 0 0 0 0 [] in
    total_attachments r = Z.of_nat (length (attachments_info r))
    ∧ (0 ≤ processed_emails r ≤ total_attachments r)%Z
    ∧ (0 ≤ failed r)%Z
    ∧ (processed_emails r + failed r ≤ total_emails r)%Z
    ∧ (total_emails r ≤ Z.of_nat (length emails))%Z
    ∧ Forall (λ info,
                ai_message_id info ∈ emails
                ∧ ai_saved_filename info
                  = (ai_message_id info ++ "_" ++ ai_original_filename info)%string)
             (attachments_info r)).
  { intros b. cbn. split_and!; try done; lia. }
  assert (H : post (process_mail_to_drive_workflow config) w (λ r0 w',
    ∃ r, r0 = Ok r
      ∧ total_attachments r = Z.of_nat (length (attachments_info r))
      ∧ (0 ≤ processed_emails r ≤ total_attachments r)%Z
      ∧ (0 ≤ failed r)%Z
      ∧ (processed_emails r + failed r ≤ total_emails r)%Z
      ∧ (total_emails r ≤ Z.of_nat (length emails))%Z
      ∧ Forall (λ info,
                  ai_message_id info ∈ emails
                  ∧ ai_saved_filename info
                    = (ai_message_id info ++ "_" ++ ai_original_filename info)%string)
               (attachments_info r))).
  { unfold process_mail_to_drive_workflow.
    apply post_try_catch, post_bind. eapply post_eq; [reflexivity|].
    apply post_bind. eapply post_eq; [reflexivity|].
    set (w1 := set_progress _ _).
    destruct (search_emails_run config w1) as (w2 & E2 & Hg2 & Hs2).
    change (found_emails config w1) with emails in E2.
    apply post_bind. eapply post_eq; [apply E2|].
    destruct emails as [|e0 es] eqn:Hemails.
    { apply post_bind_run; [auto with total|]. intros _ w3 _.
      apply post_ret. eexists. split; [done|]. apply (Hzero true). }
    rewrite <- Hemails in *.
    destruct (non_empty (mc_gdrive_folder_id config)) eqn:Hbase; cbn [negb].
    2:{ apply post_bind_run; [auto with total|]. intros _ w3 _.
        apply post_ret. eexists. split; [done|]. cbn. split_and!; try done; lia. }
    apply post_bind_run; [auto with total|]. intros _ w3 _.
    apply post_bind. eapply post_eq; [reflexivity|].
    apply post_bind. eapply post_eq; [reflexivity|].
    set (w4 := set_progress _ _).
    set (st0 := MailStats (Z.of_nat (length emails)) 0 0 0 0 []).
    destruct (process_emails_run (mc_gdrive_folder_id config)
                (Z.of_nat (length emails)) emails st0 1%Z w4)
      as (st & w5 & E5 & Hg5 & Hs5 & Ht5 & Hf5).
    assert (Hst0 : counts_ok emails 0 st0).
    { unfold counts_ok. cbn. split_and!; try done. }
    pose proof (returns_process_emails emails (mc_gdrive_folder_id config)
                  (Z.of_nat (length emails)) emails 0%Z st0 1%Z Hst0
                  (reflexivity _) w4) as Hst.
    rewrite E5 in Hst. cbn [fst] in Hst.
    apply post_bind. eapply post_eq; [apply E5|].
    apply post_bind. eapply post_eq; [reflexivity|].
    apply post_bind. eapply post_eq; [reflexivity|].
    apply post_bind_run; [auto with total|]. intros [] w6 E6.
    apply post_bind. eapply post_eq; [reflexivity|].
    apply post_ret. eexists. split; [done|].
    cbn [success total_emails processed_emails total_attachments failed
         attachments_info].
    unfold counts_ok in Hst. destruct_and!. rewrite Ht5. cbn [st_total_emails st0].
    split_and!; try done; lia. }
  unfold post in H. destruct (process_mail_to_drive_workflow config w) as [r0 w'].
  simpl in H. destruct H as (r & -> & H). by exists r, w'.
Qed.

Lemma keeps_drive_log msg lvl : keeps drive (log msg lvl).
Proof. keeps_prim. Qed.
Lemma keeps_drive_now : keeps drive now.
Proof. keeps_prim. Qed.

Lemma keeps_drive_search_emails sender term days n :
  keeps drive (search_emails sender term days n).
Proof.
  unfold search_emails.
  repeat keeps_step; first [apply keeps_drive_log | apply keeps_drive_now].
Qed.

(** X16: the two early exits of the harvester.  When the search finds
    no message, the run reports success with every counter at zero;
    when it finds messages but no base folder is configured, the run
    reports failure and counts every message found as failed.  Neither
    run touches the store. *)
Theorem mail_workflow_early_exit (config : mail_config) (w : world) :
  let emails := found_emails config w in
  let n := Z.of_nat (length emails) in
  emails = [] ∨ non_empty (mc_gdrive_folder_id config) = false →
  ∃ w',
    process_mail_to_drive_workflow config w
    = (Ok (match emails with
           | [] => MailResult true 0 0 0 0 []
           | _ :: _ => MailResult false n 0 0 n []
           end), w')
    ∧ drive w' = drive w.
Proof.
  intros emails n Hexit.
  assert (H : post (process_mail_to_drive_workflow config) w (λ r0 w',
    r0 = Ok (match emails with
             | [] => MailResult true 0 0 0 0 []
             | _ :: _ => MailResult false n 0 0 n []
             end)
    ∧ drive w' = drive w)).
  { unfold process_mail_to_drive_workflow.
    apply post_try_catch, post_bind. eapply post_eq; [reflexivity|].
    apply post_bind. eapply post_eq; [reflexivity|].
    set (w1 := set_progress _ _).
    destruct (search_emails_run config w1) as (w2 & E2 & Hg2 & Hs2).
    change (found_emails config w1) with emails in E2.
    pose proof (keeps_at drive _ _ _ _ (keeps_drive_search_emails _ _ _ _) E2) as Hd2.
    change (drive w1) with (drive w) in Hd2.
    apply post_bind. eapply post_eq; [apply E2|]. subst n.
    destruct emails as [|e0 es] eqn:Hemails.
    { apply post_bind_run; [auto with total|]. intros [] w3 E3.
      pose proof (keeps_at drive _ _ _ _ (keeps_drive_log _ _) E3) as Hd3.
      apply post_ret. split; [done|]. congruence. }
    destruct Hexit as [Hexit| ->]; [done|]. cbn [negb].
    apply post_bind_run; [auto with total|]. intros [] w3 E3.
    pose proof (keeps_at drive _ _ _ _ (keeps_drive_log _ _) E3) as Hd3.
    apply post_ret. split; [done|]. congruence. }
  unfold post in H. destruct (process_mail_to_drive_workflow config w) as [r0 w'].
  simpl in H. destruct H as (-> & H). by exists w'.
Qed.

(** ** What the ingestion reports *)

(** The counters of the ingestion after [n] files, of [total] listed
    and [skipped] left out.  Every file is counted once, as processed
    or as failed; a file whose temporary file cannot be removed is
    counted as failed once more.  With [exact] no removal has raised;
    without it the files counted are [hi] at most. *)
Definition pay_ok (exact : bool) (total skipped n hi : Z) (st : pay_stats) : Prop :=
  total_pdfs st = total
  ∧ skipped_pdfs st = skipped
  ∧ (0 ≤ processed_pdfs st ≤ n)%Z
  ∧ (0 ≤ failed_pdfs st)%Z
  ∧ (if exact then (processed_pdfs st + failed_pdfs st = n)%Z
     else (n ≤ processed_pdfs st + failed_pdfs st ≤ hi)%Z)
  ∧ (0 ≤ llama_errors st ≤ failed_pdfs st)%Z
  ∧ (processed_pdfs st ≤ rows_added st)%Z
  ∧ (0 ≤ bills_processed st)%Z.

Lemma pay_ok_failed exact total skipped n hi st b :
  pay_ok exact total skipped n hi st →
  pay_ok exact total skipped (n + 1) (hi + 1) (count_failed b st).
Proof.
  unfold pay_ok. intros H. destruct_and!.
  cbn [count_failed total_pdfs skipped_pdfs processed_pdfs failed_pdfs llama_errors
       rows_added bills_processed].
  destruct exact, b; split_and!; try done; lia.
Qed.

Lemma pay_ok_bills exact total skipped n hi st k :
  pay_ok exact total skipped n hi st → (0 ≤ k)%Z →
  pay_ok exact total skipped n hi (count_bills k st).
Proof.
  unfold pay_ok. intros H Hk. destruct_and!.
  cbn [count_bills total_pdfs skipped_pdfs processed_pdfs failed_pdfs llama_errors
       rows_added bills_processed].
  split_and!; try done; lia.
Qed.

Lemma pay_ok_processed exact total skipped n hi st k :
  pay_ok exact total skipped n hi st → (1 ≤ k)%Z →
  pay_ok exact total skipped (n + 1) (hi + 1) (count_processed k st).
Proof.
  unfold pay_ok. intros H Hk. destruct_and!.
  cbn [count_processed total_pdfs skipped_pdfs processed_pdfs failed_pdfs llama_errors
       rows_added bills_processed].
  destruct exact; split_and!; try done; lia.
Qed.

Lemma pay_ok_again total skipped n hi st :
  pay_ok false total skipped n hi st →
  pay_ok false total skipped n (hi + 1) (count_failed false st).
Proof.
  unfold pay_ok. intros H. destruct_and!.
  cbn [count_failed total_pdfs skipped_pdfs processed_pdfs failed_pdfs llama_errors
       rows_added bills_processed].
  split_and!; try done; lia.
Qed.

Lemma pay_ok_weaken exact total skipped n hi hi' st :
  pay_ok exact total skipped n hi st → (hi ≤ hi')%Z →
  pay_ok exact total skipped n hi' st.
Proof.
  unfold pay_ok. intros H Hhi. destruct_and!.
  destruct exact; split_and!; try done; lia.
Qed.

(** The removal of the temporary file in [finally]. *)
Lemma returns_finally {A} (V : A → Prop) i (a : A) (handler : exn → M A) :
  V a → (tmp_remove_raises i = true → ∀ e, returns V (handler e)) →
  returns V (try_catch (remove_tmp i ;; ret a) handler).
Proof.
  intros Ha Hh w. unfold try_catch, bind, remove_tmp, lift.
  destruct (tmp_remove_raises i) eqn:E; cbn [fst]; [|done].
  apply (Hh eq_refl OSError w).
Qed.

Lemma returns_process_one_pdf exact total skipped n headers total_n st i pdf_file :
  (exact = true → ∀ k, tmp_remove_raises k = false) →
  pay_ok exact total skipped n (2 * n) st →
  returns (pay_ok exact total skipped (n + 1) (2 * (n + 1)))
          (process_one_pdf headers total_n st i pdf_file).
Proof.
  intros Hrem Hst.
  assert (Hone : ∀ b, pay_ok exact total skipped (n + 1) (2 * n + 1) (count_failed b st))
    by (intros b; by apply pay_ok_failed).
  assert (Hup : ∀ st1, pay_ok exact total skipped (n + 1) (2 * n + 1) st1 →
                       pay_ok exact total skipped (n + 1) (2 * (n + 1)) st1)
    by (intros st1 H1; eapply pay_ok_weaken; [apply H1|lia]).
  unfold process_one_pdf. cbv beta zeta.
  apply returns_try_catch;
    [|intros e; eapply returns_bind; [apply returns_any|intros _ _];
      by apply returns_ret, Hup].
  eapply returns_bind; [apply returns_any|intros _ _].
  eapply returns_bind; [apply returns_any|intros _ _].
  eapply returns_bind; [apply returns_any|intros file_data _].
  destruct (negb (non_empty file_data)).
  { eapply returns_bind; [apply returns_any|intros _ _].
    by apply returns_ret, Hup. }
  eapply returns_bind; [apply returns_any|intros _ _].
  eapply (returns_bind (pay_ok exact total skipped (n + 1) (2 * n + 1))).
  2:{ intros st1 Hst1. apply returns_finally; [by apply Hup|].
      intros Hraise e. destruct exact.
      { by rewrite (Hrem eq_refl i) in Hraise. }
      eapply returns_bind; [apply returns_any|intros _ _].
      apply returns_ret.
      replace (2 * (n + 1))%Z with (2 * n + 1 + 1)%Z by lia.
      by apply pay_ok_again. }
  apply returns_try_catch;
    [|intros e; eapply returns_bind; [apply returns_any|intros _ _];
      by apply returns_ret].
  eapply returns_bind; [apply returns_any|intros _ _].
  eapply returns_bind; [apply returns_any|intros extraction_result _].
  eapply returns_bind; [apply returns_any|intros rows_data _].
  destruct rows_data as [|r rows].
  { eapply returns_bind; [apply returns_any|intros _ _]. by apply returns_ret. }
  cbv zeta.
  eapply returns_bind; [apply returns_any|intros ok _].
  destruct ok; (eapply returns_bind; [apply returns_any|intros _ _]);
    apply returns_ret.
  - apply pay_ok_processed; [apply pay_ok_bills; [done|lia]|].
    rewrite length_map. cbn [length]. lia.
  - apply pay_ok_failed, pay_ok_bills; [done|lia].
Qed.

Lemma returns_process_pdfs exact total skipped headers total_n files : ∀ n st i,
  (exact = true → ∀ k, tmp_remove_raises k = false) →
  pay_ok exact total skipped n (2 * n) st →
  returns (pay_ok exact total skipped (n + Z.of_nat (length files))
                  (2 * (n + Z.of_nat (length files))))
          (process_pdfs headers total_n st i files).
Proof.
  induction files as [|f files IH]; intros n st i Hrem Hst; cbn [process_pdfs].
  - apply returns_ret. cbn [length]. by rewrite Z.add_0_r.
  - eapply returns_bind; [by apply (returns_process_one_pdf exact total skipped n)|].
    intros st' Hst'. eapply returns_weaken; [by apply (IH (n + 1)%Z)|].
    intros st2. cbn [length]. by replace (n + 1 + Z.of_nat (length files))%Z
      with (n + Z.of_nat (S (length files)))%Z by lia.
Qed.

Lemma length_py_slice_to {A} m (l : list A) : (length (py_slice_to m l) ≤ length l)%nat.
Proof. unfold py_slice_to. destruct (0 <=? m)%Z; rewrite length_take; lia. Qed.

(** What the ingestion reports at its end; with [exact], when no
    removal of a temporary file has raised. *)
Definition pay_report (exact : bool) (config : pay_config) (st : pay_stats) : Prop :=
  (0 ≤ processed_pdfs st)%Z
  ∧ (0 ≤ failed_pdfs st)%Z
  ∧ (0 ≤ skipped_pdfs st)%Z
  ∧ (processed_pdfs st + skipped_pdfs st ≤ total_pdfs st)%Z
  ∧ (0 ≤ llama_errors st ≤ failed_pdfs st)%Z
  ∧ (processed_pdfs st ≤ rows_added st)%Z
  ∧ (0 ≤ bills_processed st)%Z
  ∧ (exact = true →
     (processed_pdfs st + failed_pdfs st + skipped_pdfs st ≤ total_pdfs st)%Z
     ∧ (pc_max_files config = None →
        (processed_pdfs st + failed_pdfs st + skipped_pdfs st = total_pdfs st)%Z)).

Lemma pay_report_zero exact config : pay_report exact config (PayStats 0 0 0 0 0 0 0).
Proof. unfold pay_report. cbn. split_and!; try done; lia. Qed.

Lemma returns_process_payment_advice_workflow exact config :
  (exact = true → ∀ k, tmp_remove_raises k = false) →
  returns (pay_report exact config) (process_payment_advice_workflow config).
Proof.
  intros Hrem w. unfold process_payment_advice_workflow.
  destruct (negb (l_available (llama w))).
  { match goal with |- match (?m w).1 with _ => _ end =>
      assert (Hm : returns (pay_report exact config) m); [|apply Hm] end.
    eapply returns_bind; [apply returns_any|intros _ _].
    apply returns_ret, pay_report_zero. }
  match goal with |- match (?m w).1 with _ => _ end =>
    assert (Hm : returns (pay_report exact config) m); [|apply Hm] end.
  apply returns_try_catch;
    [|intros e; eapply returns_bind; [apply returns_any|intros _ _];
      apply returns_ret, pay_report_zero].
  eapply returns_bind; [apply returns_any|intros _ _].
  eapply returns_bind; [apply returns_any|intros _ _].
  eapply returns_bind; [apply returns_any|intros agent _].
  destruct (negb agent).
  { eapply returns_bind; [apply returns_any|intros _ _].
    apply returns_ret, pay_report_zero. }
  do 3 (eapply returns_bind; [apply returns_any|intros _ _]).
  eapply returns_bind; [apply returns_any|intros gmail_folder_id _].
  eapply returns_bind; [apply returns_any|intros pdfs_folder_id _].
  eapply returns_bind; [apply returns_any|intros existing_names _].
  do 3 (eapply returns_bind; [apply returns_any|intros _ _]).
  eapply returns_bind; [apply returns_any|intros pdf_files _].
  cbv zeta.
  set (filtered := filter (λ f, f_name f ∉ existing_names) pdf_files).
  pose proof (length_filter (λ f, f_name f ∉ existing_names) pdf_files) as Hfil.
  fold filtered in Hfil.
  set (total := Z.of_nat (length pdf_files)).
  set (skipped := (total - Z.of_nat (length filtered))%Z).
  eapply returns_bind; [apply returns_any|intros _ _].
  eapply (returns_bind (λ files, (length files ≤ length filtered)%nat
                                 ∧ (pc_max_files config = None → files = filtered))).
  { destruct (pc_max_files config) as [max_files|]; [|by apply returns_ret].
    destruct (max_files <? _)%Z; [|by apply returns_ret].
    cbv zeta. eapply returns_bind; [apply returns_any|intros _ _].
    apply returns_ret. split; [apply length_py_slice_to|done]. }
  intros files [Hlen Hall].
  assert (Hst0 : pay_ok exact total skipped 0 (2 * 0) (PayStats total 0 0 skipped 0 0 0)).
  { unfold pay_ok. cbn. destruct exact; split_and!; try done; lia. }
  assert (Hend : ∀ st,
    pay_ok exact total skipped (Z.of_nat (length files))
           (2 * Z.of_nat (length files)) st →
    pay_report exact config st).
  { unfold pay_ok, pay_report. intros st H. destruct_and!.
    assert (Hskip : (0 ≤ skipped)%Z) by (subst skipped total; lia).
    split_and!; try lia.
    intros ->. split; [lia|].
    intros Hnone. rewrite (Hall Hnone) in *. subst skipped total. lia. }
  destruct files as [|f files].
  { eapply returns_bind; [apply returns_any|intros _ _].
    apply returns_ret. by apply Hend. }
  eapply returns_bind; [apply returns_any|intros headers0 _].
  eapply returns_bind; [apply returns_any|intros headers _].
  eapply returns_bind; [apply returns_any|intros _ _].
  eapply returns_bind.
  { apply (returns_process_pdfs exact total skipped headers _ (f :: files) 0%Z);
      [done|apply Hst0]. }
  intros st Hst. rewrite Z.add_0_l in Hst.
  do 4 (eapply returns_bind; [apply returns_any|intros _ _]).
  apply returns_ret. by apply Hend.
Qed.

(** X17: the ingestion never raises, and the numbers it reports fit
    together.  The files processed and skipped are at most the files
    listed, the extraction errors are among the failures, and every
    file counted as processed added at least one row.  When no removal
    of a temporary file raises, no file is counted twice: the files
    processed, failed and skipped are at most the files listed, and
    exactly the files listed when no limit on the number of files is
    configured. *)
Theorem payment_workflow_counts (config : pay_config) (w : world) :
  ∃ stats w',
    process_payment_advice_workflow config w = (Ok stats, w')
    ∧ (0 ≤ processed_pdfs stats)%Z
    ∧ (0 ≤ failed_pdfs stats)%Z
    ∧ (0 ≤ skipped_pdfs stats)%Z
    ∧ (processed_pdfs stats + skipped_pdfs stats ≤ total_pdfs stats)%Z
    ∧ (0 ≤ llama_errors stats ≤ failed_pdfs stats)%Z
    ∧ (processed_pdfs stats ≤ rows_added stats)%Z
    ∧ (0 ≤ bills_processed stats)%Z
    ∧ ((∀ k, tmp_remove_raises k = false) →
       (processed_pdfs stats + failed_pdfs stats + skipped_pdfs stats
        ≤ total_pdfs stats)%Z
       ∧ (pc_max_files config = None →
          (processed_pdfs stats + failed_pdfs stats + skipped_pdfs stats
           = total_pdfs stats)%Z)).
Proof.
  destruct (total_process_payment_advice_workflow config w) as (stats & w' & E).
  pose proof (returns_process_payment_advice_workflow false config
                ltac:(done) w) as H.
  rewrite E in H. cbn [fst] in H.
  destruct H as (Hp & Hf & Hs & Hps & Hl & Hr & Hb & _).
  exists stats, w'. do 8 (split; [done|]). intros Hrem.
  pose proof (returns_process_payment_advice_workflow true config
                (λ _, Hrem) w) as H.
  rewrite E in H. cbn [fst] in H.
  destruct H as (_ & _ & _ & _ & _ & _ & _ & Hex). by apply Hex.
Qed.

(** ** The rows the ingestion counts *)

(** The rows of the appends among [calls] that the spreadsheet accepted. *)
Definition accepted (calls : list (sheets_write * bool)) : list (list pyval) :=
  concat (omap (λ c, match c with
                     | (AppendCall rows, true) => Some rows
                     | _ => None
                     end) calls).

Lemma accepted_app c1 c2 : accepted (c1 ++ c2) = accepted c1 ++ accepted c2.
Proof. unfold accepted. by rewrite omap_app, concat_app. Qed.

(** [m] only adds calls to those the spreadsheet received; when it
    returns [a], the rows accepted among them number [k a]; when it
    raises, none was accepted. *)
Definition adds {A} (k : A → Z) (m : M A) : Prop :=
  ∀ w, ∃ new,
    s_calls (sheets (m w).2) = s_calls (sheets w) ++ new
    ∧ match (m w).1 with
      | Ok a => k a = Z.of_nat (length (accepted new))
      | Raise _ => accepted new = []
      end.

Lemma adds_ret {A} (k : A → Z) a : k a = 0%Z → adds k (ret a).
Proof. intros Hk w. exists []. by rewrite app_nil_r. Qed.

Lemma adds_keeps {A} (m : M A) : keeps sheets m → adds (λ _, 0%Z) m.
Proof.
  intros Hm w. exists []. rewrite app_nil_r, (Hm w). split; [done|].
  by destruct (m w).1.
Qed.

Lemma adds_bind {A B} (k : B → Z) (m : M A) (f : A → M B) :
  adds (λ _, 0%Z) m → (∀ a, adds k (f a)) → adds k (bind m f).
Proof.
  intros Hm Hf w. unfold bind. destruct (Hm w) as (new & Hc & Hk).
  destruct (m w) as [[a|e] w1]; cbn [fst snd] in *.
  - destruct (Hf a w1) as (new' & Hc' & Hk'). exists (new ++ new').
    rewrite Hc', Hc, app_assoc. split; [done|]. rewrite accepted_app.
    assert (Hnil : accepted new = []) by (destruct (accepted new); [done|cbn in Hk; lia]).
    rewrite Hnil. by cbn [app].
  - by exists new.
Qed.

Lemma adds_bind_total {A B} (k1 : A → Z) (k : B → Z) (m : M A) (f : A → M B) :
  adds k1 m → (∀ a, total (f a)) → (∀ a, adds (λ b, k b - k1 a)%Z (f a)) →
  adds k (bind m f).
Proof.
  intros Hm Ht Hf w. unfold bind. destruct (Hm w) as (new & Hc & Hk).
  destruct (m w) as [[a|e] w1]; cbn [fst snd] in *.
  - destruct (Hf a w1) as (new' & Hc' & Hk'). destruct (Ht a w1) as (b & w2 & E).
    rewrite E in *. cbn [fst snd] in *. exists (new ++ new').
    rewrite Hc', Hc, app_assoc. split; [done|].
    rewrite accepted_app, length_app. lia.
  - by exists new.
Qed.

Lemma adds_try_catch {A} (k : A → Z) (body : M A) (handler : exn → M A) :
  adds k body → (∀ e, adds k (handler e)) → adds k (try_catch body handler).
Proof.
  intros Hb Hh w. unfold try_catch. destruct (Hb w) as (new & Hc & Hk).
  destruct (body w) as [[a|e] w1]; cbn [fst snd] in *; [by exists new|].
  destruct (Hh e w1) as (new' & Hc' & Hk'). exists (new ++ new').
  rewrite Hc', Hc, app_assoc. split; [done|]. rewrite accepted_app, Hk.
  by cbn [app].
Qed.

Lemma adds_weaken {A} (k k' : A → Z) (m : M A) :
  adds k m → (∀ a, k' a = k a) → adds k' m.
Proof.
  intros Hm Hk w. destruct (Hm w) as (new & Hc & Hn). exists new.
  split; [done|]. destruct (m w).1; [by rewrite Hk|done].
Qed.

Lemma adds_sheets_read : adds (λ _, 0%Z) sheets_read.
Proof.
  intros w. exists []. rewrite app_nil_r. unfold sheets_read.
  by destruct (s_faults (sheets w)) as [|[] rest].
Qed.

Lemma adds_update_call col vals : adds (λ _, 0%Z) (sheets_write_call (UpdateCall col vals)).
Proof.
  intros w. unfold sheets_write_call.
  destruct (s_faults (sheets w)) as [|[] rest]; by eexists [_].
Qed.

Ltac adds_zero :=
  repeat match goal with
         | |- adds _ (bind _ _) => apply adds_bind; [|intros ?]
         | |- adds _ (try_catch _ _) => apply adds_try_catch; [|intros ?]
         | |- adds _ (ret _) => by apply adds_ret
         | |- adds _ (match ?x with _ => _ end) => destruct x
         | |- adds _ (let _ := _ in _) => cbv zeta
         | |- adds _ sheets_read => apply adds_sheets_read
         | |- adds _ (sheets_write_call (UpdateCall _ _)) => apply adds_update_call
         | |- adds _ _ => apply adds_keeps; solve [eauto with keeps]
         end.

Lemma adds_update_headers h : adds (λ _, 0%Z) (update_headers h).
Proof. unfold update_headers. adds_zero. Qed.

Lemma adds_get_sheet_headers : adds (λ _, 0%Z) get_sheet_headers.
Proof. unfold get_sheet_headers. adds_zero. Qed.

Lemma adds_get_existing_source_files column :
  adds (λ _, 0%Z) (get_existing_source_files column).
Proof. unfold get_existing_source_files. adds_zero. Qed.

Lemma adds_reconcile_headers h : adds (λ _, 0%Z) (reconcile_headers h).
Proof.
  unfold reconcile_headers.
  apply adds_bind; [destruct h|intros h1].
  - apply adds_bind; [apply adds_update_headers|intros _]. adds_zero.
  - adds_zero.
  - apply adds_bind; [destruct (negb _)|intros h2].
    + cbv zeta. apply adds_bind; [apply adds_update_headers|intros _]. adds_zero.
    + adds_zero.
    + destruct (_ && _); [|adds_zero].
      cbv zeta. apply adds_bind; [apply adds_update_headers|intros _]. adds_zero.
Qed.

Lemma accepted_outcomes values outcomes b :
  outcomes = repeat false (length outcomes - 1) ++ [b] →
  accepted (map (λ ok, (AppendCall values, ok)) outcomes)
  = if b then values else [].
Proof.
  intros ->. rewrite map_app, accepted_app.
  assert (Hfalse : ∀ n, accepted (map (λ ok, (AppendCall values, ok)) (repeat false n)) = []).
  { induction n as [|n IH]; [done|]. cbn [repeat map]. apply IH. }
  rewrite Hfalse. cbn [app map]. unfold accepted. cbn [omap].
  destruct b; cbn; [by rewrite app_nil_r|done].
Qed.

Lemma adds_append_to_google_sheet values :
  adds (λ b : bool, if b then Z.of_nat (length values) else 0%Z)
       (append_to_google_sheet values).
Proof.
  intros w.
  destruct (append_to_google_sheet_run values w) as (b & w' & E & Hcalls & Hlast & _).
  destruct (attempt_outcomes_shape 3 (s_faults (sheets w)))
    as (b' & Hshape & _); [lia|].
  assert (b' = b) as ->.
  { rewrite Hshape, last_snoc in Hlast. congruence. }
  rewrite E. cbn [fst snd]. eexists. split; [apply Hcalls|].
  rewrite (accepted_outcomes values _ b Hshape). by destruct b.
Qed.

Lemma total_process_one_pdf headers total_n st i pdf_file :
  total (process_one_pdf headers total_n st i pdf_file).
Proof. unfold process_one_pdf. apply total_try_catch. intros e. auto with total. Qed.

Lemma total_process_pdfs headers total_n files : ∀ st i,
  total (process_pdfs headers total_n st i files).
Proof.
  induction files as [|f files IH]; intros st i; cbn [process_pdfs];
    [apply total_ret|].
  apply total_bind; [apply total_process_one_pdf|]. intros st'. apply IH.
Qed.

Lemma adds_process_one_pdf headers total_n st i pdf_file :
  adds (λ st', rows_added st' - rows_added st)%Z
       (process_one_pdf headers total_n st i pdf_file).
Proof.
  assert (Hfail : ∀ b msg lvl st1, rows_added st1 = rows_added st →
    adds (λ st', rows_added st' - rows_added st)%Z
         (log msg lvl ;; ret (count_failed b st1))).
  { intros b msg lvl st1 Hst1. apply adds_bind; [adds_zero|intros _].
    apply adds_ret. cbn [count_failed rows_added]. lia. }
  unfold process_one_pdf. cbv beta zeta.
  apply adds_try_catch; [|intros e; by apply Hfail].
  apply adds_bind; [adds_zero|intros _].
  apply adds_bind; [adds_zero|intros _].
  apply adds_bind; [adds_zero|intros file_data].
  destruct (negb (non_empty file_data)); [by apply Hfail|].
  apply adds_bind; [adds_zero|intros _].
  eapply (adds_bind_total (λ st1, rows_added st1 - rows_added st)%Z).
  2:{ intros st1. apply total_try_catch. intros e. auto with total. }
  2:{ intros st1. apply adds_try_catch.
      - apply adds_bind; [adds_zero|intros _]. apply adds_ret. lia.
      - intros e. apply adds_bind; [adds_zero|intros _]. apply adds_ret.
        cbn [count_failed rows_added]. lia. }
  apply adds_try_catch; [|intros e; by apply Hfail].
  apply adds_bind; [adds_zero|intros _].
  apply adds_bind; [adds_zero|intros extraction_result].
  apply adds_bind; [adds_zero|intros rows_data].
  destruct rows_data as [|r rows]; [by apply Hfail|]. cbv zeta.
  set (sheet_rows := map (row_values headers) (r :: rows)).
  eapply adds_bind_total; [apply (adds_append_to_google_sheet sheet_rows)|..].
  - intros ok. destruct ok; auto with total.
  - intros ok. destruct ok.
    + apply adds_bind; [adds_zero|intros _]. apply adds_ret.
      cbn [count_processed count_bills rows_added]. lia.
    + apply adds_bind; [adds_zero|intros _]. apply adds_ret.
      cbn [count_failed count_bills rows_added]. lia.
Qed.

Lemma adds_process_pdfs headers total_n files : ∀ st i,
  adds (λ st', rows_added st' - rows_added st)%Z
       (process_pdfs headers total_n st i files).
Proof.
  induction files as [|f files IH]; intros st i; cbn [process_pdfs].
  - apply adds_ret. lia.
  - eapply adds_bind_total; [apply adds_process_one_pdf|..].
    + intros st'. apply total_process_pdfs.
    + intros st'. eapply adds_weaken; [apply IH|]. intros st2. cbn beta. lia.
Qed.

Lemma adds_process_payment_advice_workflow config :
  adds rows_added (process_payment_advice_workflow config).
Proof.
  intros w. unfold process_payment_advice_workflow.
  destruct (negb (l_available (llama w))).
  { match goal with |- ∃ new, s_calls (sheets (?m w).2) = _ ∧ _ =>
      assert (Hm : adds rows_added m); [|apply Hm] end.
    apply adds_bind; [adds_zero|intros _]. by apply adds_ret. }
  match goal with |- ∃ new, s_calls (sheets (?m w).2) = _ ∧ _ =>
    assert (Hm : adds rows_added m); [|apply Hm] end.
  apply adds_try_catch;
    [|intros e; apply adds_bind; [adds_zero|intros _]; by apply adds_ret].
  apply adds_bind; [adds_zero|intros _].
  apply adds_bind; [adds_zero|intros _].
  apply adds_bind; [adds_zero|intros agent].
  destruct (negb agent).
  { apply adds_bind; [adds_zero|intros _]. by apply adds_ret. }
  do 3 (apply adds_bind; [adds_zero|intros _]).
  apply adds_bind; [adds_zero|intros gmail_folder_id].
  apply adds_bind; [adds_zero|intros pdfs_folder_id].
  apply adds_bind; [apply adds_get_existing_source_files|intros existing_names].
  do 3 (apply adds_bind; [adds_zero|intros _]).
  apply adds_bind; [adds_zero|intros pdf_files].
  cbv zeta.
  apply adds_bind; [adds_zero|intros _].
  apply adds_bind; [adds_zero|intros files].
  destruct files as [|f files].
  { apply adds_bind; [adds_zero|intros _]. by apply adds_ret. }
  apply adds_bind; [apply adds_get_sheet_headers|intros headers0].
  apply adds_bind; [apply adds_reconcile_headers|intros headers].
  apply adds_bind; [adds_zero|intros _].
  eapply adds_bind_total; [apply adds_process_pdfs|..].
  - intros st. auto with total.
  - intros st. do 4 (apply adds_bind; [adds_zero|intros _]).
    apply adds_ret. cbn [rows_added]. lia.
Qed.

(** X18: the number of rows the ingestion reports as added is the number
    of rows the spreadsheet accepted during the run. *)
Theorem payment_workflow_rows_added (config : pay_config) (w : world) :
  ∃ stats w',
    process_payment_advice_workflow config w = (Ok stats, w')
    ∧ rows_added stats = Z.of_nat (length (appended_since w w')).
Proof.
  destruct (total_process_payment_advice_workflow config w) as (stats & w' & E).
  destruct (adds_process_payment_advice_workflow config w) as (new & Hcalls & Hrows).
  rewrite E in Hcalls, Hrows. cbn [fst snd] in Hcalls, Hrows.
  exists stats, w'. split; [done|].
  unfold appended_since. rewrite Hcalls, drop_app_length. apply Hrows.
Qed.

(** X19: without the extraction service the ingestion does nothing.
    When the client library is missing, when the agent is not found
    and when its lookup raises, the run reports every counter at zero
    and touches neither the store nor the spreadsheet. *)
Theorem payment_workflow_no_agent (config : pay_config) (w : world) :
  l_available (llama w) = false ∨ l_agent (llama w) ≠ Ok true →
  ∃ w',
    process_payment_advice_workflow config w = (Ok (PayStats 0 0 0 0 0 0 0), w')
    ∧ drive w' = drive w
    ∧ sheets w' = sheets w.
Proof.
  intros Hno. unfold process_payment_advice_workflow.
  destruct (l_available (llama w)) eqn:Havail; cbn [negb].
  2:{ unfold bind. rewrite log_eq. by eexists. }
  destruct Hno as [Hno|Hno]; [done|].
  unfold try_catch, bind, status_callback, progress_callback.
  cbn [llama set_progress set_status].
  destruct (l_agent (llama w)) as [[]|e]; [done|..]; cbn [negb];
    rewrite log_eq; by eexists.
Qed.

(** ** Converting a date twice *)

Lemma contains_char_middle c a b : contains_char c (a ++ String c b) = true.
Proof.
  induction a as [|c' a IH]; simpl.
  - by rewrite Ascii.eqb_refl.
  - rewrite IH. by destruct (Ascii.eqb c c').
Qed.

Lemma excel_date_to_string_date d :
  excel_date_to_string (PStr (strftime_d_b_Y d)) = Ok (PStr (strftime_d_b_Y d)).
Proof.
  unfold excel_date_to_string, excel_date_body.
  assert (Hsep : contains_char "-" (strftime_d_b_Y d) = true).
  { unfold strftime_d_b_Y. destruct (Calendar.ord2ymd _) as [[y m] dd].
    apply (contains_char_middle "-"). }
  by rewrite Hsep.
Qed.

Lemma excel_date_to_string_number v r :
  is_number v = true → excel_date_to_string v = Ok r →
  r = v ∨ ∃ d, r = PStr (strftime_d_b_Y d).
Proof.
  intros Hv. unfold excel_date_to_string, excel_date_body.
  assert (Hconv :
    (let '(r0, bound) :=
       (rbind (py_int v) (λ n,
        rbind (timedelta_days n) (λ days,
        rbind (datetime_add_days excel_epoch days) (λ date_value,
        Ok (PStr (strftime_d_b_Y date_value))))), v) in
     try_except r0 (λ _, Ok bound)) = Ok r →
    r = v ∨ ∃ d, r = PStr (strftime_d_b_Y d)).
  { destruct (py_int v) as [n|]; cbn [rbind try_except]; [|by intros [= <-]; left].
    destruct (timedelta_days n) as [days|]; cbn [rbind try_except];
      [|by intros [= <-]; left].
    destruct (datetime_add_days excel_epoch days) as [date_value|];
      cbn [rbind try_except]; [|by intros [= <-]; left].
    intros [= <-]. right. by eexists. }
  destruct v; try done; cbn [is_number]; apply Hconv.
Qed.

(** X20: converting the result of a conversion again gives it back:
    whatever [excel_date_to_string] returns, a second call on that
    value returns it unchanged. *)
Theorem excel_date_to_string_twice (v r : pyval) :
  excel_date_to_string v = Ok r → excel_date_to_string r = Ok r.
Proof.
  intros E.
  assert (Hnum : ∀ u, is_number u = true → excel_date_to_string u = Ok r →
                      excel_date_to_string r = Ok r).
  { intros u Hu Eu.
    destruct (excel_date_to_string_number u r Hu Eu) as [->|[d ->]];
      [done|apply excel_date_to_string_date]. }
  destruct (is_number v) eqn:Hv; [by apply (Hnum v)|].
  destruct v as [| | | |s| |]; try done;
    try (unfold excel_date_to_string, excel_date_body in E; cbn in E;
         injection E as <-; done).
  pose proof E as E'. unfold excel_date_to_string, excel_date_body in E'.
  destruct (contains_char "-" s || contains_char "/" s).
  { cbn in E'. by injection E' as <-. }
  cbn [py_float] in E'. destruct (float_of_str s) as [f|].
  - apply (Hnum (PFloat f)); [done|].
    unfold excel_date_to_string, excel_date_body. apply E'.
  - cbn in E'. by injection E' as <-.
Qed.

(** ** What the workflows store *)

(** [m] removes and changes no file of the store: it only adds files
    after those that are there, and each file it adds satisfies [Q]. *)
Definition store_adds {A} (Q : drive_file → Prop) (m : M A) : Prop :=
  ∀ w, ∃ new,
    d_files (drive (m w).2) = d_files (drive w) ++ new ∧ Forall Q new.

Lemma store_adds_keeps {A} Q (m : M A) : keeps drive m → store_adds Q m.
Proof. intros Hm w. exists []. by rewrite (Hm w), app_nil_r. Qed.

Lemma store_adds_ret {A} Q (a : A) : store_adds Q (ret a).
Proof. intros w. exists []. by rewrite app_nil_r. Qed.

Lemma store_adds_bind {A B} Q (m : M A) (k : A → M B) :
  store_adds Q m → (∀ a, store_adds Q (k a)) → store_adds Q (bind m k).
Proof.
  intros Hm Hk w. unfold bind. destruct (Hm w) as (new & Hf & Hq).
  destruct (m w) as [[a|e] w1]; cbn [snd] in *; [|by exists new].
  destruct (Hk a w1) as (new' & Hf' & Hq'). exists (new ++ new').
  rewrite Hf', Hf, app_assoc. split; [done|]. by apply Forall_app.
Qed.

Lemma store_adds_try_catch {A} Q (body : M A) (handler : exn → M A) :
  store_adds Q body → (∀ e, store_adds Q (handler e)) →
  store_adds Q (try_catch body handler).
Proof.
  intros Hb Hh w. unfold try_catch. destruct (Hb w) as (new & Hf & Hq).
  destruct (body w) as [[a|e] w1]; cbn [snd] in *; [by exists new|].
  destruct (Hh e w1) as (new' & Hf' & Hq'). exists (new ++ new').
  rewrite Hf', Hf, app_assoc. split; [done|]. by apply Forall_app.
Qed.

Lemma store_adds_weaken {A} (Q Q' : drive_file → Prop) (m : M A) :
  store_adds Q m → (∀ f, Q f → Q' f) → store_adds Q' m.
Proof.
  intros Hm HQ w. destruct (Hm w) as (new & Hf & Hq). exists new.
  split; [done|]. eapply Forall_impl; eauto.
Qed.

Lemma store_adds_drive_call Q : store_adds Q drive_call.
Proof. intros w. exists []. by rewrite drive_call_files, app_nil_r. Qed.

Lemma store_adds_files_list Q q : store_adds Q (files_list q).
Proof.
  unfold files_list. apply store_adds_bind; [apply store_adds_drive_call|].
  intros _ w. exists []. by rewrite app_nil_r.
Qed.

Lemma store_adds_files_named Q name folder : store_adds Q (files_named name folder).
Proof.
  unfold files_named. destruct (_ && _); [apply store_adds_files_list|].
  apply store_adds_bind; [apply store_adds_drive_call|].
  intros _ w. exists []. by rewrite app_nil_r.
Qed.

Lemma store_adds_files_get_media Q id : store_adds Q (files_get_media id).
Proof.
  unfold files_get_media. apply store_adds_bind; [apply store_adds_drive_call|].
  intros _ w. exists []. rewrite app_nil_r. by destruct (filter _ _).
Qed.

Lemma store_adds_files_create (Q : drive_file → Prop) n m p d :
  (∀ id t, Q (DriveFile id n m p t false d)) →
  store_adds Q (files_create n m p d).
Proof.
  intros HQ. unfold files_create.
  apply store_adds_bind; [apply store_adds_drive_call|].
  intros _ w. eexists [_]. split; [done|]. constructor; [apply HQ|done].
Qed.

Ltac store_adds_auto :=
  repeat match goal with
         | |- store_adds _ (bind _ _) => apply store_adds_bind; [|intros ?]
         | |- store_adds _ (try_catch _ _) => apply store_adds_try_catch; [|intros ?]
         | |- store_adds _ (ret _) => apply store_adds_ret
         | |- store_adds _ (files_list _) => apply store_adds_files_list
         | |- store_adds _ (files_named _ _) => apply store_adds_files_named
         | |- store_adds _ (files_get_media _) => apply store_adds_files_get_media
         | |- store_adds _ (match ?x with _ => _ end) => destruct x
         | |- store_adds _ (let _ := _ in _) => cbv zeta
         | |- store_adds _ _ => apply store_adds_keeps; solve [keeps_prim]
         end.

Lemma store_adds_create_drive_folder name parent :
  store_adds (λ f, f_name f = name ∧ f_mime f = folder_mime)
             (create_drive_folder name parent).
Proof.
  unfold create_drive_folder. store_adds_auto.
  apply store_adds_files_create. by intros _id t.
Qed.

Lemma store_adds_upload_to_drive data name folder :
  store_adds (λ f, f_name f = name ∧ f_data f = data)
             (upload_to_drive data name folder).
Proof.
  unfold upload_to_drive. store_adds_auto.
  apply store_adds_files_create. by intros _id t.
Qed.

(** One of the two folders of the pipeline. *)
Definition pipeline_folder (f : drive_file) : Prop :=
  f_mime f = folder_mime
  ∧ (f_name f = "Gmail_Attachments"%string ∨ f_name f = "PDFs"%string).

(** A file the harvester saved: the attachment [filename] of the
    message [message_id]. *)
Definition harvested (f : drive_file) : Prop :=
  ∃ message_id filename,
    endswith (py_lower filename) ".pdf" = true
    ∧ f_name f = (message_id ++ "_" ++ sanitize_filename filename)%string.

Lemma store_adds_process_attachment m fn a b :
  store_adds (λ f, pipeline_folder f ∨ harvested f) (process_attachment m fn a b).
Proof.
  unfold process_attachment.
  apply store_adds_try_catch; [|intros e; store_adds_auto].
  destruct (negb (non_empty fn)); [apply store_adds_ret|].
  destruct (negb (endswith (py_lower fn) ".pdf")) eqn:Hpdf; [store_adds_auto|].
  apply negb_false_iff in Hpdf. cbv zeta.
  destruct a as [aid|]; [|apply store_adds_ret].
  destruct (negb (non_empty aid)); [apply store_adds_ret|].
  apply store_adds_bind; [store_adds_auto|intros att].
  destruct att as [file_data|]; [|apply store_adds_ret].
  apply store_adds_bind.
  { eapply store_adds_weaken; [apply store_adds_create_drive_folder|].
    intros f [Hn Hm]. left. split; auto. }
  intros gmail_folder_id. apply store_adds_bind.
  { eapply store_adds_weaken; [apply store_adds_create_drive_folder|].
    intros f [Hn Hm]. left. split; auto. }
  intros pdfs_folder_id. apply store_adds_bind.
  { eapply store_adds_weaken; [apply store_adds_upload_to_drive|].
    intros f [Hn _]. right. by exists m, fn. }
  intros ok. store_adds_auto.
Qed.

Lemma store_adds_extract_attachments m b p :
  store_adds (λ f, pipeline_folder f ∨ harvested f)
             (extract_attachments_from_email m p b).
Proof.
  induction p as [ps IH|fn a] using part_tree_ind;
    cbn [extract_attachments_from_email].
  - induction IH as [|p ps Hp _ IHps]; [apply store_adds_ret|].
    apply store_adds_bind; [apply Hp|intros found].
    apply store_adds_bind; [apply IHps|intros others]. apply store_adds_ret.
  - destruct (_ && _); [|apply store_adds_ret].
    apply store_adds_bind; [apply store_adds_process_attachment|intros r].
    destruct r; apply store_adds_ret.
Qed.

Lemma store_adds_process_one_email base total_n st i email :
  store_adds (λ f, pipeline_folder f ∨ harvested f)
             (process_one_email base total_n st i email).
Proof.
  unfold process_one_email, get_email_details.
  repeat first [ apply store_adds_extract_attachments
               | progress store_adds_auto ].
Qed.

Lemma store_adds_process_emails base total_n emails : ∀ st i,
  store_adds (λ f, pipeline_folder f ∨ harvested f)
             (process_emails base total_n st i emails).
Proof.
  induction emails as [|email emails IH]; intros st i; cbn [process_emails];
    [apply store_adds_ret|].
  apply store_adds_bind; [apply store_adds_process_one_email|intros st'].
  apply IH.
Qed.

Lemma keeps_sheets_search_emails sender term days n :
  keeps sheets (search_emails sender term days n).
Proof. unfold search_emails. keeps_auto. Qed.

Lemma keeps_sheets_fetch_attachment m a : keeps sheets (fetch_attachment m a).
Proof. keeps_prim. Qed.

Lemma keeps_sheets_extract_attachments m b p :
  keeps sheets (extract_attachments_from_email m p b).
Proof.
  apply keeps_extract_attachments; eauto with keeps.
  intros m' a. apply keeps_sheets_fetch_attachment.
Qed.

Lemma keeps_sheets_process_one_email base total_n st i email :
  keeps sheets (process_one_email base total_n st i email).
Proof.
  unfold process_one_email, get_email_details.
  repeat keeps_step; eauto with keeps; apply keeps_sheets_extract_attachments.
Qed.

Lemma keeps_sheets_process_emails base total_n emails : ∀ st i,
  keeps sheets (process_emails base total_n st i emails).
Proof.
  induction emails as [|email emails IH]; intros st i; cbn [process_emails];
    [apply keeps_ret|].
  apply keeps_bind; [apply keeps_sheets_process_one_email|intros st']. apply IH.
Qed.

Lemma total_process_mail_to_drive_workflow config :
  total (process_mail_to_drive_workflow config).
Proof.
  unfold process_mail_to_drive_workflow. apply total_try_catch. intros e.
  auto with total.
Qed.

(** X21: the harvester removes and changes no file of the store.  It
    only adds files after those that are there, and every file it adds
    is one of the folders "Gmail_Attachments" and "PDFs" or carries as
    name a message id, an underscore and the sanitized name of an
    attachment that ends in ".pdf".  It leaves the spreadsheet alone. *)
Theorem mail_workflow_store (config : mail_config) (w : world) :
  ∃ r w' new,
    process_mail_to_drive_workflow config w = (Ok r, w')
    ∧ d_files (drive w') = d_files (drive w) ++ new
    ∧ Forall (λ f, pipeline_folder f ∨ harvested f) new
    ∧ sheets w' = sheets w.
Proof.
  destruct (total_process_mail_to_drive_workflow config w) as (r & w' & E).
  assert (H : store_adds (λ f, pipeline_folder f ∨ harvested f)
                         (process_mail_to_drive_workflow config)).
  { unfold process_mail_to_drive_workflow.
    repeat first [ apply store_adds_keeps, keeps_drive_search_emails
                 | apply store_adds_process_emails
                 | progress store_adds_auto ]. }
  destruct (H w) as (new & Hf & Hq). rewrite E in Hf. cbn [snd] in Hf.
  exists r, w', new. split; [done|]. split; [done|]. split; [done|].
  assert (Hs : keeps sheets (process_mail_to_drive_workflow config)).
  { unfold process_mail_to_drive_workflow.
    repeat keeps_step; eauto with keeps;
      first [apply keeps_sheets_search_emails | apply keeps_sheets_process_emails]. }
  specialize (Hs w). by rewrite E in Hs.
Qed.

Lemma store_adds_extract_attempts Q path attempts :
  store_adds Q (extract_attempts 3 2 path attempts).
Proof.
  induction attempts as [|a attempts IH]; cbn [extract_attempts]; [store_adds_auto|].
  apply store_adds_try_catch; [store_adds_auto|intros e].
  apply store_adds_bind; [store_adds_auto|intros _].
  apply store_adds_bind; [store_adds_auto|intros _]. apply IH.
Qed.

Lemma store_adds_bill_rows Q di dd tp fi total_n bills : ∀ i,
  store_adds Q (bill_rows di dd tp fi total_n i bills).
Proof.
  induction bills as [|b bills IH]; intros i; cbn [bill_rows]; [store_adds_auto|].
  destruct b; try apply IH.
  apply store_adds_bind; [store_adds_auto|intros bdd].
  apply store_adds_bind; [store_adds_auto|intros t].
  apply store_adds_bind; [apply IH|intros others]. apply store_adds_ret.
Qed.

Lemma store_adds_parse Q data fi : store_adds Q (parse_extracted_data data fi).
Proof.
  unfold parse_extracted_data.
  repeat first [ apply store_adds_bill_rows | progress store_adds_auto ].
Qed.

Lemma store_adds_append_attempts Q values attempts :
  store_adds Q (append_attempts 3 2 values attempts).
Proof.
  induction attempts as [|a attempts IH]; cbn [append_attempts]; [store_adds_auto|].
  apply store_adds_try_catch; [store_adds_auto|intros e].
  destruct (a <? 3)%Z; [|store_adds_auto].
  apply store_adds_bind; [store_adds_auto|intros _].
  apply store_adds_bind; [store_adds_auto|intros _]. apply IH.
Qed.

Lemma store_adds_process_one_pdf Q headers total_n st i pdf_file :
  store_adds Q (process_one_pdf headers total_n st i pdf_file).
Proof.
  unfold process_one_pdf, download_from_drive, safe_extract, append_to_google_sheet.
  repeat first [ apply store_adds_extract_attempts
               | apply store_adds_parse
               | apply store_adds_append_attempts
               | progress store_adds_auto ].
Qed.

Lemma store_adds_process_pdfs Q headers total_n files : ∀ st i,
  store_adds Q (process_pdfs headers total_n st i files).
Proof.
  induction files as [|f files IH]; intros st i; cbn [process_pdfs];
    [apply store_adds_ret|].
  apply store_adds_bind; [apply store_adds_process_one_pdf|intros st']. apply IH.
Qed.

Lemma store_adds_reconcile_headers Q h : store_adds Q (reconcile_headers h).
Proof. unfold reconcile_headers, update_headers. store_adds_auto. Qed.

(** X22: the ingestion removes and changes no file of the store, and
    adds nothing to it but folders named "Gmail_Attachments" and
    "PDFs". *)
Theorem payment_workflow_store (config : pay_config) (w : world) :
  ∃ stats w' new,
    process_payment_advice_workflow config w = (Ok stats, w')
    ∧ d_files (drive w') = d_files (drive w) ++ new
    ∧ Forall pipeline_folder new.
Proof.
  destruct (total_process_payment_advice_workflow config w) as (stats & w' & E).
  assert (H : ∃ new, d_files (drive (process_payment_advice_workflow config w).2)
                     = d_files (drive w) ++ new ∧ Forall pipeline_folder new).
  { unfold process_payment_advice_workflow.
    destruct (negb (l_available (llama w))).
    { match goal with |- ∃ new, d_files (drive (?m w).2) = _ ∧ _ =>
        assert (Hm : store_adds pipeline_folder m); [|apply Hm] end.
      store_adds_auto. }
    match goal with |- ∃ new, d_files (drive (?m w).2) = _ ∧ _ =>
      assert (Hm : store_adds pipeline_folder m); [|apply Hm] end.
    unfold get_existing_source_files, list_drive_files, get_sheet_headers.
    apply store_adds_try_catch; [|intros e; store_adds_auto].
    apply store_adds_bind; [store_adds_auto|intros _].
    apply store_adds_bind; [store_adds_auto|intros _].
    apply store_adds_bind; [store_adds_auto|intros agent].
    destruct (negb agent); [store_adds_auto|].
    do 3 (apply store_adds_bind; [store_adds_auto|intros _]).
    apply store_adds_bind.
    { eapply store_adds_weaken; [apply store_adds_create_drive_folder|].
      intros f [Hn Hm]. split; auto. }
    intros gmail_folder_id. apply store_adds_bind.
    { eapply store_adds_weaken; [apply store_adds_create_drive_folder|].
      intros f [Hn Hm]. split; auto. }
    intros pdfs_folder_id.
    repeat first [ apply store_adds_reconcile_headers
                 | apply store_adds_process_pdfs
                 | progress store_adds_auto ]. }
  destruct H as (new & Hf & Hq). rewrite E in Hf. cbn [snd] in Hf.
  by exists stats, w', new.
Qed.

End Program.

(** * Examples

    The theorems applied to the sample inputs, with the parameter
    [float_of_str] set to [float_of_digits], and the runs that show
    where a statement of the specification does not hold. *)

Lemma ingestion_skips_existing_keys_witness :
  run_headers (ingest_world []) = ["source_file_name"%string]
  ∧ ∃ stats w',
      process_payment_advice_workflow float_of_digits disk_ok disk_ok
        sample_pay_config (ingest_world []) = (Ok stats, w')
      ∧ ∀ row, row ∈ appended_since (ingest_world []) w' →
          ∃ row_dict name,
            row = row_values ["source_file_name"%string] row_dict
            ∧ row !! 0%nat = Some (PStr name)
            ∧ ¬ key_present "source_file_name" name ledger_grid.
Proof.
  split; [reflexivity|].
  destruct (ingestion_skips_existing_keys float_of_digits disk_ok disk_ok
              sample_pay_config (ingest_world [])) as (stats & w' & E & H).
  exists stats, w'. split; [exact E|].
  destruct H as (idx & Hidx & Hrows); [unfold key_read_succeeds; simpl; discriminate|].
  assert (Hzero : idx = 0%nat) by (vm_compute in Hidx; congruence).
  subst idx. intros row Hrow.
  destruct (Hrows row Hrow) as (row_dict & name & Hrow_eq & _ & Hcell & Hnew).
  exists row_dict, name. split; [exact Hrow_eq|]. split; [exact Hcell|exact Hnew].
Defined.

(** With the read of the existing keys failing, the run appends a row
    for "m1_a.pdf" although the column already holds that name. *)
Lemma ingestion_repeats_key_when_read_fails :
  key_present "source_file_name" "m1_a.pdf" (s_values (sheets (ingest_world [true])))
  ∧ [PStr "m1_a.pdf"]
    ∈ appended_since (ingest_world [true])
        (process_payment_advice_workflow float_of_digits disk_ok disk_ok sample_pay_config
           (ingest_world [true])).2.
Proof.
  split.
  - exists ["source_file_name"%string], [["m1_a.pdf"%string]], 0%nat, ["m1_a.pdf"%string].
    split_and!; try reflexivity. apply list_elem_of_In. simpl. auto.
  - assert (appended_since (ingest_world [true])
              (process_payment_advice_workflow float_of_digits disk_ok disk_ok sample_pay_config
                 (ingest_world [true])).2
            = [[PStr "m2_b.pdf"]; [PStr "m1_a.pdf"]]) as ->
      by (vm_compute; reflexivity).
    apply list_elem_of_In. simpl. auto.
Qed.

Lemma total_bill_amount_100_bad_50_witness :
  ∃ document_row items w',
    parse_extracted_data float_of_digits extraction_100_bad_50 sample_pdf empty_world
      = (Ok (document_row :: items), w')
    ∧ dict_get document_row "total_bill_amount" PNone = PFloat 450.
Proof.
  exact (proj2 (proj2 (total_bill_amount_100_bad_50 float_of_digits sample_pdf
                         empty_world))).
Defined.

Lemma excel_date_to_string_spec_witness :
  excel_date_to_string float_of_digits (PStr "1/2/2025") = Ok (PStr "1/2/2025")
  ∧ excel_date_to_string float_of_digits (PStr "n.a.") = Ok (PStr "n.a.").
Proof.
  destruct (excel_date_to_string_spec float_of_digits)
    as (_ & _ & _ & _ & Hsep & Hnon & _).
  split; [apply Hsep; reflexivity|apply Hnon; reflexivity].
Defined.

Lemma parse_extracted_data_rows_witness :
  ∃ rows w',
    parse_extracted_data float_of_digits one_bill sample_pdf empty_world = (Ok rows, w')
    ∧ length rows = 2%nat.
Proof.
  destruct (parse_extracted_data_rows float_of_digits one_bill sample_pdf empty_world)
    as (rows & w' & E & _ & H).
  exists rows, w'. split; [exact E|].
  assert (Hr : raises (bill_loop float_of_digits (find_bill_details one_bill)
                         (PInt 0, PInt 0, PInt 0)) = false)
    by (vm_compute; reflexivity).
  exact (proj1 (H Hr)).
Defined.

(** With a clock that advances between two readings, the document row
    and the line-item row of one document carry different processing
    time stamps; and a document whose one line item has an integer
    amount beyond the range of a float yields no row at all. *)
Lemma parse_rows_timestamps_differ :
  map (λ r, dict_get r "processed_date" PNone)
      (rows_of (parse_extracted_data float_of_digits one_bill sample_pdf empty_world))
    = [PStr "2024-04-24 00:00:00"; PStr "2024-04-24 00:00:01"]
  ∧ length (filter (λ b, is_dict b = true) (find_bill_details huge_bill)) = 1%nat
  ∧ (parse_extracted_data float_of_digits huge_bill sample_pdf empty_world).1 = Ok [].
Proof. split_and!; vm_compute; reflexivity. Qed.

Lemma upload_to_drive_twice_witness :
  (∃ w1 w2,
     upload_to_drive no_match "%PDF" "m1_a.pdf" "p" empty_world = (Ok true, w1)
     ∧ upload_to_drive no_match "%PDF" "m1_a.pdf" "p" w1 = (Ok true, w2)
     ∧ length (stored "m1_a.pdf" "p" w2) = 1%nat)
  ∧ (∃ w1 w2 f1 f2,
       upload_to_drive no_match "%PDF" "m1_x' and name='y.pdf" "p" empty_world
       = (Ok true, w1)
       ∧ upload_to_drive no_match "%PDF" "m1_x' and name='y.pdf" "p" w1 = (Ok true, w2)
       ∧ d_files (drive w2) = [f1; f2]
       ∧ f_name f1 = "m1_x' and name='y.pdf"%string
       ∧ f_name f2 = "m1_x' and name='y.pdf"%string)
  ∧ (∃ w1 w2,
       upload_to_drive refuses "%PDF" "Advice Apr'24.pdf" "p" empty_world
       = (Ok false, w1)
       ∧ upload_to_drive refuses "%PDF" "Advice Apr'24.pdf" "p" w1 = (Ok false, w2)
       ∧ d_files (drive w2) = []).
Proof.
  split; [|split].
  - destruct (upload_to_drive_twice no_match "%PDF" "%PDF" "m1_a.pdf" "p" empty_world)
      as [Hplain _]; [constructor|].
    destruct Hplain as (w1 & w2 & E1 & E2 & _ & _ & H); [reflexivity|reflexivity|].
    exists w1, w2. split; [exact E1|]. split; [exact E2|]. apply H. reflexivity.
  - destruct (upload_to_drive_twice no_match "%PDF" "%PDF" "m1_x' and name='y.pdf" "p"
                empty_world) as [_ Hquote]; [constructor|].
    destruct Hquote as [Hnone _]; [reflexivity|].
    destruct Hnone as (w1 & w2 & f1 & f2 & E1 & E2 & Hf & Hn1 & Hn2); [reflexivity|].
    exists w1, w2, f1, f2. split; [exact E1|]. split; [exact E2|].
    split; [exact Hf|]. split; [exact Hn1|exact Hn2].
  - destruct (upload_to_drive_twice refuses "%PDF" "%PDF" "Advice Apr'24.pdf" "p"
                empty_world) as [_ Hquote]; [constructor|].
    destruct Hquote as [_ Hraise]; [reflexivity|].
    destruct Hraise as (w1 & w2 & E1 & E2 & Hf); [reflexivity|].
    exists w1, w2. split; [exact E1|]. split; [exact E2|exact Hf].
Defined.

Lemma append_to_google_sheet_retries_witness :
  ∃ b w',
    append_to_google_sheet [[PStr "x"]] (ingest_world [true; true; true]) = (Ok b, w')
    ∧ slept w' = [2; 2]%Z
    ∧ row_values ["a"; "b"]%string [("b"%string, PInt 1)] !! 1%nat = Some (PInt 1).
Proof.
  destruct (append_to_google_sheet_retries [[PStr "x"]] (ingest_world [true; true; true]))
    as (b & w' & E & _ & _ & _ & _ & Hslept & Hrow).
  exists b, w'. split; [exact E|]. split; [exact Hslept|].
  apply (proj2 (Hrow ["a"; "b"]%string [("b"%string, PInt 1)]) 1%nat "b"%string).
  reflexivity.
Defined.

Lemma total_payment_is_first_amount_witness :
  Forall (λ r, dict_get r "total_payment_amount" PNone = PInt 100)
         (rows_of (parse_extracted_data float_of_digits two_payments sample_pdf
                     empty_world)).
Proof.
  unfold rows_of.
  destruct (parse_extracted_data float_of_digits two_payments sample_pdf empty_world)
    as [[rows|e] w'] eqn:E; [|constructor].
  exact (proj1 (total_payment_is_first_amount float_of_digits two_payments sample_pdf
                  empty_world w' rows E)).
Defined.

Lemma mail_workflow_failures_witness :
  ∃ r w',
    process_mail_to_drive_workflow no_match sample_mail_config failing_world = (Ok r, w')
    ∧ success r = true ∧ total_emails r = 3%Z ∧ failed r = 0%Z.
Proof.
  destruct (mail_workflow_failures no_match sample_mail_config failing_world)
    as (r & w' & E & H).
  exists r, w'. split; [exact E|].
  destruct H as (Hs & Ht & Hf & _); [vm_compute; discriminate|reflexivity|].
  split; [exact Hs|]. split; [exact Ht|exact Hf].
Defined.

(** Three messages fail, one at the detail fetch, one at the attachment
    fetch and one at the upload, as the three error entries of the log
    tell; the run reports success and a failure counter of zero. *)
Lemma mail_failures_not_counted :
  (process_mail_to_drive_workflow no_match sample_mail_config failing_world).1
    = Ok (MailResult true 3 0 0 0 [])
  ∧ map message
        (filter (λ e, level e = "ERROR"%string)
           (logs (process_mail_to_drive_workflow no_match sample_mail_config failing_world).2))
    = ["Failed to get email details for m1: ServiceError";
       "Failed to process attachment a.pdf: ServiceError";
       "Failed to upload m3_a.pdf: ServiceError"]%string.
Proof. split; vm_compute; reflexivity. Qed.

Lemma log_buffer_bounded_witness :
  ∃ w', log "hello" "info" empty_world = (Ok tt, w')
    ∧ (length (logs w') ≤ 200)%nat
    ∧ last (logs w') = Some (LogEntry "2024-04-24 00:00:00" "INFO" "hello")
    ∧ py_lower "INFO" = "info"%string
    ∧ Forall (λ e, level e = py_upper (level e)) (logs w')
    ∧ Forall (λ e, has_lower (level e) = false) (logs w').
Proof.
  destruct (log_buffer_bounded "hello" "info" empty_world)
    as (w' & E & Hlen & _ & _ & Hlast & Hall & _ & Hascii & Hupper).
  exists w'. split; [exact E|]. split; [exact Hlen|]. split; [exact Hlast|].
  split; [exact (proj2 (Hascii eq_refl))|].
  split; [apply Hall; constructor|apply Hupper; constructor].
Defined.

Lemma sanitize_filename_safe_witness :
  contains_char "/" (sanitize_filename "a/b.pdf") = false
  ∧ String.length (sanitize_filename "a/b.pdf") = 7%nat.
Proof.
  destruct (sanitize_filename_safe "a/b.pdf") as (Hsafe & Hshort & _).
  split; [apply Hsafe; reflexivity|apply Hshort; cbn; lia].
Defined.

Lemma excel_date_to_string_numeric_string_witness :
  excel_date_to_string float_of_digits (PStr "45992")
  = excel_date_to_string float_of_digits (PFloat 45992).
Proof.
  exact (proj1 (excel_date_to_string_numeric_string float_of_digits "45992" 45992
                  eq_refl eq_refl)).
Defined.

Lemma parse_extracted_data_numbering_witness :
  map (λ r, dict_get r "bill_sequence" PNone)
      (tail (rows_of (parse_extracted_data float_of_digits one_bill sample_pdf
                        empty_world)))
  = [PInt 1].
Proof.
  unfold rows_of.
  destruct (parse_extracted_data float_of_digits one_bill sample_pdf empty_world)
    as [[[|document_row items]|e] w'] eqn:E.
  - exfalso. vm_compute in E. discriminate.
  - exact (proj1 (proj2 (parse_extracted_data_numbering float_of_digits one_bill
                           sample_pdf empty_world w' document_row items E))).
  - exfalso. vm_compute in E. discriminate.
Defined.

Lemma safe_extract_retries_witness :
  (∃ w', safe_extract "tmp.pdf" flaky_world = (Ok [], w') ∧ slept w' = [2]%Z)
  ∧ (∃ w', safe_extract "tmp.pdf" empty_world = (Raise ServiceError, w')
           ∧ slept w' = [2; 2; 2]%Z).
Proof.
  split.
  - destruct (proj1 (safe_extract_retries "tmp.pdf" flaky_world)
                [Raise ServiceError] [] []) as (w' & E & Hs & _);
      [reflexivity|repeat constructor|cbn; lia|].
    exists w'. split; [exact E|exact Hs].
  - destruct (proj2 (safe_extract_retries "tmp.pdf" empty_world))
      as (w' & E & Hs & _); [constructor|].
    exists w'. split; [exact E|exact Hs].
Defined.

Lemma create_drive_folder_twice_witness :
  ∃ id w1 w2,
    create_drive_folder "PDFs" "g" empty_world = (Ok id, w1)
    ∧ create_drive_folder "PDFs" "g" w1 = (Ok id, w2)
    ∧ d_files (drive w2) = d_files (drive w1).
Proof.
  destruct (create_drive_folder_twice "PDFs" "g" empty_world)
    as (id & w1 & w2 & E1 & E2 & H & _); [constructor|].
  exists id, w1, w2. split; [exact E1|]. split; [exact E2|exact H].
Defined.

Lemma upload_to_drive_safe_witness :
  ∃ w', upload_to_drive no_match "%PDF" "m1_a.pdf" "p" faulty_store_world = (Ok false, w')
        ∧ d_files (drive w') = [].
Proof.
  destruct (upload_to_drive_safe no_match "%PDF" "m1_a.pdf" "p" faulty_store_world)
    as (b & w' & E & _ & Hfalse & _).
  destruct b; [exfalso; vm_compute in E; discriminate|].
  exists w'. split; [exact E|exact (Hfalse eq_refl)].
Defined.

Lemma parse_extracted_data_emits_witness :
  ∃ document_row items w',
    parse_extracted_data float_of_digits one_bill sample_pdf empty_world
    = (Ok (document_row :: items), w')
    ∧ length items = 1%nat.
Proof.
  apply (parse_extracted_data_emits float_of_digits one_bill sample_pdf empty_world).
  constructor; [|constructor].
  repeat split; vm_compute; reflexivity.
Defined.

Lemma list_drive_files_sound_witness :
  ∃ w', list_drive_files "p" 7 faulty_store_world = (Ok [], w').
Proof.
  destruct (list_drive_files_sound "p" 7 faulty_store_world)
    as (files & w' & E & _ & _ & Hfault).
  rewrite (Hfault eq_refl) in E. exists w'. exact E.
Defined.

Lemma get_existing_source_files_exact_witness :
  ∃ keys w',
    get_existing_source_files "source_file_name" (ingest_world []) = (Ok keys, w')
    ∧ "m1_a.pdf"%string ∈ keys.
Proof.
  destruct (get_existing_source_files_exact "source_file_name" (ingest_world []))
    as (keys & w' & E & _ & Hread & _).
  exists keys, w'. split; [exact E|]. apply Hread; [cbn; discriminate|].
  exists ["source_file_name"%string], [["m1_a.pdf"%string]], 0%nat, ["m1_a.pdf"%string].
  split_and!; try reflexivity. apply list_elem_of_In. simpl. auto.
Defined.

Lemma reconcile_headers_columns_witness :
  ∃ h w',
    reconcile_headers ["source_file"; "utr_number"]%string empty_world = (Ok h, w')
    ∧ other_columns h = ["utr_number"]%string.
Proof.
  destruct (reconcile_headers_columns ["source_file"; "utr_number"]%string empty_world)
    as (h & w' & E & _ & _ & _ & Hkeep).
  exists h, w'. split; [exact E|]. apply Hkeep. discriminate.
Defined.

Lemma mail_workflow_early_exit_witness :
  ∃ w',
    process_mail_to_drive_workflow no_match sample_mail_config empty_world
    = (Ok (MailResult true 0 0 0 0 []), w')
    ∧ drive w' = drive empty_world.
Proof.
  apply (mail_workflow_early_exit no_match sample_mail_config empty_world).
  left. vm_compute. reflexivity.
Defined.

Lemma payment_workflow_counts_witness :
  ∃ stats w',
    process_payment_advice_workflow float_of_digits disk_ok disk_ok sample_pay_config
      (ingest_world []) = (Ok stats, w')
    ∧ (processed_pdfs stats + failed_pdfs stats + skipped_pdfs stats
       = total_pdfs stats)%Z.
Proof.
  destruct (payment_workflow_counts float_of_digits disk_ok disk_ok sample_pay_config
              (ingest_world []))
    as (stats & w' & E & _ & _ & _ & _ & _ & _ & _ & Hexact).
  exists stats, w'. split; [exact E|].
  destruct Hexact as [_ Hall]; [intros k; reflexivity|]. exact (Hall eq_refl).
Defined.

(** When the temporary file cannot be removed, the file that was
    processed is counted as failed as well: of two files listed, one
    skipped, the run reports one processed and one failed. *)
Lemma payment_counts_failing_removal :
  (process_payment_advice_workflow float_of_digits disk_ok remove_fails
     sample_pay_config (ingest_world [])).1
  = Ok (PayStats 2 1 1 1 1 0 0).
Proof. vm_compute. reflexivity. Qed.

Lemma payment_workflow_no_agent_witness :
  ∃ w',
    process_payment_advice_workflow float_of_digits disk_ok disk_ok sample_pay_config no_llama_world
    = (Ok (PayStats 0 0 0 0 0 0 0), w')
    ∧ drive w' = drive no_llama_world
    ∧ sheets w' = sheets no_llama_world.
Proof.
  apply (payment_workflow_no_agent float_of_digits disk_ok disk_ok sample_pay_config no_llama_world).
  left. reflexivity.
Defined.

Lemma excel_date_to_string_twice_witness :
  excel_date_to_string float_of_digits (PStr "1-Jan-1900") = Ok (PStr "1-Jan-1900").
Proof.
  apply (excel_date_to_string_twice float_of_digits (PInt 2)).
  vm_compute. reflexivity.
Defined.
